(** * meowcoin-stratum-proxy: a shallow embedding of [meowcoin-proxy-stratum.py]

    The development follows the Python source function by function:
    the byte and string primitives of the interpreter the source relies
    on, the two hash functions and the Base58Check decoder it imports,
    then [var_int], [op_push], [formatDiff], [merkle_from_txids], the
    template state, the history queue, the three Stratum handlers and
    the template refresher [stateUpdater].  The theorems come last. *)

From Stdlib Require Import ZArith NArith QArith Lia List Bool.
From Stdlib Require Import Strings.Ascii Strings.String Strings.Byte.
From stdpp Require Import base option list gmap strings.
From Equations Require Import Equations.

Open Scope Z_scope.

(* ===================================================================== *)
(** * Python values: exceptions, bytes, hexadecimal text                  *)
(* ===================================================================== *)

Module Py.

(** The exceptions the modelled code can raise.  [RPCError] is aiorpcx's,
    [NodeError] stands for the [Exception] the source raises on a node
    reply that carries an [error] field. *)
Inductive exn : Type :=
| ValueError
| OverflowError
| IndexError
| KeyError
| AttributeError
| ZeroDivisionError
| AssertionError
| TypeError
| NodeError
| RPCError (code : Z) (message : string).

Inductive res (A : Type) : Type :=
| Ok (a : A)
| Raise (e : exn).
Arguments Ok {A} a.
Arguments Raise {A} e.

Definition rbind {A B} (r : res A) (k : A -> res B) : res B :=
  match r with
  | Ok a => k a
  | Raise e => Raise e
  end.

Definition is_ok {A} (r : res A) : bool :=
  match r with Ok _ => true | Raise _ => false end.

(** [bytes] objects. *)
Abbreviation bytes := (list byte).

Definition byte_of_N (n : N) : byte :=
  match Byte.of_N (n mod 256) with
  | Some b => b
  | None => x00
  end.

Definition byte_of_Z (z : Z) : byte := byte_of_N (Z.to_N (z mod 256)).

Definition Z_of_byte (b : byte) : Z := Z.of_N (Byte.to_N b).

#[global] Instance byte_eq_decision : EqDecision byte := Byte.byte_eq_dec.

(** [bytes(n)]: n zero bytes. *)
Definition zeros (n : nat) : bytes := repeat x00 n.

(** [b[::-1]] *)
Definition reversed (b : bytes) : bytes := rev b.

(** Truthiness of an optional [bytes] attribute: [None] and [b''] are
    both false in a Python condition. *)
Definition truthy (o : option bytes) : bool :=
  match o with
  | None => false
  | Some [] => false
  | Some (_ :: _) => true
  end.

(** ** Integers to bytes: [int.to_bytes(length, order)] *)

Fixpoint le_bytes (n : nat) (z : Z) : bytes :=
  match n with
  | O => []
  | S n' => byte_of_Z z :: le_bytes n' (z / 256)
  end.

Definition to_bytes_little (n : nat) (z : Z) : res bytes :=
  if (z <? 0) || (256 ^ Z.of_nat n <=? z) then Raise OverflowError
  else Ok (le_bytes n z).

Definition to_bytes_big (n : nat) (z : Z) : res bytes :=
  if (z <? 0) || (256 ^ Z.of_nat n <=? z) then Raise OverflowError
  else Ok (rev (le_bytes n z)).

(** [int.from_bytes(b, 'little', signed=False)] *)
Fixpoint from_bytes_little (b : bytes) : Z :=
  match b with
  | [] => 0
  | x :: r => Z_of_byte x + 256 * from_bytes_little r
  end.

(** ** Hexadecimal text *)

Definition hex_digit (n : N) : ascii :=
  if (n <? 10)%N then ascii_of_N (48 + n) else ascii_of_N (87 + n).

(** Value of a hexadecimal digit, either case. *)
Definition hex_value (c : ascii) : option N :=
  let n := N_of_ascii c in
  if ((48 <=? n) && (n <=? 57))%N then Some (n - 48)%N
  else if ((97 <=? n) && (n <=? 102))%N then Some (n - 87)%N
  else if ((65 <=? n) && (n <=? 70))%N then Some (n - 55)%N
  else None.

(** [bytes.hex()] *)
Fixpoint hex (b : bytes) : string :=
  match b with
  | [] => EmptyString
  | x :: r =>
      let n := Byte.to_N x in
      String (hex_digit (n / 16)) (String (hex_digit (n mod 16)) (hex r))
  end.

(** [Py_ISSPACE]: the ASCII white space [bytes.fromhex] skips between
    two bytes (never between the two digits of one byte). *)
Definition is_space (c : ascii) : bool :=
  let n := N_of_ascii c in
  ((n =? 32) || ((9 <=? n) && (n <=? 13)))%N.

(** [bytes.fromhex(s)] *)
Fixpoint fromhex (s : string) : res bytes :=
  match s with
  | EmptyString => Ok []
  | String c s1 =>
      if is_space c then fromhex s1
      else
        match hex_value c, s1 with
        | Some hi, String d s2 =>
            match hex_value d with
            | Some lo =>
                rbind (fromhex s2) (fun r => Ok (byte_of_N (16 * hi + lo) :: r))
            | None => Raise ValueError
            end
        | _, _ => Raise ValueError
        end
  end.

(** Digits of a positive number, most significant first, as [hex(i)]
    and [str(i)] print them. *)
Fixpoint digits_pos (base : N) (fuel : nat) (n : N) (acc : string) : string :=
  match fuel with
  | O => acc
  | S f =>
      let acc' := String (hex_digit (n mod base)) acc in
      if (n / base =? 0)%N then acc' else digits_pos base f (n / base) acc'
  end.

Definition digits (base : N) (n : N) : string :=
  digits_pos base (S (N.to_nat (N.log2 n))) n EmptyString.

(** [hex(i)] for a Python integer: ['0x..'], ['-0x..'] when negative. *)
Definition hex_int (z : Z) : string :=
  if z <? 0 then String "-" (String "0" (String "x" (digits 16 (Z.to_N (- z)))))
  else String "0" (String "x" (digits 16 (Z.to_N z))).

(** [s[n:]] on text. *)
Fixpoint drop_str (n : nat) (s : string) : string :=
  match n, s with
  | O, _ => s
  | S n', String _ r => drop_str n' r
  | S _, EmptyString => EmptyString
  end.

(** [s[:n]] on text. *)
Fixpoint take_str (n : nat) (s : string) : string :=
  match n, s with
  | S n', String c r => String c (take_str n' r)
  | _, _ => EmptyString
  end.

(** [s[a:b]] on text, for [0 <= a <= b]. *)
Definition slice_str (a b : nat) (s : string) : string :=
  take_str (b - a) (drop_str a s).

(** White space for [int]: a character of a [string] is a code point
    below 256, and on text [int] takes the next-line and no-break-space
    characters for spaces besides the ASCII ones. *)
Definition is_int_space (c : ascii) : bool :=
  let n := N_of_ascii c in
  (is_space c || (n =? 0x85) || (n =? 0xa0))%N.

Fixpoint all_int_space (s : string) : bool :=
  match s with
  | EmptyString => true
  | String c r => is_int_space c && all_int_space r
  end.

Fixpoint skip_int_space (s : string) : string :=
  match s with
  | String c r => if is_int_space c then skip_int_space r else s
  | EmptyString => s
  end.

(** The digits of [int(s, 16)] and what may follow them: hexadecimal
    digits of either case, one underscore between two digits, then white
    space up to the end.  [prev] tells that the character before was a
    digit; no digit at all, an underscore that does not follow a digit
    and a last underscore are refused. *)
Fixpoint int16_acc (s : string) (prev : bool) (acc : N) : option N :=
  match s with
  | EmptyString => if prev then Some acc else None
  | String c r =>
      match hex_value c with
      | Some d => int16_acc r true (16 * acc + d)%N
      | None =>
          if Ascii.eqb c "_" then (if prev then int16_acc r false acc else None)
          else if prev && all_int_space s then Some acc
          else None
      end
  end.

(** [int(s, 16)]: white space, an optional sign, an optional [0x] or
    [0X] that one underscore may follow, the digits, white space.
    Anything else raises [ValueError]. *)
Definition int16 (s : string) : res Z :=
  let s := skip_int_space s in
  let '(negative, s) :=
    match s with
    | String "+" r => (false, r)
    | String "-" r => (true, r)
    | _ => (false, s)
    end in
  let s :=
    match s with
    | String "0" (String x r) =>
        if Ascii.eqb x "x" || Ascii.eqb x "X"
        then match r with String "_" r' => r' | _ => r end
        else s
    | _ => s
    end in
  match int16_acc s false 0%N with
  | Some n => Ok (if negative then - Z.of_N n else Z.of_N n)
  | None => Raise ValueError
  end.

(** [s.split('.')[0]]: the text before the first dot. *)
Fixpoint before_dot (s : string) : string :=
  match s with
  | EmptyString => EmptyString
  | String c r =>
      if Ascii.eqb c "."%char then EmptyString else String c (before_dot r)
  end.

(** [s.startswith(p)] *)
Definition startswith (p s : string) : bool := String.prefix p s.

(** Text of an ASCII byte string literal. *)
Fixpoint bytes_of_string (s : string) : bytes :=
  match s with
  | EmptyString => []
  | String c r => byte_of_N (N_of_ascii c) :: bytes_of_string r
  end.

End Py.
Export Py.

(* ===================================================================== *)
(** * SHA-256 ([hashlib.sha256]) on 32-bit words kept in [N]              *)
(* ===================================================================== *)

Module SHA256.

Open Scope N_scope.

Definition mask32 : N := 4294967295.

Definition add32 (a b : N) : N := (a + b) mod 4294967296.

Definition rotr (n x : N) : N :=
  N.lor (N.shiftr x n) (N.land (N.shiftl x (32 - n)) mask32).

Definition not32 (x : N) : N := N.lxor x mask32.

Definition Ch (x y z : N) : N := N.lxor (N.land x y) (N.land (not32 x) z).
Definition Maj (x y z : N) : N :=
  N.lxor (N.lxor (N.land x y) (N.land x z)) (N.land y z).
Definition Sigma0 (x : N) : N := N.lxor (N.lxor (rotr 2 x) (rotr 13 x)) (rotr 22 x).
Definition Sigma1 (x : N) : N := N.lxor (N.lxor (rotr 6 x) (rotr 11 x)) (rotr 25 x).
Definition sigma0 (x : N) : N := N.lxor (N.lxor (rotr 7 x) (rotr 18 x)) (N.shiftr x 3).
Definition sigma1 (x : N) : N := N.lxor (N.lxor (rotr 17 x) (rotr 19 x)) (N.shiftr x 10).

(** The constants are not tabulated but derived as the standard defines
    them: the first 32 bits of the fractional parts of the cube roots
    (round constants) and of the square roots (initial chaining value)
    of the first primes. *)
Definition is_prime (n : nat) : bool :=
  forallb (fun d => negb (Nat.eqb (Nat.modulo n d) 0)) (seq 2 (n - 2)).

Definition primes : list N :=
  map N.of_nat (List.filter is_prime (seq 2 310)).

(** Integer cube root, one bit at a time from bit [b] down. *)
Fixpoint cube_root (b : nat) (n r : N) : N :=
  let r' := r + N.shiftl 1 (N.of_nat b) in
  let r'' := if r' * r' * r' <=? n then r' else r in
  match b with
  | O => r''
  | S b' => cube_root b' n r''
  end.

Definition K : list N :=
  Eval vm_compute in
    map (fun p => cube_root 40 (p * N.shiftl 1 96) 0 mod 4294967296) primes.

(** The eight chaining words. *)
Record regs : Type := Regs { ra : N; rb : N; rc : N; rd : N; re : N; rf : N; rg : N; rh : N }.

Definition H0 : regs :=
  Eval vm_compute in
    match map (fun p => N.sqrt (p * N.shiftl 1 64) mod 4294967296) (firstn 8 primes) with
    | [a; b; c; d; e; f; g; h] => Regs a b c d e f g h
    | _ => Regs 0 0 0 0 0 0 0 0
    end.

(** Big-endian word of four bytes, and back. *)
Definition word_of (b0 b1 b2 b3 : byte) : N :=
  Byte.to_N b0 * 16777216 + Byte.to_N b1 * 65536 + Byte.to_N b2 * 256 + Byte.to_N b3.

Definition bytes_of_word (w : N) : bytes :=
  [ byte_of_N (w / 16777216); byte_of_N (w / 65536); byte_of_N (w / 256); byte_of_N w ].

Fixpoint words_of (b : bytes) : list N :=
  match b with
  | b0 :: b1 :: b2 :: b3 :: r => word_of b0 b1 b2 b3 :: words_of r
  | _ => []
  end.

(** Message schedule: [rev_w] holds the words so far, newest first. *)
Fixpoint expand (n : nat) (rev_w : list N) : list N :=
  match n with
  | O => rev rev_w
  | S n' =>
      let w := add32 (add32 (sigma1 (nth 1 rev_w 0)) (nth 6 rev_w 0))
                     (add32 (sigma0 (nth 14 rev_w 0)) (nth 15 rev_w 0)) in
      expand n' (w :: rev_w)
  end.

Definition round (s : regs) (kw : N * N) : regs :=
  let t1 := add32 (add32 (add32 (rh s) (Sigma1 (re s))) (Ch (re s) (rf s) (rg s)))
                  (add32 (fst kw) (snd kw)) in
  let t2 := add32 (Sigma0 (ra s)) (Maj (ra s) (rb s) (rc s)) in
  Regs (add32 t1 t2) (ra s) (rb s) (rc s) (add32 (rd s) t1) (re s) (rf s) (rg s).

Definition compress (h : regs) (block : bytes) : regs :=
  let w := expand 48 (rev (words_of block)) in
  let s := fold_left round (combine K w) h in
  Regs (add32 (ra h) (ra s)) (add32 (rb h) (rb s)) (add32 (rc h) (rc s))
       (add32 (rd h) (rd s)) (add32 (re h) (re s)) (add32 (rf h) (rf s))
       (add32 (rg h) (rg s)) (add32 (rh h) (rh s)).

(** Padding: a 0x80 byte, zeros up to 56 modulo 64, the bit length on
    eight big-endian bytes. *)
Definition pad (m : bytes) : bytes :=
  let len := N.of_nat (length m) in
  let z := N.to_nat ((119 - len mod 64) mod 64) in
  m ++ x80 :: repeat x00 z ++ rev (le_bytes 8 (Z.of_N (8 * len))).

Fixpoint blocks (n : nat) (h : regs) (m : bytes) : regs :=
  match n with
  | O => h
  | S n' => blocks n' (compress h (firstn 64 m)) (skipn 64 m)
  end.

Definition digest_of (h : regs) : bytes :=
  bytes_of_word (ra h) ++ bytes_of_word (rb h) ++ bytes_of_word (rc h) ++
  bytes_of_word (rd h) ++ bytes_of_word (re h) ++ bytes_of_word (rf h) ++
  bytes_of_word (rg h) ++ bytes_of_word (rh h).

Definition sha256 (m : bytes) : bytes :=
  let p := pad m in
  digest_of (blocks (Nat.div (length p) 64) H0 p).

End SHA256.

Arguments SHA256.sha256 : simpl never.

(* ===================================================================== *)
(** * Keccak-256 ([sha3.keccak_256]: the original padding, rate 136)      *)
(* ===================================================================== *)

Module Keccak.

Open Scope N_scope.

Definition mask64 : N := 18446744073709551615.

Definition rotl (n x : N) : N :=
  N.lor (N.land (N.shiftl x n) mask64) (N.shiftr x (64 - n)).

Definition RC : list N :=
  [ 0x0000000000000001; 0x0000000000008082; 0x800000000000808A;
    0x8000000080008000; 0x000000000000808B; 0x0000000080000001;
    0x8000000080008081; 0x8000000000008009; 0x000000000000008A;
    0x0000000000000088; 0x0000000080008009; 0x000000008000000A;
    0x000000008000808B; 0x800000000000008B; 0x8000000000008089;
    0x8000000000008003; 0x8000000000008002; 0x8000000000000080;
    0x000000000000800A; 0x800000008000000A; 0x8000000080008081;
    0x8000000000008080; 0x0000000080000001; 0x8000000080008008 ].

(** Rotation offsets, at index [x + 5 * y]. *)
Definition ROT : list N :=
  [  0;  1; 62; 28; 27;
    36; 44;  6; 55; 20;
     3; 10; 43; 25; 39;
    41; 45; 15; 21;  8;
    18;  2; 61; 56; 14 ].

(** The state: 25 lanes, lane (x, y) at index [x + 5 * y]. *)
Definition lane (a : list N) (x y : nat) : N :=
  nth (x mod 5 + 5 * (y mod 5))%nat a 0.

Definition coords : list (nat * nat) :=
  flat_map (fun y => map (fun x => (x, y)) (seq 0 5)) (seq 0 5).

Definition theta (a : list N) : list N :=
  let c x := N.lxor (N.lxor (N.lxor (N.lxor (lane a x 0) (lane a x 1)) (lane a x 2))
                            (lane a x 3)) (lane a x 4) in
  let d x := N.lxor (c (x + 4)%nat) (rotl 1 (c (x + 1)%nat)) in
  map (fun p => N.lxor (lane a (fst p) (snd p)) (d (fst p))) coords.

Definition rho_pi (a : list N) : list N :=
  map (fun p =>
         let X := fst p in
         let Y := snd p in
         let x := ((X + 3 * Y) mod 5)%nat in
         rotl (nth (x + 5 * X)%nat ROT 0) (lane a x X))
      coords.

Definition chi (b : list N) : list N :=
  map (fun p =>
         let x := fst p in
         let y := snd p in
         N.lxor (lane b x y)
                (N.land (N.lxor (lane b (x + 1) y) mask64) (lane b (x + 2) y)))
      coords.

Definition iota (rc : N) (a : list N) : list N :=
  match a with
  | [] => []
  | a0 :: r => N.lxor a0 rc :: r
  end.

Definition keccak_round (a : list N) (rc : N) : list N :=
  iota rc (chi (rho_pi (theta a))).

Definition keccak_f (a : list N) : list N := fold_left keccak_round RC a.

(** Little-endian lane of eight bytes, and back. *)
Fixpoint lane_of (b : bytes) : N :=
  match b with
  | [] => 0
  | x :: r => Byte.to_N x + 256 * lane_of r
  end.

Fixpoint lanes_of (n : nat) (b : bytes) : list N :=
  match n with
  | O => []
  | S n' => lane_of (firstn 8 b) :: lanes_of n' (skipn 8 b)
  end.

Definition bytes_of_lane (w : N) : bytes := le_bytes 8 (Z.of_N w).

Definition rate : nat := 136.

(** Padding of the original Keccak: 0x01, zeros, the last byte or-ed
    with 0x80 (a single padding byte is 0x81). *)
Definition pad (m : bytes) : bytes :=
  let q := (rate - length m mod rate)%nat in
  match q with
  | 1%nat => m ++ [x81]
  | _ => m ++ x01 :: repeat x00 (q - 2) ++ [x80]
  end.

Definition xor_lanes (a b : list N) : list N :=
  map (fun p => N.lxor (fst p) (snd p)) (combine a (b ++ repeat 0 25)).

Fixpoint absorb (n : nat) (a : list N) (m : bytes) : list N :=
  match n with
  | O => a
  | S n' =>
      absorb n' (keccak_f (xor_lanes a (lanes_of 17 (firstn rate m)))) (skipn rate m)
  end.

Definition keccak_256 (m : bytes) : bytes :=
  let p := pad m in
  let a := absorb (Nat.div (length p) rate) (repeat 0 25) p in
  bytes_of_lane (lane a 0 0) ++ bytes_of_lane (lane a 1 0) ++
  bytes_of_lane (lane a 2 0) ++ bytes_of_lane (lane a 3 0).

End Keccak.

Arguments Keccak.keccak_256 : simpl never.

(* ===================================================================== *)
(** * Base58Check ([base58.b58decode_check])                              *)
(* ===================================================================== *)

Module Base58.

Definition alphabet : string :=
  "123456789ABCDEFGHJKLMNPQRSTUVWXYZabcdefghijkmnopqrstuvwxyz".

Fixpoint index_in (c : ascii) (s : string) (i : N) : option N :=
  match s with
  | EmptyString => None
  | String d r => if Ascii.eqb c d then Some i else index_in c r (i + 1)%N
  end.

Definition value (c : ascii) : option N := index_in c alphabet 0%N.

(** [str.isspace] on ASCII, the characters [rstrip()] removes. *)
Definition is_strip_space (c : ascii) : bool :=
  let n := N_of_ascii c in
  ((n =? 32) || ((9 <=? n) && (n <=? 13)) || ((28 <=? n) && (n <=? 31)))%N.

(** [v.rstrip()] *)
Fixpoint rstrip (s : string) : string :=
  match s with
  | EmptyString => EmptyString
  | String c r =>
      match rstrip r with
      | EmptyString => if is_strip_space c then EmptyString else String c EmptyString
      | r' => String c r'
      end
  end.

(** [v.lstrip(alphabet[0:1])]: the remainder and the number of leading
    ['1'] characters removed. *)
Fixpoint lstrip_ones (s : string) (n : nat) : string * nat :=
  match s with
  | String "1"%char r => lstrip_ones r (S n)
  | _ => (s, n)
  end.

(** [b58decode_int] *)
Fixpoint b58decode_int (s : string) (acc : N) : res N :=
  match s with
  | EmptyString => Ok acc
  | String c r =>
      match value c with
      | Some d => b58decode_int r (acc * 58 + d)%N
      | None => Raise ValueError
      end
  end.

(** [acc.to_bytes((acc.bit_length() + 7) // 8, 'big')] *)
Definition minimal_big (acc : N) : bytes :=
  let n := if (acc =? 0)%N then O else N.to_nat ((N.log2 acc + 1 + 7) / 8) in
  rev (le_bytes n (Z.of_N acc)).

(** [b58decode] *)
Definition b58decode (v : string) : res bytes :=
  let v := rstrip v in
  let '(rest, ones) := lstrip_ones v O in
  rbind (b58decode_int rest 0%N) (fun acc => Ok (zeros ones ++ minimal_big acc)).

Definition dsha256_ (b : bytes) : bytes := SHA256.sha256 (SHA256.sha256 b).

(** [b58decode_check]: the payload without its four checksum bytes, or
    [ValueError] when the checksum does not match. *)
Definition b58decode_check (v : string) : res bytes :=
  rbind (b58decode v) (fun result =>
    let n := length result in
    let payload := firstn (n - 4) result in
    let check := skipn (n - 4) result in
    if decide (check = firstn 4 (dsha256_ payload)) then Ok payload
    else Raise ValueError).

End Base58.

(* ===================================================================== *)
(** * Binary64 arithmetic, as far as [formatDiff] uses it                  *)
(* ===================================================================== *)

(** A float is kept as the rational it denotes.  [RN n d] is the binary64
    number nearest to [n / d] (ties to even) for positive [n] and [d]
    whose quotient lies in the normal range; true division of Python
    integers and the division of a float by an integer are both correctly
    rounded, so both are [RN] of an exact quotient. *)
Module F64.

Definition pow2 (e : Z) : Z := 2 ^ e.

(** The power [2 ^ e] as the fraction [den_scale e / num_scale e] of two
    positive integers. *)
Definition num_scale (e : Z) : Z := if 0 <=? e then 1 else 2 ^ (- e).
Definition den_scale (e : Z) : Z := if 0 <=? e then 2 ^ e else 1.

Definition scaled_quot (n d e : Z) : Z :=
  if 0 <=? e then n / (d * pow2 e) else (n * pow2 (- e)) / d.

Definition exponent (n d : Z) : Z :=
  let e := Z.log2 n - Z.log2 d - 52 in
  if scaled_quot n d e <? pow2 52 then e - 1 else e.

Definition RN (n d : Z) : Q :=
  let e := exponent n d in
  let n' := if 0 <=? e then n else n * pow2 (- e) in
  let d' := if 0 <=? e then d * pow2 e else d in
  let q := n' / d' in
  let r := n' mod d' in
  let m := if (d' <? 2 * r) || ((d' =? 2 * r) && Z.odd q) then q + 1 else q in
  if 0 <=? e then Qmake (m * pow2 e) 1 else Qmake m (Z.to_pos (pow2 (- e))).

(** [a / b] on Python integers, [a > 0]: the nearest float; rounding to
    nearest is symmetric, so a negative divisor gives the opposite of
    the quotient by its absolute value. *)
Definition truediv (a b : Z) : res Q :=
  if b =? 0 then Raise ZeroDivisionError
  else if b <? 0 then Ok (Qopp (RN a (- b)))
  else Ok (RN a b).

(** [x / l] for a positive float [x] and a positive integer [l] that a
    float holds exactly. *)
Definition div_int (x : Q) (l : Z) : Q := RN (Qnum x) (Zpos (Qden x) * l).

(** [x > l], exact. *)
Definition gt_int (x : Q) (l : Z) : bool := negb (Qle_bool x (inject_Z l)).

(** ['{:.2f}'.format(x)]: two decimals, the exact value rounded half to
    even. *)
Definition format_2f (x : Q) : string :=
  let n := 100 * Qnum x in
  let d := Zpos (Qden x) in
  let q := n / d in
  let r := n mod d in
  let k := if (d <? 2 * r) || ((d =? 2 * r) && Z.odd q) then q + 1 else q in
  let cents := Z.to_N (k mod 100) in
  String.append (digits 10 (Z.to_N (k / 100)))
    (String "." (String (hex_digit (cents / 10)) (String (hex_digit (cents mod 10)) EmptyString))).

End F64.

(* ===================================================================== *)
(** * The source: codecs                                                  *)
(* ===================================================================== *)

Definition KAWPOW_EPOCH_LENGTH : Z := 7500.

(** def var_int(i) *)
Definition var_int (i : Z) : res bytes :=
  if i <? 0 then Raise AssertionError (* assert i >= 0, i *)
  else if i <? 0xfd then to_bytes_little 1 i
  else if i <=? 0xffff then rbind (to_bytes_little 2 i) (fun b => Ok (xfd :: b))
  else if i <=? 0xffffffff then rbind (to_bytes_little 4 i) (fun b => Ok (xfe :: b))
  else rbind (to_bytes_little 8 i) (fun b => Ok (xff :: b)).

(** def op_push(i) *)
Definition op_push (i : Z) : res bytes :=
  if i <? 0x4C then to_bytes_little 1 i
  else if i <=? 0xff then rbind (to_bytes_little 1 i) (fun b => Ok (x4c :: b))
  else if i <=? 0xffff then rbind (to_bytes_little 2 i) (fun b => Ok (x4d :: b))
  else rbind (to_bytes_little 4 i) (fun b => Ok (x4e :: b)).

Definition UNITS : list (Z * string) :=
  [ (1000000000000, "T"); (1000000000, "G"); (1000000, "M"); (1000, "K") ]%string.

(** The [for l, u in UNITS] loop of [formatDiff]: the first unit the
    difficulty exceeds decides the text; falling off the end of the list
    is the implicit [return None]. *)
Fixpoint formatDiff_units (diff : Q) (units : list (Z * string)) : option string :=
  match units with
  | [] => None
  | (l, u) :: rest =>
      if F64.gt_int diff l then Some (String.append (F64.format_2f (F64.div_int diff l)) u)
      else formatDiff_units diff rest
  end.

(** The first line of [formatDiff]:
    [diff = 0xffffffffffffffff / int(target[:16], 16)]. *)
Definition formatDiff_diff (target : string) : res Q :=
  rbind (int16 (take_str 16 target)) (fun t => F64.truediv 0xffffffffffffffff t).

(** def formatDiff(target) *)
Definition formatDiff (target : string) : res (option string) :=
  rbind (formatDiff_diff target) (fun diff => Ok (formatDiff_units diff UNITS)).

(** def prune0x(s) *)
Definition prune0x (s : string) : string :=
  if startswith "0x" s then drop_str 2 s else s.

(** def dsha256(b) *)
Definition dsha256 (b : bytes) : bytes := SHA256.sha256 (SHA256.sha256 b).

Arguments dsha256 : simpl never.

(** The list comprehension of [merkle_from_txids], which zips the one
    iterator [iter(txids)] with itself and hashes [l + r] for every pair
    [l, r]: [zip] draws both components from the same iterator, so it
    yields consecutive pairs and stops at an element left without a
    partner. *)
Fixpoint hash_pairs (txids : list bytes) : list bytes :=
  match txids with
  | l :: r :: rest => dsha256 (l ++ r) :: hash_pairs rest
  | _ => []
  end.

(** [txids[-1]] of a non-empty list. *)
Definition last_txid (txids : list bytes) : bytes := List.last txids [].

(** The [while len(txids) > 1] loop: append the last element, hash the
    pairs.  It recurses on a list of about half the length. *)
Equations? merkle_while (txids : list bytes) : list bytes by wf (length txids) lt :=
  merkle_while txids with le_lt_dec (length txids) 1 := {
    | left _ => txids
    | right _ => merkle_while (hash_pairs (txids ++ [last_txid txids]))
  }.
Proof.
  assert (Hlen : forall n (t : list bytes),
             (length t <= n)%nat -> (2 * length (hash_pairs t) <= length t)%nat).
  { intros n. induction n as [|n IH]; intros [|a [|b rest]] Hn; simpl in *; try lia.
    specialize (IH rest). lia. }
  specialize (Hlen _ (txids ++ [last_txid txids]) (le_n _)).
  rewrite length_app in Hlen. simpl in Hlen. lia.
Qed.

(** def merkle_from_txids(txids) *)
Definition merkle_from_txids (txids : list bytes) : res bytes :=
  match txids with
  | [] => Ok (dsha256 [])
  | [x] => Ok x
  | _ =>
      match merkle_while txids with
      | x :: _ => Ok x
      | [] => Raise IndexError
      end
  end.

(* ===================================================================== *)
(** * The source: template state                                          *)
(* ===================================================================== *)

(** class TemplateState: the attributes a [deepcopy] copies.  The two
    session sets are class attributes that are only ever mutated in
    place, so every instance and every snapshot shares them; they live
    in [World] below. *)
Record TemplateState : Type := mkState {
  height : Z;
  timestamp : Z;
  pub_h160 : option bytes;
  bits : option string;
  target : option string;
  headerHash : option string;
  version : Z;
  prevHash : option bytes;
  externalTxs : list string;
  seedHash : option bytes;
  header : option bytes;
  coinbase_tx : option bytes;
  coinbase_txid : option bytes;
  current_commitment : option string;
  awaiting_update : bool;
  job_counter : Z;
  bits_counter : Z
}.

(** The attribute values of a fresh [TemplateState()]. *)
Definition initial_state : TemplateState :=
  {| height := -1; timestamp := -1; pub_h160 := None; bits := None;
     target := None; headerHash := None; version := -1; prevHash := None;
     externalTxs := []; seedHash := None; header := None;
     coinbase_tx := None; coinbase_txid := None;
     current_commitment := None; awaiting_update := false;
     job_counter := 0; bits_counter := 0 |}.

(** Attribute assignment, one function per assigned attribute. *)
Definition set_pub_h160 (v : option bytes) (st : TemplateState) : TemplateState :=
  {| height := height st; timestamp := timestamp st; pub_h160 := v; bits :=
     bits st; target := target st; headerHash := headerHash st; version :=
     version st; prevHash := prevHash st; externalTxs := externalTxs st;
     seedHash := seedHash st; header := header st; coinbase_tx :=
     coinbase_tx st; coinbase_txid := coinbase_txid st; current_commitment
     := current_commitment st; awaiting_update := awaiting_update st;
     job_counter := job_counter st; bits_counter := bits_counter st |}.

Definition set_bits (v : option string) (st : TemplateState) : TemplateState :=
  {| height := height st; timestamp := timestamp st; pub_h160 := pub_h160
     st; bits := v; target := target st; headerHash := headerHash st;
     version := version st; prevHash := prevHash st; externalTxs :=
     externalTxs st; seedHash := seedHash st; header := header st;
     coinbase_tx := coinbase_tx st; coinbase_txid := coinbase_txid st;
     current_commitment := current_commitment st; awaiting_update :=
     awaiting_update st; job_counter := job_counter st; bits_counter :=
     bits_counter st |}.

Definition set_target (v : option string) (st : TemplateState) : TemplateState :=
  {| height := height st; timestamp := timestamp st; pub_h160 := pub_h160
     st; bits := bits st; target := v; headerHash := headerHash st; version
     := version st; prevHash := prevHash st; externalTxs := externalTxs st;
     seedHash := seedHash st; header := header st; coinbase_tx :=
     coinbase_tx st; coinbase_txid := coinbase_txid st; current_commitment
     := current_commitment st; awaiting_update := awaiting_update st;
     job_counter := job_counter st; bits_counter := bits_counter st |}.

Definition set_headerHash (v : option string) (st : TemplateState) : TemplateState :=
  {| height := height st; timestamp := timestamp st; pub_h160 := pub_h160
     st; bits := bits st; target := target st; headerHash := v; version :=
     version st; prevHash := prevHash st; externalTxs := externalTxs st;
     seedHash := seedHash st; header := header st; coinbase_tx :=
     coinbase_tx st; coinbase_txid := coinbase_txid st; current_commitment
     := current_commitment st; awaiting_update := awaiting_update st;
     job_counter := job_counter st; bits_counter := bits_counter st |}.

Definition set_version (v : Z) (st : TemplateState) : TemplateState :=
  {| height := height st; timestamp := timestamp st; pub_h160 := pub_h160
     st; bits := bits st; target := target st; headerHash := headerHash st;
     version := v; prevHash := prevHash st; externalTxs := externalTxs st;
     seedHash := seedHash st; header := header st; coinbase_tx :=
     coinbase_tx st; coinbase_txid := coinbase_txid st; current_commitment
     := current_commitment st; awaiting_update := awaiting_update st;
     job_counter := job_counter st; bits_counter := bits_counter st |}.

Definition set_prevHash (v : option bytes) (st : TemplateState) : TemplateState :=
  {| height := height st; timestamp := timestamp st; pub_h160 := pub_h160
     st; bits := bits st; target := target st; headerHash := headerHash st;
     version := version st; prevHash := v; externalTxs := externalTxs st;
     seedHash := seedHash st; header := header st; coinbase_tx :=
     coinbase_tx st; coinbase_txid := coinbase_txid st; current_commitment
     := current_commitment st; awaiting_update := awaiting_update st;
     job_counter := job_counter st; bits_counter := bits_counter st |}.

Definition set_externalTxs (v : list string) (st : TemplateState) : TemplateState :=
  {| height := height st; timestamp := timestamp st; pub_h160 := pub_h160
     st; bits := bits st; target := target st; headerHash := headerHash st;
     version := version st; prevHash := prevHash st; externalTxs := v;
     seedHash := seedHash st; header := header st; coinbase_tx :=
     coinbase_tx st; coinbase_txid := coinbase_txid st; current_commitment
     := current_commitment st; awaiting_update := awaiting_update st;
     job_counter := job_counter st; bits_counter := bits_counter st |}.

Definition set_seedHash (v : option bytes) (st : TemplateState) : TemplateState :=
  {| height := height st; timestamp := timestamp st; pub_h160 := pub_h160
     st; bits := bits st; target := target st; headerHash := headerHash st;
     version := version st; prevHash := prevHash st; externalTxs :=
     externalTxs st; seedHash := v; header := header st; coinbase_tx :=
     coinbase_tx st; coinbase_txid := coinbase_txid st; current_commitment
     := current_commitment st; awaiting_update := awaiting_update st;
     job_counter := job_counter st; bits_counter := bits_counter st |}.

Definition set_header (v : option bytes) (st : TemplateState) : TemplateState :=
  {| height := height st; timestamp := timestamp st; pub_h160 := pub_h160
     st; bits := bits st; target := target st; headerHash := headerHash st;
     version := version st; prevHash := prevHash st; externalTxs :=
     externalTxs st; seedHash := seedHash st; header := v; coinbase_tx :=
     coinbase_tx st; coinbase_txid := coinbase_txid st; current_commitment
     := current_commitment st; awaiting_update := awaiting_update st;
     job_counter := job_counter st; bits_counter := bits_counter st |}.

Definition set_coinbase_tx (v : option bytes) (st : TemplateState) : TemplateState :=
  {| height := height st; timestamp := timestamp st; pub_h160 := pub_h160
     st; bits := bits st; target := target st; headerHash := headerHash st;
     version := version st; prevHash := prevHash st; externalTxs :=
     externalTxs st; seedHash := seedHash st; header := header st;
     coinbase_tx := v; coinbase_txid := coinbase_txid st; current_commitment
     := current_commitment st; awaiting_update := awaiting_update st;
     job_counter := job_counter st; bits_counter := bits_counter st |}.

Definition set_coinbase_txid (v : option bytes) (st : TemplateState) : TemplateState :=
  {| height := height st; timestamp := timestamp st; pub_h160 := pub_h160
     st; bits := bits st; target := target st; headerHash := headerHash st;
     version := version st; prevHash := prevHash st; externalTxs :=
     externalTxs st; seedHash := seedHash st; header := header st;
     coinbase_tx := coinbase_tx st; coinbase_txid := v; current_commitment
     := current_commitment st; awaiting_update := awaiting_update st;
     job_counter := job_counter st; bits_counter := bits_counter st |}.

Definition set_current_commitment (v : option string) (st : TemplateState) : TemplateState :=
  {| height := height st; timestamp := timestamp st; pub_h160 := pub_h160
     st; bits := bits st; target := target st; headerHash := headerHash st;
     version := version st; prevHash := prevHash st; externalTxs :=
     externalTxs st; seedHash := seedHash st; header := header st;
     coinbase_tx := coinbase_tx st; coinbase_txid := coinbase_txid st;
     current_commitment := v; awaiting_update := awaiting_update st;
     job_counter := job_counter st; bits_counter := bits_counter st |}.

Definition set_job_counter (v : Z) (st : TemplateState) : TemplateState :=
  {| height := height st; timestamp := timestamp st; pub_h160 := pub_h160
     st; bits := bits st; target := target st; headerHash := headerHash st;
     version := version st; prevHash := prevHash st; externalTxs :=
     externalTxs st; seedHash := seedHash st; header := header st;
     coinbase_tx := coinbase_tx st; coinbase_txid := coinbase_txid st;
     current_commitment := current_commitment st; awaiting_update :=
     awaiting_update st; job_counter := v; bits_counter := bits_counter st
     |}.

Definition set_bits_counter (v : Z) (st : TemplateState) : TemplateState :=
  {| height := height st; timestamp := timestamp st; pub_h160 := pub_h160
     st; bits := bits st; target := target st; headerHash := headerHash st;
     version := version st; prevHash := prevHash st; externalTxs :=
     externalTxs st; seedHash := seedHash st; header := header st;
     coinbase_tx := coinbase_tx st; coinbase_txid := coinbase_txid st;
     current_commitment := current_commitment st; awaiting_update :=
     awaiting_update st; job_counter := job_counter st; bits_counter := v |}.

Definition set_height (v : Z) (st : TemplateState) : TemplateState :=
  {| height := v; timestamp := timestamp st; pub_h160 := pub_h160 st; bits
     := bits st; target := target st; headerHash := headerHash st; version
     := version st; prevHash := prevHash st; externalTxs := externalTxs st;
     seedHash := seedHash st; header := header st; coinbase_tx :=
     coinbase_tx st; coinbase_txid := coinbase_txid st; current_commitment
     := current_commitment st; awaiting_update := awaiting_update st;
     job_counter := job_counter st; bits_counter := bits_counter st |}.

Definition set_timestamp (v : Z) (st : TemplateState) : TemplateState :=
  {| height := height st; timestamp := v; pub_h160 := pub_h160 st; bits :=
     bits st; target := target st; headerHash := headerHash st; version :=
     version st; prevHash := prevHash st; externalTxs := externalTxs st;
     seedHash := seedHash st; header := header st; coinbase_tx :=
     coinbase_tx st; coinbase_txid := coinbase_txid st; current_commitment
     := current_commitment st; awaiting_update := awaiting_update st;
     job_counter := job_counter st; bits_counter := bits_counter st |}.

(** TemplateState.__repr__: it calls [.hex()] on five attributes and so
    raises [AttributeError] while any of them is still [None].  Only its
    success matters here; the text goes to a log file. *)
Definition repr_ok (st : TemplateState) : bool :=
  match prevHash st, seedHash st, header st, coinbase_tx st, coinbase_txid st with
  | Some _, Some _, Some _, Some _, Some _ => true
  | _, _, _, _, _ => false
  end.

(** TemplateState.build_block(nonce, mixHash) *)
Definition build_block (st : TemplateState) (nonce mixHash : string) : res string :=
  match header st with
  | None => Raise AttributeError
  | Some hdr =>
      rbind (var_int (Z.of_nat (length (externalTxs st)) + 1)) (fun n =>
        match coinbase_tx st with
        | None => Raise AttributeError
        | Some cb =>
            Ok (String.append (hex hdr)
               (String.append nonce
               (String.append mixHash
               (String.append (hex n)
               (String.append (hex cb)
                              (String.concat EmptyString (externalTxs st)))))))
        end)
  end.

(* ===================================================================== *)
(** * The source: history queue                                           *)
(* ===================================================================== *)

(** [historical_states = [list(), dict()]] *)
Record Queue : Type := mkQueue {
  q_ids : list string;
  q_map : gmap string TemplateState
}.

Definition empty_queue : Queue := mkQueue [] ∅.

(** The job id of a counter value: [hex(job_counter)[2:]]. *)
Definition job_id_of (counter : Z) : string := drop_str 2 (hex_int counter).

(** The eviction loop
    [while len(queue[0]) > drop_after: del queue[1][queue[0].pop(0)]].
    It leaves the queue as far as it got, with the exception of
    [pop(0)] on an empty list or of [del] on a missing key, if any. *)
Fixpoint evict (drop_after : Z) (ids : list string) (m : gmap string TemplateState)
  : option exn * Queue :=
  match ids with
  | [] => if drop_after <? 0 then (Some IndexError, mkQueue [] m) else (None, mkQueue [] m)
  | i :: rest =>
      if drop_after <? Z.of_nat (length ids) then
        match m !! i with
        | Some _ => evict drop_after rest (delete i m)
        | None => (Some KeyError, mkQueue rest m)
        end
      else (None, mkQueue ids m)
  end.

(** def add_old_state_to_queue(queue, state, drop_after) *)
Definition add_old_state_to_queue (queue : Queue) (state : TemplateState) (drop_after : Z)
  : option exn * Queue :=
  let id := job_id_of (job_counter state) in
  match q_map queue !! id with
  | Some _ => (None, queue)
  | None => evict drop_after (q_ids queue ++ [id]) (<[id := state]> (q_map queue))
  end.

(** def lookup_old_state(queue, id) *)
Definition lookup_old_state (queue : Queue) (id : string) : option TemplateState :=
  q_map queue !! id.

(* ===================================================================== *)
(** * The source: the proxy's shared objects and a monad over them        *)
(* ===================================================================== *)

(** A session handle; Python compares sessions by identity. *)
Definition session : Type := nat.

(** JSON values the handlers return. *)
#[warnings="-register-all"]
Inductive pyval : Type :=
| PNone
| PBool (b : bool)
| PStr (s : string)
| PList (l : list pyval).

(** Notifications sent to a miner. *)
Inductive notification : Type :=
| mining_set_target (target_hex : string)
| mining_notify (job_id : string) (header_hash : option string) (seed_hex : string)
         (target_hex : string) (clean : bool) (height_int : Z) (bits_hex : string)
| client_show_message (text : string).

(** What the node answers to [submitblock]. *)
Record submit_reply : Type := mkReply {
  reply_error : option (Z * string);
  reply_result : option string
}.

(** Log records, by the call that writes them. *)
Inductive log_entry : Type :=
| log_old_job
| log_old_job_missing
| log_rpc_error (code : Z) (message : string)
| log_submission_failed (verdict : string)
| log_submission_failed_reply (reply : submit_reply)
| log_found_block (text : string)
| log_new_job (diff : option string) (height_int : Z)
| log_critical (e : exn).

(** Everything the two tasks share: the one [TemplateState] instance, the
    class-level session sets, the history queue, and what has been sent
    so far (notifications, blocks posted to the node, log records; the
    newest last). *)
Record World : Type := mkWorld {
  state : TemplateState;
  new_sessions : gset session;
  all_sessions : gset session;
  old_states : Queue;
  outbox : list (session * notification);
  posted : list string;
  logs : list log_entry
}.

Definition initial_world : World :=
  mkWorld initial_state ∅ ∅ empty_queue [] [] [].

Definition with_state (f : TemplateState -> TemplateState) (w : World) : World :=
  mkWorld (f (state w)) (new_sessions w) (all_sessions w) (old_states w)
          (outbox w) (posted w) (logs w).

Definition with_new_sessions (s : gset session) (w : World) : World :=
  mkWorld (state w) s (all_sessions w) (old_states w) (outbox w) (posted w) (logs w).

Definition with_all_sessions (s : gset session) (w : World) : World :=
  mkWorld (state w) (new_sessions w) s (old_states w) (outbox w) (posted w) (logs w).

Definition with_old_states (q : Queue) (w : World) : World :=
  mkWorld (state w) (new_sessions w) (all_sessions w) q (outbox w) (posted w) (logs w).

Definition send (to : session) (n : notification) (w : World) : World :=
  mkWorld (state w) (new_sessions w) (all_sessions w) (old_states w)
          (outbox w ++ [(to, n)]) (posted w) (logs w).

Definition post (block_hex : string) (w : World) : World :=
  mkWorld (state w) (new_sessions w) (all_sessions w) (old_states w)
          (outbox w) (posted w ++ [block_hex]) (logs w).

Definition log (e : log_entry) (w : World) : World :=
  mkWorld (state w) (new_sessions w) (all_sessions w) (old_states w)
          (outbox w) (posted w) (logs w ++ [e]).

(** Computations that read and mutate the shared objects and may raise;
    a raised exception leaves the mutations made so far in place. *)
Definition M (A : Type) : Type := World -> res A * World.

Definition ret {A} (a : A) : M A := fun w => (Ok a, w).
Definition raise {A} (e : exn) : M A := fun w => (Raise e, w).
Definition bind {A B} (c : M A) (k : A -> M B) : M B :=
  fun w => match c w with
           | (Ok a, w') => k a w'
           | (Raise e, w') => (Raise e, w')
           end.
Definition lift {A} (r : res A) : M A := fun w => (r, w).
Definition get : M World := fun w => (Ok w, w).
Definition update (f : World -> World) : M unit := fun w => (Ok tt, f w).
Definition when (b : bool) (c : M unit) : M unit := if b then c else ret tt.

Declare Scope proxy_scope.
Delimit Scope proxy_scope with proxy.
Notation "x <- c ;; k" := (bind c (fun x => k))
  (at level 100, c at next level, right associativity) : proxy_scope.
Notation "c ;;; k" := (bind c (fun _ => k))
  (at level 100, right associativity) : proxy_scope.

(** [for x in xs: body(x)].  Python does not specify the order in which
    a set is iterated; the loops over session sets run in the order of
    stdpp's [elements]. *)
Fixpoint for_each {A} (xs : list A) (body : A -> M unit) : M unit :=
  match xs with
  | [] => ret tt
  | x :: rest => (body x ;;; for_each rest body)%proxy
  end.

(* ===================================================================== *)
(** * The source: StratumSession handlers                                 *)
(* ===================================================================== *)

Section Handlers.

Open Scope proxy_scope.

(** The session the handler runs in, and its configuration. *)
Variable self : session.
Variable testnet : bool.
Variable verbose : bool.

(** async def handle_subscribe(self, *args) *)
Definition handle_subscribe : M pyval :=
  w <- get ;;
  when (negb (bool_decide (self ∈ all_sessions w)))
       (update (with_new_sessions ({[ self ]} ∪ new_sessions w))) ;;;
  update (with_state (fun st => set_bits_counter (bits_counter st + 1) st)) ;;;
  w <- get ;;
  extranonce <- lift (to_bytes_big 2 (bits_counter (state w))) ;;
  ret (PList [PNone; PStr (hex extranonce)]).

(** async def handle_authorize(self, username, password) *)
Definition handle_authorize (username password : string) : M pyval :=
  let address := before_dot username in
  addr_decoded <- lift (Base58.b58decode_check address) ;;
  match addr_decoded with
  | [] => raise IndexError
  | first :: payload =>
      if negb (Z_of_byte first =? (if testnet then 109 else 50)) then
        raise (RPCError 20 (String.append "Invalid address " address))
      else
        w <- get ;;
        when (negb (truthy (pub_h160 (state w))))
             (update (with_state (set_pub_h160 (Some payload)))) ;;;
        ret (PBool true)
  end.

(** The state a submit builds its block from: the live one for the
    current job id, else the snapshot of the history queue, else the
    live one again. *)
Definition submit_state (job_id : string) : M TemplateState :=
  w <- get ;;
  if negb (String.eqb job_id (job_id_of (job_counter (state w)))) then
    when verbose (update (log log_old_job)) ;;;
    match lookup_old_state (old_states w) job_id with
    | Some old_state => ret old_state
    | None => update (log log_old_job_missing) ;;; ret (state w)
    end
  else ret (state w).

(** [bytes.fromhex(prune0x(h))[::-1].hex()] *)
Definition reverse_hex (h : string) : res string :=
  rbind (fromhex (prune0x h)) (fun b => Ok (hex (reversed b))).

Definition known_verdicts : list string :=
  [ "inconclusive"; "duplicate"; "duplicate-inconclusive";
    "inconclusive-not-best-prevblk" ]%string.

(** async def handle_submit(self, worker, job_id, nonce_hex, header_hex,
    mixhash_hex); [reply] is the node's answer to the POST. *)
Definition handle_submit (worker job_id nonce_hex header_hex mixhash_hex : string)
    (reply : submit_reply) : M pyval :=
  st <- submit_state job_id ;;
  nonce_hex <- lift (reverse_hex nonce_hex) ;;
  mixhash_hex <- lift (reverse_hex mixhash_hex) ;;
  block_hex <- lift (build_block st nonce_hex mixhash_hex) ;;
  update (post block_hex) ;;;
  (if repr_ok st then ret tt else raise AttributeError) ;;;
  match reply_error reply with
  | Some (code, message) => update (log (log_rpc_error code message))
  | None => ret tt
  end ;;;
  match reply_result reply with
  | Some result =>
      if bool_decide (result ∈ known_verdicts) then
        when verbose (update (log (log_submission_failed result)))
      else update (log (log_submission_failed_reply reply))
  | None => ret tt
  end ;;;
  height_bytes <- lift (fromhex (slice_str 152 160 block_hex)) ;;
  let msg := String.append "Found block (may or may not be accepted by the chain): "
                           (digits 10 (Z.to_N (from_bytes_little height_bytes))) in
  update (log (log_found_block msg)) ;;;
  update (send self (client_show_message msg)) ;;;
  ret (PBool true).

End Handlers.

(* ===================================================================== *)
(** * The source: the template refresher                                  *)
(* ===================================================================== *)

(** One entry of the node's [transactions] array. *)
Record tx : Type := mkTx {
  tx_data : string;
  tx_txid : string
}.

(** The fields [stateUpdater] reads from the [result] of a
    [getblocktemplate] reply. *)
Record template : Type := mkTemplate {
  version_int : Z;
  height_int : Z;
  bits_hex : string;
  prev_hash_hex : string;
  txs_list : list tx;
  coinbase_sats_int : Z;
  witness_hex : string;
  coinbase_flags_hex : string;
  target_hex : string;
  community_address : string;
  community_sats_int : Z
}.

(** The node's answer to the poll: a reply the [try] block cannot read
    (no JSON, an [error] field, a missing key) or a template. *)
Inductive node_reply : Type :=
| reply_unreadable
| reply_template (t : template).

Definition len (b : bytes) : Z := Z.of_nat (length b).

(** [seed_hash = bytes(32)] followed by
    [for _ in range(height_int // KAWPOW_EPOCH_LENGTH)]: one Keccak-256
    per iteration; [range] of a non-positive number is empty. *)
Definition seed_from_zero (height_int : Z) : bytes :=
  Nat.iter (Z.to_nat (height_int / KAWPOW_EPOCH_LENGTH)) Keccak.keccak_256 (zeros 32).

(** The block between [# Generate seed hash #] and [# Done with seed
    hash #]. *)
Definition generate_seed_hash (height_int : Z) (st : TemplateState) : TemplateState :=
  if (height st =? -1) || (height st <? height_int) then
    match seedHash st with
    | Some ((_ :: _) as seed) =>
        if height st mod KAWPOW_EPOCH_LENGTH =? 0 then
          set_seedHash (Some (Keccak.keccak_256 seed)) st
        else st
    | _ => set_seedHash (Some (seed_from_zero height_int)) st
    end
  else if height_int <? height st then
    if height st mod KAWPOW_EPOCH_LENGTH - (height st - height_int) <? 0 then
      set_seedHash (Some (seed_from_zero height_int)) st
    else st
  else st.

(** The [while True] loop that counts the bytes of the BIP34 height. *)
Fixpoint bytes_needed_loop (fuel : nat) (h : Z) (k : Z) : Z :=
  if h <=? 2 ^ (7 + 8 * k) - 1 then k
  else match fuel with
       | O => k
       | S f => bytes_needed_loop f h (k + 1)
       end.

Definition bytes_needed_sub_1 (h : Z) : Z :=
  bytes_needed_loop (Z.to_nat (Z.log2 h)) h 0.

Definition arbitrary_data : bytes := bytes_of_string "/meowcoin-proxy-stratum/".

Definition attr (o : option bytes) : res bytes :=
  match o with
  | Some b => Ok b
  | None => Raise TypeError
  end.

Notation "x <-- r ; k" := (rbind r (fun x => k))
  (at level 100, r at next level, right associativity, only parsing).

(** [# Generate coinbase #]: the transaction with its witness and the
    serialization without it, whose double hash is the txid.  The source
    spells the second serialization out again after assigning the first;
    it repeats conversions that have just succeeded. *)
Definition generate_coinbase (st : TemplateState) (t : template) : res (bytes * bytes) :=
  bip34_height <-- to_bytes_little (Z.to_nat (bytes_needed_sub_1 (height st) + 1)) (height st) ;
  push_height <-- op_push (len bip34_height) ;
  push_data <-- op_push (len arbitrary_data) ;
  let coinbase_script := push_height ++ bip34_height ++ push_data ++ arbitrary_data in
  script_len <-- var_int (len coinbase_script) ;
  let coinbase_txin :=
    zeros 32 ++ repeat xff 4 ++ script_len ++ coinbase_script ++ repeat xff 4 in
  pub <-- attr (pub_h160 st) ;
  let vout_to_miner := [x76; xa9; x14] ++ pub ++ [x88; xac] in
  community <-- Base58.b58decode_check (community_address t) ;
  let vout_to_community := [x76; xa9; x14] ++ List.tl community ++ [x88; xac] in
  witness_vout <-- fromhex (witness_hex t) ;
  one <-- to_bytes_little 4 1 ;
  sats <-- to_bytes_little 8 (coinbase_sats_int t) ;
  push_miner <-- op_push (len vout_to_miner) ;
  community_sats <-- to_bytes_little 8 (community_sats_int t) ;
  push_community <-- op_push (len vout_to_community) ;
  push_witness <-- op_push (len witness_vout) ;
  let outputs :=
    sats ++ push_miner ++ vout_to_miner ++
    community_sats ++ push_community ++ vout_to_community ++
    zeros 8 ++ push_witness ++ witness_vout in
  Ok (one ++ [x00; x01] ++ [x01] ++ coinbase_txin ++ [x03] ++ outputs ++
        [x01; x20] ++ zeros 32 ++ zeros 4,
      one ++ [x01] ++ coinbase_txin ++ [x03] ++ outputs ++ zeros 4).

(** [# Create merkle & update txs #]: the loop over [txs_list]. *)
Fixpoint collect_txs (txs : list tx) : res (list string * list bytes) :=
  match txs with
  | [] => Ok ([], [])
  | t :: rest =>
      txid <-- fromhex (tx_txid t) ;
      r <-- collect_txs rest ;
      Ok (tx_data t :: fst r, reversed txid :: snd r)
  end.

(** The header expression. *)
Definition make_header (st : TemplateState) (t : template) (merkle : bytes) (ts : Z)
  : res bytes :=
  v <-- to_bytes_little 4 (version_int t) ;
  prev <-- attr (prevHash st) ;
  time4 <-- to_bytes_little 4 ts ;
  bits4 <-- fromhex (bits_hex t) ;
  height4 <-- to_bytes_little 4 (height st) ;
  Ok (v ++ prev ++ merkle ++ time4 ++ reversed bits4 ++ height4).

Section Refresher.

Open Scope proxy_scope.

(** [verbose] only switches informational log lines, which are left
    out; [SHOW_JOBS] guards a call that can raise. *)
Variable drop_after : Z.
Variable SHOW_JOBS : bool.

(** The two notifications every session gets for a job; the arguments
    of [mining.notify] are evaluated after [mining.set_target] is sent. *)
Definition send_job (t : template) (to : session) : M unit :=
  update (send to (mining_set_target (target_hex t))) ;;;
  w <- get ;;
  seed <- lift (match seedHash (state w) with
                | Some s => Ok s
                | None => Raise AttributeError
                end) ;;
  update (send to (mining_notify (job_id_of (job_counter (state w)))
                                 (headerHash (state w)) (hex seed) (target_hex t)
                                 true (height (state w)) (bits_hex t))).

(** The call [add_old_state_to_queue(old_states, original_state,
    drop_after)] on the shared queue. *)
Definition push_old_state (original_state : TemplateState) : M unit :=
  fun w => match add_old_state_to_queue (old_states w) original_state drop_after with
           | (None, q) => (Ok tt, with_old_states q w)
           | (Some e, q) => (Raise e, with_old_states q w)
           end.

(** The branch taken on a new block; it returns the snapshot made
    before the seed hash and the height change. *)
Definition new_block_update (t : template) : M (option TemplateState) :=
  w <- get ;;
  if (height (state w) =? -1) || negb (height (state w) =? height_int t) then
    update (with_state (generate_seed_hash (height_int t))) ;;;
    update (with_state (set_height (height_int t))) ;;;
    ret (Some (state w))
  else ret None.

(** The rebuild of coinbase, Merkle root and header, and the broadcast
    of the new job.  [ts] is [int(time.time())]. *)
Definition rebuild (t : template) (ts : Z) (original_state : option TemplateState) : M unit :=
  w <- get ;;
  let original_state :=
    match original_state with
    | Some s => s
    | None => state w
    end in
  cb <- lift (generate_coinbase (state w) t) ;;
  update (with_state (set_coinbase_tx (Some (fst cb)))) ;;;
  update (with_state (set_coinbase_txid (Some (dsha256 (snd cb))))) ;;;
  txs <- lift (collect_txs (txs_list t)) ;;
  update (with_state (set_externalTxs (fst txs))) ;;;
  merkle <- lift (merkle_from_txids (dsha256 (snd cb) :: snd txs)) ;;
  w <- get ;;
  hdr <- lift (make_header (state w) t merkle ts) ;;
  update (with_state (set_header (Some hdr))) ;;;
  update (with_state (set_headerHash (Some (hex (reversed (dsha256 hdr)))))) ;;;
  update (with_state (set_timestamp ts)) ;;;
  update (with_state (fun st => set_job_counter (job_counter st + 1) st)) ;;;
  push_old_state original_state ;;;
  when SHOW_JOBS
       (diff <- lift (formatDiff (target_hex t)) ;;
        w <- get ;;
        update (log (log_new_job diff (height (state w))))) ;;;
  w <- get ;;
  for_each (elements (all_sessions w)) (send_job t).

(** The start of the [try] block: [new_witness] is computed, then the
    commitment, target, bits, version and previous hash of the template
    are assigned. *)
Definition read_template (t : template) : M bool :=
  w <- get ;;
  let new_witness :=
    negb (bool_decide (Some (witness_hex t) = current_commitment (state w))) in
  update (with_state (set_current_commitment (Some (witness_hex t)))) ;;;
  update (with_state (set_target (Some (target_hex t)))) ;;;
  update (with_state (set_bits (Some (bits_hex t)))) ;;;
  update (with_state (set_version (version_int t))) ;;;
  prev <- lift (fromhex (prev_hash_hex t)) ;;
  update (with_state (set_prevHash (Some (reversed prev)))) ;;;
  ret new_witness.

(** The end of the [try] block: the sessions that subscribed since the
    last tick join [all_sessions] and get the current job. *)
Definition welcome_new_sessions (t : template) : M unit :=
  w <- get ;;
  for_each (elements (new_sessions w))
           (fun s => update (fun w => with_all_sessions ({[ s ]} ∪ all_sessions w) w) ;;;
                     send_job t s) ;;;
  update (with_new_sessions ∅).

(** The body of the [try] block, for a template the node returned. *)
Definition refresh (t : template) (ts : Z) : M unit :=
  new_witness <- read_template t ;;
  original_state <- new_block_update t ;;
  w <- get ;;
  when (bool_decide (is_Some original_state) || new_witness
        || (timestamp (state w) + 60 <? ts))
       (rebuild t ts original_state) ;;;
  welcome_new_sessions t.

(** async def stateUpdater(state, old_states, drop_after, verbose,
    node_url): one tick.  Every exception of the [try] block is caught,
    logged, and followed by a sleep of 300 seconds.  (The POST itself is
    outside the [try]; a node that cannot be reached at all ends the
    task and is not an input of this function.) *)
Definition stateUpdater (reply : node_reply) (ts : Z) : World -> World :=
  fun w =>
    if negb (truthy (pub_h160 (state w))) then w
    else
      let body := match reply with
                  | reply_unreadable => raise NodeError
                  | reply_template t => refresh t ts
                  end in
      match body w with
      | (Ok _, w') => w'
      | (Raise e, w') => log (log_critical e) w'
      end.

End Refresher.

(* ===================================================================== *)
(** * The specification's Merkle fold                                     *)
(* ===================================================================== *)

(** These definitions follow the words of the specification, not the
    source: "If empty, return dsha256 of the empty string.  If one
    element, return it.  Otherwise, repeatedly: if odd count, append a
    copy of the last element; pair adjacent elements and replace each
    pair with dsha256(left‖right); repeat until one element remains". *)
Module MerkleSpec.

Definition duplicate_last_if_odd (ids : list bytes) : list bytes :=
  if Nat.odd (length ids) then ids ++ [List.last ids []] else ids.

(** Entry [i] of the next level hashes entries [2i] and [2i+1]. *)
Definition pair_adjacent (ids : list bytes) : list bytes :=
  map (fun i => dsha256 (nth (2 * i) ids [] ++ nth (2 * i + 1) ids []))
      (seq 0 (Nat.div2 (length ids))).

(** The fold, with the root of the empty sequence as a parameter. *)
Equations? fold_from (empty_root : bytes) (ids : list bytes) : bytes
  by wf (length ids) lt :=
  fold_from empty_root [] := empty_root;
  fold_from empty_root [x] := x;
  fold_from empty_root (x :: y :: rest) :=
    fold_from empty_root (pair_adjacent (duplicate_last_if_odd (x :: y :: rest))).
Proof.
  unfold pair_adjacent. rewrite length_map, length_seq.
  unfold duplicate_last_if_odd.
  assert (Hhalf : forall n : nat, (2 * Nat.div2 n <= n)%nat).
  { intros n. induction n as [n IH] using lt_wf_ind.
    destruct n as [|[|n]]; simpl; try lia. specialize (IH n). lia. }
  destruct (Nat.odd _).
  - specialize (Hhalf (length ((x :: y :: rest) ++ [List.last (x :: y :: rest) []]))).
    rewrite length_app in *. simpl length in *. lia.
  - specialize (Hhalf (length (x :: y :: rest))). simpl length in *. lia.
Qed.

Definition merkle_fold (ids : list bytes) : bytes := fold_from (dsha256 []) ids.

End MerkleSpec.

(* ===================================================================== *)
(** * Runs of the proxy                                                   *)
(* ===================================================================== *)

(** The event loop runs one handler or one refresher tick at a time; a
    run is the sequence of these events.  (A handler that awaits the
    node is taken as one step.) *)
Inductive event : Type :=
| ev_subscribe (self : session)
| ev_authorize (self : session) (username password : string)
| ev_submit (self : session)
            (worker job_id nonce_hex header_hex mixhash_hex : string)
            (reply : submit_reply)
| ev_tick (reply : node_reply) (ts : Z).

(** The command-line settings [main] passes down. *)
Record config : Type := mkConfig {
  cfg_testnet : bool;
  cfg_verbose : bool;
  cfg_show_jobs : bool;
  cfg_drop_after : Z
}.

(** [store = 20] in [main]. *)
Definition store : Z := 20.

(** One event: what the miner is answered, if the event is a request,
    and the shared objects afterwards. *)
Definition step (cfg : config) (e : event) (w : World) : option (res pyval) * World :=
  match e with
  | ev_subscribe self =>
      let r := handle_subscribe self w in (Some (fst r), snd r)
  | ev_authorize self username password =>
      let r := handle_authorize (cfg_testnet cfg) username password w in
      (Some (fst r), snd r)
  | ev_submit self worker job_id nonce_hex header_hex mixhash_hex reply =>
      let r := handle_submit self (cfg_verbose cfg) worker job_id nonce_hex
                             header_hex mixhash_hex reply w in
      (Some (fst r), snd r)
  | ev_tick reply ts =>
      (None, stateUpdater (cfg_drop_after cfg) (cfg_show_jobs cfg) reply ts w)
  end.

Fixpoint run (cfg : config) (events : list event) (w : World) : World :=
  match events with
  | [] => w
  | e :: rest => run cfg rest (snd (step cfg e w))
  end.

(** The answers to the [mining.subscribe] requests of a run, in order. *)
Fixpoint subscribe_replies (cfg : config) (events : list event) (w : World)
  : list (res pyval) :=
  match events with
  | [] => []
  | e :: rest =>
      let r := step cfg e w in
      match e, fst r with
      | ev_subscribe _, Some reply => reply :: subscribe_replies cfg rest (snd r)
      | _, _ => subscribe_replies cfg rest (snd r)
      end
  end.

Definition is_subscribe (e : event) : bool :=
  match e with
  | ev_subscribe _ => true
  | _ => false
  end.

(** What [handle_subscribe] answers for a counter value that fits two
    bytes. *)
Definition extranonce_reply (counter : Z) : res pyval :=
  Ok (PList [PNone; PStr (hex (rev (le_bytes 2 counter)))]).

(** A history queue as the refresher builds it: the ids are distinct and
    are exactly the keys of the snapshot map. *)
Definition queue_wf (q : Queue) : Prop :=
  NoDup (q_ids q) /\ dom (q_map q) = list_to_set (q_ids q).

(** A computation keeps an observation [f] of the shared objects when it
    leaves [f] as it found it, whether it returns or raises. *)
Definition keeps {A B : Type} (f : World -> B) (c : M A) : Prop :=
  forall w, f (snd (c w)) = f w.

(** A computation preserves a property [P] of the shared objects when
    [P] survives it, whether it returns or raises. *)
Definition preserves {A : Type} (P : World -> Prop) (c : M A) : Prop :=
  forall w, P w -> P (snd (c w)).

(** The history queue of the shared objects is well formed and within
    its capacity. *)
Definition queue_ok (drop_after : Z) (w : World) : Prop :=
  queue_wf (old_states w) /\
  Z.of_nat (length (q_ids (old_states w))) <= drop_after.

(** Two hexadecimal digits back to their byte. *)
Definition unhex2 (d1 d2 : ascii) : option byte :=
  match hex_value d1, hex_value d2 with
  | Some hi, Some lo => Some (byte_of_N (16 * hi + lo))
  | _, _ => None
  end.

(** The number of [mining.subscribe] requests in a run. *)
Definition count_subscribes (events : list event) : Z :=
  Z.of_nat (length (filter (fun e => is_subscribe e = true) events)).

(** A template as a node returns it, at a given height, and the shared
    objects of a proxy whose miner has authorized and whose state stands
    at a given height with a given seed hash; the examples run on them. *)
Definition sample_template (h : Z) : template :=
  {| version_int := 805306368;
     height_int := h;
     bits_hex := "1b00ffff";
     prev_hash_hex := "00000000000000000000000000000000000000000000000000000000000000aa";
     txs_list :=
       [ mkTx "0100" "00000000000000000000000000000000000000000000000000000000000000bb" ];
     coinbase_sats_int := 500000000000;
     witness_hex :=
       "6a24aa21a9ede2f61c3f71d1defd3fa999dfa36953755c690689799962b48bebd836974e8cf9";
     coinbase_flags_hex := EmptyString;
     target_hex := "00000000ffff0000000000000000000000000000000000000000000000000000";
     community_address := "12ZEw5Hcv1hTb6YUQJ69y1V7uhcoDz92PH";
     community_sats_int := 10000 |}.

Definition authorized_world (h : Z) (seed : option bytes) : World :=
  with_state (fun st => set_seedHash seed (set_height h
                          (set_pub_h160 (Some (repeat x11 20)) st)))
             initial_world.

(** ** Observations and invariants of the further properties *)

(** A computation moves an observation [f] of the shared objects along a
    relation [R] when what it leaves is related to what it found, whether
    it returns or raises. *)
Definition moves {A B : Type} (f : World -> B) (R : B -> B -> Prop) (c : M A) : Prop :=
  forall w, R (f w) (f (snd (c w))).

(** What a job is known by: the counter its id is printed from, the
    header and the header hash. *)
Definition job_view (w : World) : Z * option bytes * option string :=
  (job_counter (state w), header (state w), headerHash (state w)).

(** Either nothing of a job view changes, or the counter goes up by one
    and a header is assigned together with its hash. *)
Definition job_step (x y : Z * option bytes * option string) : Prop :=
  y = x \/
  (fst (fst y) = fst (fst x) + 1 /\
   exists hdr, snd (fst y) = Some hdr /\ snd y = Some (hex (reversed (dsha256 hdr)))).

(** What [build_block] reads of a state. *)
Definition block_view (st : TemplateState) : option bytes * option bytes * list string :=
  (header st, coinbase_tx st, externalTxs st).

(** Every id of the history queue is the job id of a counter value the
    live state has left behind. *)
Definition queue_ids_issued (w : World) : Prop :=
  forall id, id ∈ q_ids (old_states w) ->
    exists c, 0 <= c < job_counter (state w) /\ id = job_id_of c.

(** The seed hash of a state is absent, and then no template has been
    taken yet, or it is some number of Keccak-256 applications on 32 zero
    bytes. *)
Definition seed_inv (st : TemplateState) : Prop :=
  (seedHash st = None /\ height st = -1) \/
  (exists n, seedHash st = Some (Nat.iter n Keccak.keccak_256 (zeros 32))).

(** Every [mining.notify] sent directly follows a [mining.set_target]
    sent to the same session with the same target. *)
Definition jobs_in_order (out : list (session * notification)) : Prop :=
  forall i s job hh seed tgt clean h bits,
    out !! i = Some (s, mining_notify job hh seed tgt clean h bits) ->
    exists j, i = S j /\ out !! j = Some (s, mining_set_target tgt).

(** The [mining.notify] a session is sent for the job of a state: the
    job id, the header hash, the seed hash, the target, [True], the
    height and the bits. *)
Definition job_notification (t : template) (st : TemplateState) (seed : bytes)
  : notification :=
  mining_notify (job_id_of (job_counter st)) (headerHash st) (hex seed) (target_hex t)
                true (height st) (bits_hex t).

(** [nowit] is the serialization of the transaction [full] without its
    segregated-witness parts: the marker and flag bytes after the version
    and the witness stack (one item of 32 zero bytes) before the lock
    time. *)
Definition witness_stripped (full nowit : bytes) : Prop :=
  exists body,
    full = le_bytes 4 1 ++ [x00; x01] ++ body ++ [x01; x20] ++ zeros 32 ++ zeros 4 /\
    nowit = le_bytes 4 1 ++ body ++ zeros 4.

(** The coinbase a state holds and its txid: both absent, or the txid is
    the double SHA-256 of the coinbase without its witness parts. *)
Definition coinbase_ok (x : option bytes * option bytes) : Prop :=
  x = (None, None) \/
  exists full nowit,
    x = (Some full, Some (dsha256 nowit)) /\ witness_stripped full nowit.

(* ===================================================================== *)
(** * Theorems                                                            *)
(* ===================================================================== *)

(** ** Hashes have 32 bytes *)

Lemma sha256_length (m : bytes) : length (SHA256.sha256 m) = 32%nat.
Proof. unfold SHA256.sha256, SHA256.digest_of. rewrite !length_app. reflexivity. Qed.

Lemma dsha256_length (m : bytes) : length (dsha256 m) = 32%nat.
Proof. apply sha256_length. Qed.

(** ** merkle_from_txids *)

Section Merkle.

Local Open Scope nat_scope.

(** Induction on lists, two elements at a time. *)
Lemma list_pair_ind (A : Type) (P : list A -> Prop) :
  P [] -> (forall a, P [a]) -> (forall a b l, P l -> P (a :: b :: l)) ->
  forall l, P l.
Proof.
  intros Hnil Hone Hstep.
  fix IH 1. intros [|a [|b l]]; [exact Hnil | exact (Hone a) |].
  apply Hstep, IH.
Qed.

Lemma hash_pairs_length (txids : list bytes) :
  length (hash_pairs txids) = Nat.div2 (length txids).
Proof.
  induction txids as [|a|a b l IH] using list_pair_ind; simpl; congruence.
Qed.

(** The comprehension hashes entries [2i] and [2i+1]. *)
Lemma hash_pairs_pair_adjacent (txids : list bytes) :
  hash_pairs txids = MerkleSpec.pair_adjacent txids.
Proof.
  unfold MerkleSpec.pair_adjacent.
  induction txids as [|a|a b l IH] using list_pair_ind; try reflexivity.
  cbn [hash_pairs length Nat.div2 seq map]. f_equal.
  rewrite IH, <- seq_shift, map_map. apply map_ext. intros i.
  replace (2 * S i) with (S (S (2 * i))) by lia.
  replace (2 * S i + 1) with (S (S (2 * i + 1))) by lia. reflexivity.
Qed.

(** The copy the source appends to a list of even length finds no
    partner and is dropped by [zip]. *)
Lemma hash_pairs_app_even (txids : list bytes) (x : bytes) :
  Nat.even (length txids) = true -> hash_pairs (txids ++ [x]) = hash_pairs txids.
Proof.
  induction txids as [|a|a b l IH] using list_pair_ind; simpl; intros H;
    try reflexivity; try discriminate.
  f_equal. auto.
Qed.

Lemma hash_pairs_append_last (txids : list bytes) :
  hash_pairs (txids ++ [last_txid txids]) =
  MerkleSpec.pair_adjacent (MerkleSpec.duplicate_last_if_odd txids).
Proof.
  unfold MerkleSpec.duplicate_last_if_odd, last_txid.
  rewrite <- hash_pairs_pair_adjacent.
  destruct (Nat.odd (length txids)) eqn:Hodd; [reflexivity |].
  apply hash_pairs_app_even. rewrite <- Nat.negb_odd, Hodd. reflexivity.
Qed.

(** The loop ends with exactly one element, the specification's root. *)
Lemma merkle_while_fold (e : bytes) (txids : list bytes) :
  txids <> [] -> merkle_while txids = [MerkleSpec.fold_from e txids].
Proof.
  funelim (merkle_while txids); intros Hne.
  - destruct txids as [|a [|b rest]]; simpl in *; try congruence; try lia.
    now simp fold_from.
  - rewrite (H e).
    + rewrite hash_pairs_append_last.
      destruct txids as [|a [|b rest]]; simpl in *; try lia.
      now simp fold_from.
    + intros Hnil. apply (f_equal (@length bytes)) in Hnil.
      rewrite hash_pairs_length, length_app in Hnil.
      destruct txids as [|a [|b rest]]; simpl in *; try lia.
      rewrite Nat.add_1_r in Hnil. simpl in Hnil. discriminate.
Qed.

Lemma fold_from_length (e : bytes) (txids : list bytes) :
  2 <= length txids -> length (MerkleSpec.fold_from e txids) = 32.
Proof.
  funelim (MerkleSpec.fold_from e txids); simpl; intros Hlen; try lia.
  remember (MerkleSpec.pair_adjacent _) as level eqn:Hlevel.
  destruct level as [|a [|b level]].
  - apply (f_equal (@length bytes)) in Hlevel.
    unfold MerkleSpec.pair_adjacent, MerkleSpec.duplicate_last_if_odd in Hlevel.
    rewrite length_map, length_seq in Hlevel.
    destruct (Nat.odd _); [rewrite length_app in Hlevel |]; simpl in Hlevel;
      discriminate.
  - simp fold_from.
    assert (Hin : In a (MerkleSpec.pair_adjacent
                          (MerkleSpec.duplicate_last_if_odd (x :: y :: rest))))
      by (rewrite <- Hlevel; left; reflexivity).
    unfold MerkleSpec.pair_adjacent in Hin. apply in_map_iff in Hin.
    destruct Hin as [i [Hi _]]. rewrite <- Hi. apply dsha256_length.
  - apply H. simpl. lia.
Qed.

End Merkle.

(** C3: [merkle_from_txids] returns [dsha256(b'')] for the empty list,
    the sole element of a singleton, and for every list the root of the
    specification's fold (duplicate the last element of an odd level,
    hash adjacent pairs, repeat until one element remains); for two or
    more ids that root has 32 bytes. *)
Theorem merkle_from_txids_fold :
  merkle_from_txids [] = Ok (dsha256 []) /\
  (forall x, merkle_from_txids [x] = Ok x) /\
  (forall txids, merkle_from_txids txids = Ok (MerkleSpec.merkle_fold txids)) /\
  (forall txids, (2 <= length txids)%nat ->
     exists root, merkle_from_txids txids = Ok root /\ length root = 32%nat).
Proof.
  assert (Hfold : forall txids,
             merkle_from_txids txids = Ok (MerkleSpec.merkle_fold txids)).
  { unfold MerkleSpec.merkle_fold.
    intros [|a [|b rest]]; try (cbn [merkle_from_txids]; now simp fold_from).
    unfold merkle_from_txids.
    now rewrite (merkle_while_fold (dsha256 [])). }
  repeat split; try reflexivity; [exact Hfold |].
  intros txids Hlen. exists (MerkleSpec.merkle_fold txids).
  split; [apply Hfold | now apply fold_from_length].
Qed.

Lemma merkle_from_txids_fold_witness :
  exists root,
    merkle_from_txids [zeros 32; zeros 32; zeros 32] = Ok root /\ length root = 32%nat.
Proof.
  apply (proj2 (proj2 (proj2 merkle_from_txids_fold))). simpl. lia.
Defined.

(** ** The monad: what a computation keeps *)

Section Keeps.

Context {B : Type} (f : World -> B).

Lemma keeps_ret {A} (a : A) : keeps f (ret a).
Proof. intros w. reflexivity. Qed.

Lemma keeps_raise {A} (e : exn) : keeps f (@raise A e).
Proof. intros w. reflexivity. Qed.

Lemma keeps_lift {A} (r : res A) : keeps f (lift r).
Proof. intros w. reflexivity. Qed.

Lemma keeps_get : keeps f get.
Proof. intros w. reflexivity. Qed.

Lemma keeps_update (g : World -> World) :
  (forall w, f (g w) = f w) -> keeps f (update g).
Proof. intros H w. apply H. Qed.

Lemma keeps_bind {A C} (c : M A) (k : A -> M C) :
  keeps f c -> (forall a, keeps f (k a)) -> keeps f (bind c k).
Proof.
  intros Hc Hk w. unfold bind. specialize (Hc w).
  destruct (c w) as [[a|e] w']; simpl in *; [rewrite Hk|]; exact Hc.
Qed.

Lemma keeps_when (b : bool) (c : M unit) : keeps f c -> keeps f (when b c).
Proof. destruct b; [trivial | intros _; apply keeps_ret]. Qed.

Lemma keeps_for_each {A} (xs : list A) (body : A -> M unit) :
  (forall x, keeps f (body x)) -> keeps f (for_each xs body).
Proof.
  intros H. induction xs as [|x xs IH]; simpl.
  - apply keeps_ret.
  - apply keeps_bind; auto.
Qed.

End Keeps.

Create HintDb keeps.
#[export] Hint Resolve keeps_ret keeps_raise keeps_lift keeps_get keeps_bind
  keeps_when keeps_for_each keeps_update : keeps.

(** Destructs the scrutinees a computation branches on until the hint
    database closes every branch. *)
Ltac keeps_tac :=
  repeat first
    [ progress intros
    | apply keeps_bind
    | apply keeps_when
    | apply keeps_for_each
    | apply keeps_update; reflexivity
    | apply keeps_ret
    | apply keeps_raise
    | apply keeps_lift
    | apply keeps_get
    | match goal with
      | |- keeps _ (match ?x with _ => _ end) => destruct x
      | |- keeps _ (if ?x then _ else _) => destruct x
      end ].

(** ** Bytes and hexadecimal text *)

Lemma Z_of_byte_of_N (n : N) : Z_of_byte (byte_of_N n) = Z.of_N (n mod 256).
Proof.
  unfold Z_of_byte, byte_of_N.
  pose proof (Byte.to_of_N_option_map (n mod 256)) as H.
  assert (Hlt : (n mod 256 < 256)%N) by (apply N.mod_lt; discriminate).
  destruct (Byte.of_N (n mod 256)) as [b|]; simpl in H.
  - destruct (N.leb_spec (n mod 256) 255); [congruence | lia].
  - destruct (N.leb_spec (n mod 256) 255); [discriminate | lia].
Qed.

Lemma Z_of_byte_of_Z (z : Z) : Z_of_byte (byte_of_Z z) = z mod 256.
Proof.
  unfold byte_of_Z. rewrite Z_of_byte_of_N.
  assert (0 <= z mod 256 < 256) by (apply Z.mod_pos_bound; lia).
  rewrite N.mod_small by lia. lia.
Qed.

Lemma length_le_bytes (n : nat) (z : Z) : length (le_bytes n z) = n.
Proof. revert z. induction n; intros z; simpl; auto. Qed.

Lemma from_bytes_le_bytes (n : nat) (z : Z) :
  from_bytes_little (le_bytes n z) = z mod 256 ^ Z.of_nat n.
Proof.
  revert z. induction n as [|n IH]; intros z.
  - simpl. now rewrite Z.mod_1_r.
  - cbn [le_bytes from_bytes_little]. rewrite IH, Z_of_byte_of_Z.
    rewrite Nat2Z.inj_succ, Z.pow_succ_r by lia.
    rewrite Z.rem_mul_r by lia. lia.
Qed.

Lemma unhex2_hex_digits (x : byte) :
  unhex2 (hex_digit (Byte.to_N x / 16)) (hex_digit (Byte.to_N x mod 16)) = Some x.
Proof. destruct x; reflexivity. Qed.

Lemma hex_inj (a b : bytes) : hex a = hex b -> a = b.
Proof.
  revert b. induction a as [|x a IH]; intros [|y b] H; simpl in H;
    try discriminate; [reflexivity |].
  injection H as H1 H2 H3.
  pose proof (unhex2_hex_digits x) as Hx. pose proof (unhex2_hex_digits y) as Hy.
  rewrite H1, H2, Hy in Hx. injection Hx as ->. f_equal. now apply IH.
Qed.

Lemma extranonce_reply_inj (a b : Z) :
  0 <= a < 65536 -> 0 <= b < 65536 ->
  extranonce_reply a = extranonce_reply b -> a = b.
Proof.
  intros Ha Hb H. unfold extranonce_reply in H.
  assert (H' : hex (rev (le_bytes 2 a)) = hex (rev (le_bytes 2 b))).
  { remember (hex (rev (le_bytes 2 a))) as s1.
    remember (hex (rev (le_bytes 2 b))) as s2. congruence. }
  clear H. rename H' into H.
  apply hex_inj, (f_equal (@rev byte)) in H. rewrite !rev_involutive in H.
  apply (f_equal from_bytes_little) in H. rewrite !from_bytes_le_bytes in H.
  change (256 ^ Z.of_nat 2) with 65536 in H.
  rewrite !Z.mod_small in H; lia.
Qed.

(** ** What the handlers and the refresher leave alone *)

Lemma handle_subscribe_eq (self : session) (w : World) :
  handle_subscribe self w =
  let w1 := if bool_decide (self ∈ all_sessions w) then w
            else with_new_sessions ({[ self ]} ∪ new_sessions w) w in
  (rbind (to_bytes_big 2 (bits_counter (state w) + 1))
         (fun b => Ok (PList [PNone; PStr (hex b)])),
   with_state (fun st => set_bits_counter (bits_counter st + 1) st) w1).
Proof.
  unfold handle_subscribe, bind, get, when, update, lift, ret.
  destruct (bool_decide (self ∈ all_sessions w)); simpl;
    destruct (to_bytes_big 2 (bits_counter (state w) + 1)); reflexivity.
Qed.

Lemma to_bytes_big_two (c : Z) :
  to_bytes_big 2 c =
  if (c <? 0) || (65536 <=? c) then Raise OverflowError else Ok (rev (le_bytes 2 c)).
Proof. reflexivity. Qed.

Lemma handle_subscribe_keeps_pub (self : session) :
  keeps (fun w => pub_h160 (state w)) (handle_subscribe self).
Proof.
  intros w. rewrite handle_subscribe_eq. simpl.
  destruct (bool_decide _); reflexivity.
Qed.

Lemma handle_authorize_keeps_bits_counter (testnet : bool) (username password : string) :
  keeps (fun w => bits_counter (state w)) (handle_authorize testnet username password).
Proof. unfold handle_authorize. keeps_tac. Qed.

Lemma handle_submit_keeps_state (self : session) (verbose : bool)
    (worker job_id nonce_hex header_hex mixhash_hex : string) (reply : submit_reply) :
  keeps state (handle_submit self verbose worker job_id nonce_hex header_hex
                             mixhash_hex reply).
Proof. unfold handle_submit, submit_state. keeps_tac. Qed.

Lemma push_old_state_keeps_state (drop_after : Z) (original : TemplateState) :
  keeps state (push_old_state drop_after original).
Proof.
  intros w. unfold push_old_state.
  destruct (add_old_state_to_queue _ _ _) as [[e|] q]; reflexivity.
Qed.

Lemma keeps_compose {A B C} (f : World -> B) (g : B -> C) (c : M A) :
  keeps f c -> keeps (fun w => g (f w)) c.
Proof. intros H w. now rewrite H. Qed.

(** The seed-hash block assigns [seedHash] and nothing else. *)
Lemma generate_seed_hash_cases (h : Z) (st : TemplateState) :
  exists s, generate_seed_hash h st = set_seedHash s st.
Proof.
  assert (Hid : st = set_seedHash (seedHash st) st) by (destruct st; reflexivity).
  unfold generate_seed_hash.
  repeat match goal with
         | |- context [if ?b then _ else _] => destruct b
         | |- context [match ?x with _ => _ end] => destruct x eqn:?
         end; eauto.
Qed.

Ltac keeps_refresh g :=
  keeps_tac;
  [ apply keeps_update; intros w; simpl;
    match goal with
    | |- context [generate_seed_hash ?h ?st] =>
        destruct (generate_seed_hash_cases h st) as [? ->]; reflexivity
    end
  | apply (keeps_compose state g), push_old_state_keeps_state ].

(** A tick never touches the miner's hash-160 nor the subscribe counter. *)
Lemma refresh_keeps_pub (drop_after : Z) (show_jobs : bool) (t : template) (ts : Z) :
  keeps (fun w => pub_h160 (state w)) (refresh drop_after show_jobs t ts).
Proof.
  unfold refresh, read_template, welcome_new_sessions, rebuild, new_block_update,
    send_job. keeps_refresh pub_h160.
Qed.

Lemma refresh_keeps_bits_counter (drop_after : Z) (show_jobs : bool) (t : template) (ts : Z) :
  keeps (fun w => bits_counter (state w)) (refresh drop_after show_jobs t ts).
Proof.
  unfold refresh, read_template, welcome_new_sessions, rebuild, new_block_update,
    send_job. keeps_refresh bits_counter.
Qed.

Lemma stateUpdater_keeps {B} (f : World -> B) (drop_after : Z) (show_jobs : bool)
    (reply : node_reply) (ts : Z) (w : World) :
  (forall t, keeps f (refresh drop_after show_jobs t ts)) ->
  (forall e w', f (log e w') = f w') ->
  f (stateUpdater drop_after show_jobs reply ts w) = f w.
Proof.
  intros Hrefresh Hlog. unfold stateUpdater.
  destruct (negb (truthy (pub_h160 (state w)))); [reflexivity |].
  destruct reply as [|t].
  - simpl. apply Hlog.
  - specialize (Hrefresh t w).
    destruct (refresh drop_after show_jobs t ts w) as [[u|e] w']; simpl in *;
      [| rewrite Hlog]; exact Hrefresh.
Qed.

(** ** mining.subscribe *)

(** C10: [handle_subscribe] encodes the incremented counter on exactly
    two big-endian bytes.  From 65535 on the encoding raises
    [OverflowError] and no extranonce is returned; while the counter
    (never negative, it starts at 0 and is only incremented) is below
    65535 the encoding succeeds with two bytes; so a subscribe that
    succeeds started below 65535. *)
Theorem subscribe_two_byte_limit (self : session) (w : World) :
  (65535 <= bits_counter (state w) ->
   fst (handle_subscribe self w) = Raise OverflowError) /\
  (0 <= bits_counter (state w) -> bits_counter (state w) + 1 <= 65535 ->
   exists b, to_bytes_big 2 (bits_counter (state w) + 1) = Ok b /\
             length b = 2%nat /\
             fst (handle_subscribe self w) = Ok (PList [PNone; PStr (hex b)])) /\
  (is_ok (fst (handle_subscribe self w)) = true -> bits_counter (state w) < 65535).
Proof.
  rewrite handle_subscribe_eq. cbn [fst]. rewrite to_bytes_big_two.
  repeat split.
  - intros H.
    destruct (Z.ltb_spec (bits_counter (state w) + 1) 0),
             (Z.leb_spec 65536 (bits_counter (state w) + 1)); try reflexivity; lia.
  - intros H0 H1. exists (rev (le_bytes 2 (bits_counter (state w) + 1))).
    destruct (Z.ltb_spec (bits_counter (state w) + 1) 0),
             (Z.leb_spec 65536 (bits_counter (state w) + 1)); try lia.
    repeat split; rewrite ?length_rev, ?length_le_bytes; reflexivity.
  - destruct (Z.ltb_spec (bits_counter (state w) + 1) 0),
             (Z.leb_spec 65536 (bits_counter (state w) + 1)); simpl;
      try discriminate; lia.
Qed.

Lemma subscribe_two_byte_limit_witness :
  fst (handle_subscribe 1%nat
         (with_state (set_bits_counter 65535) initial_world)) = Raise OverflowError /\
  (exists b, to_bytes_big 2 (bits_counter (state initial_world) + 1) = Ok b /\
             length b = 2%nat /\
             fst (handle_subscribe 1%nat initial_world) = Ok (PList [PNone; PStr (hex b)])).
Proof.
  split.
  - apply (proj1 (subscribe_two_byte_limit 1%nat
                    (with_state (set_bits_counter 65535) initial_world))).
    simpl. lia.
  - apply (proj1 (proj2 (subscribe_two_byte_limit 1%nat initial_world)));
      simpl; lia.
Defined.

(** The claim C8 as stated fails twice: a session that is already in
    [all_sessions] is not added to [new_sessions] when it subscribes
    again, and the 65536th subscribe returns nothing. *)
Lemma subscribe_counterexample :
  (7%nat ∉ new_sessions (snd (handle_subscribe 7%nat
                                (with_all_sessions {[ 7%nat ]} initial_world)))) /\
  fst (handle_subscribe 7%nat (with_state (set_bits_counter 65535) initial_world))
  = Raise OverflowError.
Proof.
  split; [| reflexivity].
  rewrite handle_subscribe_eq. vm_compute. set_solver.
Qed.

Lemma step_keeps_bits_counter (cfg : config) (e : event) (w : World) :
  is_subscribe e = false ->
  bits_counter (state (snd (step cfg e w))) = bits_counter (state w).
Proof.
  destruct e; simpl; intros H; try discriminate.
  - apply handle_authorize_keeps_bits_counter.
  - apply (keeps_compose state bits_counter), handle_submit_keeps_state.
  - apply (stateUpdater_keeps (fun w => bits_counter (state w))).
    + intros t. apply refresh_keeps_bits_counter.
    + reflexivity.
Qed.

Lemma subscribe_replies_counted (cfg : config) (events : list event) (w : World) :
  0 <= bits_counter (state w) ->
  bits_counter (state w) + count_subscribes events <= 65535 ->
  subscribe_replies cfg events w =
  map (fun i => extranonce_reply (bits_counter (state w) + Z.of_nat i))
      (seq 1 (Z.to_nat (count_subscribes events))).
Proof.
  revert w. induction events as [|e events IH]; intros w Hc Hn; [reflexivity |].
  destruct (is_subscribe e) eqn:He.
  - destruct e; try discriminate. clear He.
    assert (Hcount : count_subscribes (ev_subscribe self :: events)
                     = 1 + count_subscribes events)
      by (unfold count_subscribes; simpl; lia).
    assert (Hpos : 0 <= count_subscribes events) by (unfold count_subscribes; lia).
    rewrite Hcount in *.
    replace (Z.to_nat (1 + count_subscribes events))
      with (S (Z.to_nat (count_subscribes events))) by lia.
    cbn [subscribe_replies step fst snd seq map].
    rewrite handle_subscribe_eq. cbn [fst snd].
    rewrite IH.
    + f_equal.
      * rewrite to_bytes_big_two.
        destruct (Z.ltb_spec (bits_counter (state w) + 1) 0),
                 (Z.leb_spec 65536 (bits_counter (state w) + 1)); try lia.
        reflexivity.
      * rewrite <- (seq_shift _ 1), map_map. apply map_ext. intros i.
        destruct (bool_decide _); simpl; f_equal; lia.
    + destruct (bool_decide _); simpl; lia.
    + destruct (bool_decide _); simpl; lia.
  - assert (Hcount : count_subscribes (e :: events) = count_subscribes events)
      by (unfold count_subscribes; rewrite filter_cons_False by congruence;
          reflexivity).
    rewrite Hcount in *.
    pose proof (step_keeps_bits_counter cfg e w He) as Hkeep.
    assert (Hstep : subscribe_replies cfg (e :: events) w =
                    subscribe_replies cfg events (snd (step cfg e w)))
      by (destruct e; try discriminate; reflexivity).
    rewrite Hstep, IH; rewrite Hkeep; auto.
Qed.

(** C8, amended: while the counter is below 65535, a subscribe increments
    it, adds the session to [new_sessions] unless the session is already
    in [all_sessions], and answers [[null, extranonce]] with the new
    counter on two big-endian bytes in hexadecimal, ["0001"] for the
    first subscriber; in any run that stays within 65535 subscribes the
    answers to the subscribes are pairwise different. *)
Theorem subscribe_extranonce :
  (forall self w,
     0 <= bits_counter (state w) -> bits_counter (state w) < 65535 ->
     fst (handle_subscribe self w) = extranonce_reply (bits_counter (state w) + 1) /\
     bits_counter (state (snd (handle_subscribe self w))) = bits_counter (state w) + 1 /\
     new_sessions (snd (handle_subscribe self w)) =
       (if bool_decide (self ∈ all_sessions w) then new_sessions w
        else {[ self ]} ∪ new_sessions w) /\
     all_sessions (snd (handle_subscribe self w)) = all_sessions w) /\
  extranonce_reply 1 = Ok (PList [PNone; PStr "0001"]) /\
  (forall cfg events w,
     0 <= bits_counter (state w) ->
     bits_counter (state w) + count_subscribes events <= 65535 ->
     Forall (fun r => is_ok r = true) (subscribe_replies cfg events w) /\
     NoDup (subscribe_replies cfg events w)).
Proof.
  split; [| split; [reflexivity |]].
  - intros self w H0 H1. rewrite handle_subscribe_eq. cbn [fst snd].
    rewrite to_bytes_big_two.
    destruct (Z.ltb_spec (bits_counter (state w) + 1) 0),
             (Z.leb_spec 65536 (bits_counter (state w) + 1)); try lia.
    destruct (bool_decide _); repeat split.
  - intros cfg events w H0 H1.
    rewrite (subscribe_replies_counted cfg events w H0 H1).
    assert (Hpos : 0 <= count_subscribes events) by (unfold count_subscribes; lia).
    split.
    + apply List.Forall_forall. intros r Hin. apply in_map_iff in Hin.
      destruct Hin as [i [<- _]]. reflexivity.
    + apply (NoDup_fmap_2_strong
               (fun i => extranonce_reply (bits_counter (state w) + Z.of_nat i)));
        [| apply NoDup_seq].
      intros i j Hi Hj Heq. apply elem_of_seq in Hi, Hj.
      apply extranonce_reply_inj in Heq; lia.
Qed.

Lemma subscribe_extranonce_witness :
  fst (handle_subscribe 1%nat initial_world) = extranonce_reply 1 /\
  NoDup (subscribe_replies (mkConfig false false false store)
           [ev_subscribe 1%nat; ev_subscribe 2%nat; ev_subscribe 1%nat]
           initial_world).
Proof.
  split.
  - apply (proj1 subscribe_extranonce 1%nat initial_world); simpl; lia.
  - apply (proj2 (proj2 subscribe_extranonce)); vm_compute; congruence.
Defined.

(** ** The history queue *)

#[local] Set Warnings "-clear-no-such-hyp".

Lemma queue_wf_empty : queue_wf empty_queue.
Proof. split; [constructor | set_solver]. Qed.

(** The eviction loop removes the [k] oldest ids and their snapshots,
    where [k] is the excess of the length over the capacity. *)
Lemma evict_spec (cap : Z) (ids : list string) (m : gmap string TemplateState) :
  NoDup ids -> dom m = list_to_set ids -> 0 <= cap ->
  exists m',
    evict cap ids m = (None, mkQueue (drop (length ids - Z.to_nat cap) ids) m') /\
    forall key, m' !! key =
                if decide (key ∈ take (length ids - Z.to_nat cap) ids) then None
                else m !! key.
Proof.
  intros Hnd Hdom Hcap. revert m Hnd Hdom.
  induction ids as [|i rest IH]; intros m Hnd Hdom.
  - exists m. cbn [evict length drop]. destruct (Z.ltb_spec cap 0); [lia |].
    split; [reflexivity |]. intros key. rewrite take_nil.
    case_decide as Hd; [now apply elem_of_nil in Hd | reflexivity].
  - cbn [evict]. destruct (Z.ltb_spec cap (Z.of_nat (length (i :: rest)))) as [Hlt|Hge].
    + assert (Hin : is_Some (m !! i)).
      { apply elem_of_dom. rewrite Hdom. set_solver. }
      destruct Hin as [s Hs]. rewrite Hs.
      apply NoDup_cons in Hnd as [Hni Hnd].
      destruct (IH (delete i m) Hnd) as [m' [Hev Hm']].
      { rewrite dom_delete_L, Hdom. simpl.
        assert (i ∉ (list_to_set rest : gset string)) by (now rewrite elem_of_list_to_set).
        set_solver. }
      exists m'. simpl length in *.
      replace (S (length rest) - Z.to_nat cap)%nat
        with (S (length rest - Z.to_nat cap)) by lia.
      split; [exact Hev |]. intros key. rewrite Hm'. simpl.
      destruct (decide (key = i)) as [->|Hne].
      * rewrite lookup_delete_eq.
        destruct (decide (i ∈ take _ rest)), (decide (i ∈ i :: take _ rest));
          try reflexivity; exfalso; set_solver.
      * rewrite lookup_delete_ne by congruence.
        destruct (decide (key ∈ take _ rest)), (decide (key ∈ i :: take _ rest));
          try reflexivity; exfalso; set_solver.
    + exists m. simpl length in *.
      replace (S (length rest) - Z.to_nat cap)%nat with 0%nat by lia.
      split; [reflexivity |]. intros key.
      destruct (decide (key ∈ take 0 (i :: rest))) as [Hd|]; [| reflexivity].
      now apply elem_of_nil in Hd.
Qed.

Lemma queue_wf_size (q : Queue) : queue_wf q -> size (q_map q) = length (q_ids q).
Proof.
  intros [Hnd Hdom]. rewrite <- size_dom, Hdom. now apply size_list_to_set.
Qed.

(** One insertion, on a well-formed queue. *)
Lemma add_old_state_to_queue_spec (q : Queue) (st : TemplateState) (drop_after : Z) :
  queue_wf q -> 0 <= drop_after ->
  let id := job_id_of (job_counter st) in
  let k := (length (q_ids q) + 1 - Z.to_nat drop_after)%nat in
  exists q',
    add_old_state_to_queue q st drop_after = (None, q') /\
    queue_wf q' /\
    size (q_map q') = length (q_ids q') /\
    (id ∈ q_ids q -> q' = q) /\
    (id ∉ q_ids q ->
       q_ids q' = drop k (q_ids q ++ [id]) /\
       (forall key, q_map q' !! key =
                    if decide (key ∈ take k (q_ids q ++ [id])) then None
                    else <[id := st]> (q_map q) !! key) /\
       Z.of_nat (length (q_ids q')) <= drop_after) /\
    (Z.of_nat (length (q_ids q)) <= drop_after ->
     Z.of_nat (length (q_ids q')) <= drop_after).
Proof.
  intros Hwf Hcap id k. pose proof Hwf as [Hnd Hdom].
  unfold add_old_state_to_queue. fold id.
  destruct (q_map q !! id) as [old|] eqn:Hlook.
  - assert (Hin : id ∈ q_ids q).
    { apply (elem_of_list_to_set (C := gset string)). rewrite <- Hdom.
      apply elem_of_dom. eauto. }
    exists q. split; [reflexivity |]. split; [exact Hwf |].
    split; [now apply queue_wf_size |]. split; [reflexivity |].
    split; [intros Hnin; contradiction | tauto].
  - assert (Hnin : id ∉ q_ids q).
    { intros Hin. apply (elem_of_list_to_set (C := gset string)) in Hin.
      rewrite <- Hdom in Hin. apply elem_of_dom in Hin as [? ?]. congruence. }
    assert (Hnd' : NoDup (q_ids q ++ [id])).
    { apply NoDup_app. repeat split; auto.
      - intros x Hx Hx'. apply list_elem_of_singleton in Hx'. congruence.
      - apply NoDup_singleton. }
    assert (Hdom' : dom (<[id := st]> (q_map q)) = list_to_set (q_ids q ++ [id])).
    { rewrite dom_insert_L, Hdom, list_to_set_app_L. simpl. set_solver. }
    destruct (evict_spec drop_after _ _ Hnd' Hdom' Hcap) as [m' [Hev Hm']].
    rewrite length_app in Hev, Hm'. simpl length in Hev, Hm'. fold k in Hev, Hm'.
    exists (mkQueue (drop k (q_ids q ++ [id])) m').
    assert (Hlen : Z.of_nat (length (drop k (q_ids q ++ [id]))) <= drop_after).
    { rewrite length_drop, length_app. simpl. unfold k. lia. }
    assert (Hwf' : queue_wf (mkQueue (drop k (q_ids q ++ [id])) m')).
    { split; simpl.
      - rewrite <- (take_drop k (q_ids q ++ [id])) in Hnd'.
        now apply NoDup_app in Hnd' as (_ & _ & ?).
      - apply set_eq. intros key. rewrite elem_of_dom, Hm', elem_of_list_to_set.
        rewrite <- (take_drop k (q_ids q ++ [id])) in Hnd', Hdom'.
        apply NoDup_app in Hnd' as (_ & Hdisj & _).
        assert (Hkey : key ∈ dom (<[id := st]> (q_map q)) <->
                       key ∈ take k (q_ids q ++ [id]) \/ key ∈ drop k (q_ids q ++ [id]))
          by (rewrite Hdom', elem_of_list_to_set, elem_of_app; tauto).
        rewrite elem_of_dom in Hkey.
        destruct (decide (key ∈ take k (q_ids q ++ [id]))) as [Hin|Hout].
        + split; [intros [? ?]; discriminate | intros Hd; destruct (Hdisj _ Hin Hd)].
        + tauto. }
    split; [exact Hev |]. split; [exact Hwf' |].
    split; [exact (queue_wf_size _ Hwf') |]. split; [intros Hin; contradiction |].
    split; [intros _; repeat split; [exact Hm' | exact Hlen] | intros _; exact Hlen].
Qed.

(** *** The queue over a run *)

Section Preserves.

Variable P : World -> Prop.

Lemma preserves_keeps {A B} (f : World -> B) (c : M A) :
  (forall w w', f w' = f w -> P w -> P w') -> keeps f c -> preserves P c.
Proof. intros Hf Hc w Hw. apply (Hf w); [apply Hc | exact Hw]. Qed.

Lemma preserves_bind {A C} (c : M A) (k : A -> M C) :
  preserves P c -> (forall a, preserves P (k a)) -> preserves P (bind c k).
Proof.
  intros Hc Hk w Hw. unfold bind. specialize (Hc w Hw).
  destruct (c w) as [[a|e] w']; simpl in *; [now apply Hk | exact Hc].
Qed.

Lemma preserves_when (b : bool) (c : M unit) : preserves P c -> preserves P (when b c).
Proof. destruct b; [trivial | intros _ w Hw; exact Hw]. Qed.

Lemma preserves_for_each {A} (xs : list A) (body : A -> M unit) :
  (forall x, preserves P (body x)) -> preserves P (for_each xs body).
Proof.
  intros H. induction xs as [|x xs IH]; simpl.
  - intros w Hw. exact Hw.
  - apply preserves_bind; auto.
Qed.

End Preserves.

Lemma queue_ok_old_states (drop_after : Z) (w w' : World) :
  old_states w' = old_states w -> queue_ok drop_after w -> queue_ok drop_after w'.
Proof. unfold queue_ok. now intros ->. Qed.

Lemma push_old_state_preserves (drop_after : Z) (original : TemplateState) :
  0 <= drop_after ->
  preserves (queue_ok drop_after) (push_old_state drop_after original).
Proof.
  intros Hcap w [Hwf Hlen]. unfold push_old_state.
  destruct (add_old_state_to_queue_spec (old_states w) original drop_after Hwf Hcap)
    as [q' (Hadd & Hwf' & _ & _ & _ & Hbound)].
  rewrite Hadd. split; simpl; auto.
Qed.

(** Everything but [push_old_state] leaves the queue alone. *)
Ltac preserves_tac :=
  repeat first
    [ progress intros
    | apply preserves_bind
    | apply preserves_when
    | apply preserves_for_each
    | apply push_old_state_preserves; assumption
    | apply (preserves_keeps _ old_states);
      [ apply queue_ok_old_states
      | first [ apply keeps_update; reflexivity | apply keeps_ret | apply keeps_raise
              | apply keeps_lift | apply keeps_get ] ]
    | match goal with
      | |- preserves _ (match ?x with _ => _ end) => destruct x
      | |- preserves _ (if ?x then _ else _) => destruct x
      end ].

Lemma refresh_preserves_queue (drop_after : Z) (show_jobs : bool) (t : template) (ts : Z) :
  0 <= drop_after ->
  preserves (queue_ok drop_after) (refresh drop_after show_jobs t ts).
Proof.
  intros Hcap.
  unfold refresh, read_template, welcome_new_sessions, rebuild, new_block_update,
    send_job.
  preserves_tac.
Qed.

Lemma step_preserves_queue (cfg : config) (e : event) (w : World) :
  0 <= cfg_drop_after cfg ->
  queue_ok (cfg_drop_after cfg) w -> queue_ok (cfg_drop_after cfg) (snd (step cfg e w)).
Proof.
  intros Hcap Hok. destruct e; simpl.
  - apply (queue_ok_old_states _ w); [| exact Hok].
    rewrite handle_subscribe_eq. simpl. destruct (bool_decide _); reflexivity.
  - revert w Hok. apply (preserves_keeps _ old_states).
    + apply queue_ok_old_states.
    + unfold handle_authorize. keeps_tac.
  - revert w Hok. apply (preserves_keeps _ old_states).
    + apply queue_ok_old_states.
    + unfold handle_submit, submit_state. keeps_tac.
  - unfold stateUpdater. destruct (negb _); [exact Hok |].
    destruct reply as [|t]; [exact Hok |].
    pose proof (refresh_preserves_queue (cfg_drop_after cfg) (cfg_show_jobs cfg) t ts
                  Hcap w Hok) as Hrefresh.
    destruct (refresh _ _ t ts w) as [[u|err] w']; exact Hrefresh.
Qed.

(** C6: on a queue as the refresher builds it and for a capacity that is
    not negative, an insertion never raises and keeps the queue well
    formed; inserting an id that is present changes nothing; inserting a
    new id appends it and then drops the oldest ids with their snapshots
    until at most [drop_after] remain; so a queue within its capacity
    stays within it, and the map holds exactly one snapshot per id.
    Over every run of the proxy from its initial state the queue is such
    a queue and holds at most [drop_after] entries. *)
Theorem history_queue_bounded_fifo :
  (forall (q : Queue) (st : TemplateState) (drop_after : Z),
     queue_wf q -> 0 <= drop_after ->
     let id := job_id_of (job_counter st) in
     let k := (length (q_ids q) + 1 - Z.to_nat drop_after)%nat in
     exists q',
       add_old_state_to_queue q st drop_after = (None, q') /\
       queue_wf q' /\
       size (q_map q') = length (q_ids q') /\
       (id ∈ q_ids q -> q' = q) /\
       (id ∉ q_ids q ->
          q_ids q' = drop k (q_ids q ++ [id]) /\
          (forall key, q_map q' !! key =
                       if decide (key ∈ take k (q_ids q ++ [id])) then None
                       else <[id := st]> (q_map q) !! key) /\
          Z.of_nat (length (q_ids q')) <= drop_after) /\
       (Z.of_nat (length (q_ids q)) <= drop_after ->
        Z.of_nat (length (q_ids q')) <= drop_after)) /\
  (forall (cfg : config) (events : list event),
     0 <= cfg_drop_after cfg ->
     queue_ok (cfg_drop_after cfg) (run cfg events initial_world)).
Proof.
  split; [exact add_old_state_to_queue_spec |].
  intros cfg events Hcap.
  assert (Hinit : queue_ok (cfg_drop_after cfg) initial_world)
    by (split; [apply queue_wf_empty | simpl; lia]).
  revert Hinit. generalize initial_world.
  induction events as [|e events IH]; intros w Hok; [exact Hok |].
  simpl. apply IH. now apply step_preserves_queue.
Qed.

Lemma history_queue_bounded_fifo_witness :
  (exists q',
     add_old_state_to_queue empty_queue initial_state store = (None, q') /\
     queue_wf q' /\ Z.of_nat (length (q_ids q')) <= store) /\
  queue_ok store
    (run (mkConfig false false true store)
         [ev_authorize 1%nat "M9TQAWC2R2sGUmWodGk6DH6TNvVxiqXnU6" "x";
          ev_tick (reply_template (sample_template 7499)) 1700000000;
          ev_tick (reply_template (sample_template 7500)) 1700000001]
         initial_world).
Proof.
  destruct history_queue_bounded_fifo as [Hstep Hrun]. split.
  - destruct (Hstep empty_queue initial_state store
                queue_wf_empty ltac:(unfold store; lia))
      as [q' (Hadd & Hwf & _ & _ & _ & Hbound)].
    exists q'. repeat split; try apply Hwf; [exact Hadd |].
    apply Hbound. simpl. unfold store. lia.
  - apply (Hrun (mkConfig false false true store)). simpl. unfold store. lia.
Defined.

(** Three insertions into a queue of capacity two: the oldest id goes. *)
Example history_queue_evicts_oldest :
  let push n q := snd (add_old_state_to_queue q (set_job_counter n initial_state) 2) in
  q_ids (push 3 (push 2 (push 1 empty_queue))) = ["2"; "3"]%string /\
  q_map (push 3 (push 2 (push 1 empty_queue))) !! "1"%string = None.
Proof. vm_compute. split; reflexivity. Qed.

(** ** mining.authorize *)

Lemma handle_authorize_eq (testnet : bool) (username password : string) (w : World) :
  handle_authorize testnet username password w =
  match Base58.b58decode_check (before_dot username) with
  | Raise e => (Raise e, w)
  | Ok [] => (Raise IndexError, w)
  | Ok (first :: payload) =>
      if Z_of_byte first =? (if testnet then 109 else 50) then
        (Ok (PBool true),
         if truthy (pub_h160 (state w)) then w
         else with_state (set_pub_h160 (Some payload)) w)
      else
        (Raise (RPCError 20 (String.append "Invalid address " (before_dot username))), w)
  end.
Proof.
  unfold handle_authorize, bind, lift, raise, get, when, update, ret.
  destruct (Base58.b58decode_check (before_dot username)) as [[|first payload]|e];
    try reflexivity.
  destruct (Z_of_byte first =? _); simpl; [| reflexivity].
  destruct (truthy (pub_h160 (state w))); reflexivity.
Qed.

Lemma handle_authorize_keeps_truthy_pub (testnet : bool) (username password : string)
    (w : World) :
  truthy (pub_h160 (state w)) = true ->
  pub_h160 (state (snd (handle_authorize testnet username password w)))
  = pub_h160 (state w).
Proof.
  intros H. rewrite handle_authorize_eq.
  destruct (Base58.b58decode_check _) as [[|first payload]|e]; try reflexivity.
  destruct (_ =? _); [| reflexivity]. simpl. now rewrite H.
Qed.

Lemma step_keeps_truthy_pub (cfg : config) (e : event) (w : World) :
  truthy (pub_h160 (state w)) = true ->
  pub_h160 (state (snd (step cfg e w))) = pub_h160 (state w).
Proof.
  intros H. destruct e; simpl.
  - apply handle_subscribe_keeps_pub.
  - now apply handle_authorize_keeps_truthy_pub.
  - apply (keeps_compose state pub_h160), handle_submit_keeps_state.
  - apply (stateUpdater_keeps (fun w => pub_h160 (state w))).
    + intros t. apply refresh_keeps_pub.
    + reflexivity.
Qed.

(** The claim C5 as stated fails on an address that carries a version
    byte and nothing else: the first authorize succeeds and assigns the
    empty payload, which a later authorize overwrites; and the value an
    authorize assigns need not have 20 bytes. *)
Lemma miner_h160_counterexample :
  let w1 := snd (handle_authorize false "6eVR58s" "x" initial_world) in
  let w2 := snd (handle_authorize false "M9TQAWC2R2sGUmWodGk6DH6TNvVxiqXnU6" "x" w1) in
  fst (handle_authorize false "6eVR58s" "x" initial_world) = Ok (PBool true) /\
  pub_h160 (state w1) = Some [] /\
  pub_h160 (state w2) = Some (repeat x11 20) /\
  pub_h160 (state (snd (handle_authorize false "3owXUizGaUmCFH" "x" initial_world)))
  = Some [x01; x02; x03; x04; x05].
Proof. vm_compute. repeat split. Qed.

(** C5, amended: once [pub_h160] holds a non-empty value, no event of a
    run changes it, whatever the usernames of later authorize calls; and
    an authorize that succeeds while the attribute is absent assigns the
    bytes that follow the address's version byte. *)
Theorem miner_h160_write_once :
  (forall cfg events w,
     truthy (pub_h160 (state w)) = true ->
     pub_h160 (state (run cfg events w)) = pub_h160 (state w)) /\
  (forall testnet username password w,
     pub_h160 (state w) = None ->
     fst (handle_authorize testnet username password w) = Ok (PBool true) ->
     exists first payload,
       Base58.b58decode_check (before_dot username) = Ok (first :: payload) /\
       pub_h160 (state (snd (handle_authorize testnet username password w)))
       = Some payload).
Proof.
  split.
  - intros cfg events. induction events as [|e events IH]; intros w H; [reflexivity |].
    simpl. pose proof (step_keeps_truthy_pub cfg e w H) as Hstep.
    rewrite IH; [exact Hstep | now rewrite Hstep].
  - intros testnet username password w H. rewrite handle_authorize_eq.
    destruct (Base58.b58decode_check _) as [[|first payload]|e]; try discriminate.
    destruct (_ =? _); [| discriminate]. intros _. exists first, payload.
    split; [reflexivity |]. simpl. now rewrite H.
Qed.

Lemma miner_h160_write_once_witness :
  let w1 := snd (handle_authorize false "M9TQAWC2R2sGUmWodGk6DH6TNvVxiqXnU6" "x"
                                  initial_world) in
  pub_h160 (state (run (mkConfig false false false store)
                       [ev_authorize 2%nat "MB1e6aUeL3Zj4s4H2ZqFBHaaHd7kvvzTco.rig" "x";
                        ev_subscribe 2%nat;
                        ev_authorize 3%nat "6eVR58s" "x"]
                       w1))
  = pub_h160 (state w1) /\
  exists first payload,
    Base58.b58decode_check (before_dot "M9TQAWC2R2sGUmWodGk6DH6TNvVxiqXnU6")
    = Ok (first :: payload) /\
    pub_h160 (state w1) = Some payload.
Proof.
  split.
  - apply (proj1 miner_h160_write_once). vm_compute. reflexivity.
  - apply (proj2 miner_h160_write_once); vm_compute; reflexivity.
Defined.

(** C7: what [handle_authorize] answers, by the outcome of the decoder.
    A decoded address with the wrong version byte raises RPC error 20
    with the message of the claim, one with the expected version byte
    returns [True]; an address that fails Base58Check makes the decoder
    raise, and that exception leaves the handler as it is.  On mainnet,
    for the address ["M9TQAWC2R2sGUmWodGk6DH6TNvVxiqXnU7"], whose last
    character is mistyped, the handler raises [ValueError], not RPC
    error 20. *)
Theorem authorize_outcomes :
  (forall (testnet : bool) username password w first payload,
     Base58.b58decode_check (before_dot username) = Ok (first :: payload) ->
     Z_of_byte first <> (if testnet then 109 else 50) ->
     fst (handle_authorize testnet username password w)
     = Raise (RPCError 20 (String.append "Invalid address " (before_dot username)))) /\
  (forall (testnet : bool) username password w first payload,
     Base58.b58decode_check (before_dot username) = Ok (first :: payload) ->
     Z_of_byte first = (if testnet then 109 else 50) ->
     fst (handle_authorize testnet username password w) = Ok (PBool true)) /\
  (forall (testnet : bool) username password w e,
     Base58.b58decode_check (before_dot username) = Raise e ->
     handle_authorize testnet username password w = (Raise e, w)) /\
  Base58.b58decode_check "M9TQAWC2R2sGUmWodGk6DH6TNvVxiqXnU7" = Raise ValueError /\
  fst (handle_authorize false "M9TQAWC2R2sGUmWodGk6DH6TNvVxiqXnU7.rig" "x" initial_world)
  = Raise ValueError.
Proof.
  split; [| split; [| split; [| split]]].
  - intros testnet username password w first payload Hdec Hne.
    rewrite handle_authorize_eq, Hdec.
    now destruct (Z.eqb_spec (Z_of_byte first) (if testnet then 109 else 50)).
  - intros testnet username password w first payload Hdec Heq.
    rewrite handle_authorize_eq, Hdec.
    now destruct (Z.eqb_spec (Z_of_byte first) (if testnet then 109 else 50)).
  - intros testnet username password w e Hdec.
    now rewrite handle_authorize_eq, Hdec.
  - vm_compute. reflexivity.
  - vm_compute. reflexivity.
Qed.

Lemma authorize_outcomes_witness :
  fst (handle_authorize false "12ZEw5Hcv1hTb6YUQJ69y1V7uhcoDz92PH" "x" initial_world)
  = Raise (RPCError 20 "Invalid address 12ZEw5Hcv1hTb6YUQJ69y1V7uhcoDz92PH") /\
  fst (handle_authorize true "ktPzFun2JgCxjLjv52Ptpg9sWghcg3RcsZ.rig" "x" initial_world)
  = Ok (PBool true) /\
  handle_authorize false "M9TQAWC2R2sGUmWodGk6DH6TNvVxiqXnU7" "x" initial_world
  = (Raise ValueError, initial_world).
Proof.
  destruct authorize_outcomes as (Hmismatch & Hvalid & Hraise & _).
  split; [| split].
  - apply (Hmismatch false "12ZEw5Hcv1hTb6YUQJ69y1V7uhcoDz92PH" "x" initial_world
             x00 (repeat x11 20)); vm_compute; [reflexivity | discriminate].
  - apply (Hvalid true "ktPzFun2JgCxjLjv52Ptpg9sWghcg3RcsZ.rig" "x" initial_world
             x6d (repeat x11 20)); vm_compute; reflexivity.
  - apply Hraise. vm_compute. reflexivity.
Defined.

(** ** mining.submit *)

(** The choice of the state: it only writes log records. *)
Lemma submit_state_eq (verbose : bool) (job_id : string) (w : World) :
  exists w',
    submit_state verbose job_id w =
      (Ok (if String.eqb job_id (job_id_of (job_counter (state w))) then state w
           else match lookup_old_state (old_states w) job_id with
                | Some old_state => old_state
                | None => state w
                end), w') /\
    posted w' = posted w.
Proof.
  unfold submit_state, bind, get, when, update, ret.
  destruct (String.eqb job_id _); simpl; [eauto |].
  destruct verbose, (lookup_old_state (old_states w) job_id); simpl; eauto.
Qed.

(** The part of [handle_submit] that follows the POST: the verdict is
    logged and has no other use. *)
Lemma handle_submit_eq (self : session) (verbose : bool)
    (worker job_id nonce_hex header_hex mixhash_hex : string)
    (reply : submit_reply) (w : World) :
  let st := if String.eqb job_id (job_id_of (job_counter (state w))) then state w
            else match lookup_old_state (old_states w) job_id with
                 | Some old_state => old_state
                 | None => state w
                 end in
  exists w',
    handle_submit self verbose worker job_id nonce_hex header_hex mixhash_hex reply w
    = (rbind (reverse_hex nonce_hex) (fun nonce =>
       rbind (reverse_hex mixhash_hex) (fun mix =>
       rbind (build_block st nonce mix) (fun block =>
       if repr_ok st then
         rbind (fromhex (slice_str 152 160 block)) (fun _ => Ok (PBool true))
       else Raise AttributeError))), w') /\
    posted w' =
      match rbind (reverse_hex nonce_hex) (fun nonce =>
            rbind (reverse_hex mixhash_hex) (fun mix => build_block st nonce mix)) with
      | Ok block => posted w ++ [block]
      | Raise _ => posted w
      end.
Proof.
  intros st. unfold handle_submit.
  destruct (submit_state_eq verbose job_id w) as [w1 [Hsel Hposted]].
  fold st in Hsel. unfold bind at 1. rewrite Hsel.
  unfold bind, lift, update, ret, raise, when.
  destruct (reverse_hex nonce_hex) as [nonce|e]; simpl; [| eauto].
  destruct (reverse_hex mixhash_hex) as [mix|e]; simpl; [| eauto].
  destruct (build_block st nonce mix) as [block|e]; simpl; [| eauto].
  rewrite <- Hposted.
  destruct (repr_ok st); simpl; [| eauto].
  destruct (reply_error reply) as [[code message]|],
           (reply_result reply) as [result|]; simpl;
    try destruct (bool_decide (result ∈ known_verdicts));
    try destruct verbose; simpl;
    destruct (fromhex (slice_str 152 160 block)); simpl; eauto.
Qed.




(** The dump of the state comes after the POST: a state that has a
    header and a coinbase but no seed hash posts its block and then
    raises [AttributeError]. *)
Example submit_dump_after_post :
  let st := set_coinbase_txid (Some (zeros 32)) (set_coinbase_tx (Some [x01])
              (set_header (Some (zeros 76 ++ [xe8; x03; x00; x00]))
              (set_prevHash (Some (zeros 32)) (set_job_counter 5 initial_state)))) in
  let w := with_state (fun _ => st) initial_world in
  let after := handle_submit 1%nat true "rig" "5" "0x0102030405060708" "ab"
                             (hex (zeros 32)) (mkReply None None) w in
  build_block st "0807060504030201" (hex (zeros 32))
  = Ok (hex (zeros 76 ++ [xe8; x03; x00; x00]) +:+ "0807060504030201" +:+
        hex (zeros 32) +:+ "01" +:+ "01")%string /\
  posted (snd after) = [hex (zeros 76 ++ [xe8; x03; x00; x00]) +:+ "0807060504030201"
                        +:+ hex (zeros 32) +:+ "01" +:+ "01"]%string /\
  fst after = Raise AttributeError.
Proof. vm_compute. repeat split. Qed.

(** Scenario S6.  After three jobs the counter stands at 3 and the queue
    holds the snapshots "0", "1" and "2".  A submit for job "2" posts
    the block built from that snapshot, whose header is not the live
    one; a submit for the unknown job "f" posts the block built from the
    live state; both are answered [True], whatever the node says. *)
Example late_submit :
  let cfg := mkConfig false true true store in
  let w := run cfg [ev_authorize 1%nat "M9TQAWC2R2sGUmWodGk6DH6TNvVxiqXnU6" "x";
                    ev_tick (reply_template (sample_template 7499)) 1700000000;
                    ev_tick (reply_template (sample_template 7500)) 1700000001;
                    ev_tick (reply_template (sample_template 7501)) 1700000002]
               initial_world in
  let submit job_id :=
    handle_submit 1%nat true "rig" job_id "0x0102030405060708" "ab" (hex (zeros 32))
                  (mkReply (Some (-25, "rejected"%string)) None) w in
  let built (st : option TemplateState) :=
    match st with
    | Some st =>
        match build_block st "0807060504030201" (hex (zeros 32)) with
        | Ok block => [block]
        | Raise _ => []
        end
    | None => []
    end in
  job_counter (state w) = 3 /\
  q_ids (old_states w) = ["0"; "1"; "2"]%string /\
  posted (snd (submit "2"%string)) = built (lookup_old_state (old_states w) "2") /\
  length (posted (snd (submit "2"%string))) = 1%nat /\
  bool_decide (option_map header (lookup_old_state (old_states w) "2")
               = Some (header (state w))) = false /\
  fst (submit "2"%string) = Ok (PBool true) /\
  lookup_old_state (old_states w) "f" = None /\
  posted (snd (submit "f"%string)) = built (Some (state w)) /\
  fst (submit "f"%string) = Ok (PBool true).
Proof.
  intros cfg w submit built.
  repeat (split; [vm_compute; reflexivity |]). vm_compute. reflexivity.
Qed.

(** ** The float model rounds to nearest, ties to even *)

Section Rounding.

Import F64.

Lemma scale_pos (e : Z) : 0 < num_scale e /\ 0 < den_scale e.
Proof.
  unfold num_scale, den_scale. destruct (Z.leb_spec 0 e); split; try lia;
    apply Z.pow_pos_nonneg; lia.
Qed.

(** [num_scale e / den_scale e] is 2 ^ (- e). *)
Lemma scale_ratio (e k : Z) :
  0 <= k -> 0 <= k + e -> 2 ^ (k + e) * num_scale e = 2 ^ k * den_scale e.
Proof.
  intros Hk Hke. unfold num_scale, den_scale. destruct (Z.leb_spec 0 e).
  - rewrite Z.pow_add_r by lia. ring.
  - replace (2 ^ k) with (2 ^ ((k + e) + - e)) by (f_equal; lia).
    rewrite (Z.pow_add_r 2 (k + e) (- e)) by lia. ring.
Qed.

Lemma scale_pred (e : Z) :
  num_scale (e - 1) * den_scale e = 2 * num_scale e * den_scale (e - 1).
Proof.
  unfold num_scale, den_scale.
  destruct (Z.leb_spec 0 e), (Z.leb_spec 0 (e - 1)); try lia.
  - replace (2 ^ e) with (2 ^ (Z.succ (e - 1))) by (f_equal; lia).
    rewrite Z.pow_succ_r by lia. ring.
  - replace e with 0 by lia. reflexivity.
  - replace (- (e - 1)) with (Z.succ (- e)) by lia. rewrite Z.pow_succ_r by lia. ring.
Qed.

Lemma scaled_quot_eq (n d e : Z) :
  F64.scaled_quot n d e = (n * num_scale e) / (d * den_scale e).
Proof.
  unfold F64.scaled_quot, F64.pow2, num_scale, den_scale.
  destruct (0 <=? e); f_equal; lia.
Qed.

(** The exponent leaves a quotient of exactly 53 bits. *)
Lemma exponent_spec (n d : Z) :
  0 < n -> 0 < d ->
  let e := F64.exponent n d in
  2 ^ 52 * (d * den_scale e) <= n * num_scale e < 2 ^ 53 * (d * den_scale e).
Proof.
  intros Hn Hd.
  pose proof (Z.log2_spec n Hn) as [Hn1 Hn2].
  pose proof (Z.log2_spec d Hd) as [Hd1 Hd2].
  pose proof (Z.log2_nonneg n) as Hln. pose proof (Z.log2_nonneg d) as Hld.
  set (la := Z.log2 n) in *. set (lb := Z.log2 d) in *.
  rewrite Z.pow_succ_r in Hn2, Hd2 by lia.
  set (e0 := la - lb - 52).
  pose proof (scale_pos e0) as [Ha0 Hb0].
  pose proof (scale_pos (e0 - 1)) as [Ha1 Hb1].
  assert (H0 : 2 ^ la * num_scale e0 = 2 ^ (lb + 52) * den_scale e0).
  { replace la with ((lb + 52) + e0) by (unfold e0; lia).
    apply scale_ratio; unfold e0; lia. }
  assert (H1 : 2 ^ la * num_scale (e0 - 1) = 2 ^ (lb + 53) * den_scale (e0 - 1)).
  { replace la with ((lb + 53) + (e0 - 1)) at 1 by (unfold e0; lia).
    apply scale_ratio; unfold e0; lia. }
  rewrite Z.pow_add_r in H0, H1 by lia.
  assert (Hp : 0 < 2 ^ lb) by (apply Z.pow_pos_nonneg; lia).
  assert (Hq : 0 < 2 ^ la) by (apply Z.pow_pos_nonneg; lia).
  unfold F64.exponent. fold la lb e0. rewrite scaled_quot_eq. unfold F64.pow2.
  assert (Hden0 : 0 < d * den_scale e0) by nia.
  pose proof (Z.div_mod (n * num_scale e0) (d * den_scale e0) ltac:(lia)) as Hdm.
  pose proof (Z.mod_pos_bound (n * num_scale e0) (d * den_scale e0) Hden0) as Hmod.
  set (q0 := (n * num_scale e0) / (d * den_scale e0)) in *.
  set (r0 := (n * num_scale e0) mod (d * den_scale e0)) in *.
  pose proof (scale_pred e0) as Hpred.
  change (2 ^ 52) with 4503599627370496 in *.
  change (2 ^ 53) with 9007199254740992 in *.
  set (a0 := num_scale e0) in *. set (b0 := den_scale e0) in *.
  set (a1 := num_scale (e0 - 1)) in *. set (b1 := den_scale (e0 - 1)) in *.
  set (pa := 2 ^ la) in *. set (pb := 2 ^ lb) in *.
  destruct (Z.ltb_spec q0 4503599627370496) as [Hlow|Hhigh]; cbv zeta.
  - (* one more bit is needed *)
    change (num_scale (e0 - 1)) with a1. change (den_scale (e0 - 1)) with b1.
    assert (Hup : n * a0 < 4503599627370496 * (d * b0)).
    { assert (d * b0 * q0 <= d * b0 * 4503599627370495)
        by (apply Z.mul_le_mono_nonneg_l; lia). lia. }
    split.
    + assert (pa * a1 <= n * a1) by (apply Z.mul_le_mono_nonneg_r; lia).
      assert (d * b1 <= 2 * pb * b1) by (apply Z.mul_le_mono_nonneg_r; lia).
      lia.
    + assert (H2 : 2 * b1 * (n * a0) < 2 * b1 * (4503599627370496 * (d * b0)))
        by (apply Z.mul_lt_mono_pos_l; lia).
      apply (Z.mul_lt_mono_pos_r b0); [exact Hb0 |].
      assert (H3 : n * a1 * b0 = 2 * b1 * (n * a0)).
      { transitivity (n * (a1 * b0)); [ring |].
        rewrite Hpred. ring. }
      assert (H4 : 9007199254740992 * (d * b1) * b0
                   = 2 * b1 * (4503599627370496 * (d * b0))) by ring.
      rewrite H3, H4. exact H2.
  - change (num_scale e0) with a0. change (den_scale e0) with b0.
    assert (Hlo : 4503599627370496 * (d * b0) <= n * a0).
    { assert (d * b0 * 4503599627370496 <= d * b0 * q0)
        by (apply Z.mul_le_mono_nonneg_l; lia). lia. }
    split; [exact Hlo |].
    assert (n * a0 < 2 * pa * a0) by (apply Z.mul_lt_mono_pos_r; lia).
    assert (pb * b0 <= d * b0) by (apply Z.mul_le_mono_nonneg_r; lia).
    lia.
Qed.

(** [RN n d] is [m * 2 ^ e] for a significand [m] of 53 bits, at most
    half a unit in the last place away from [n / d], and even when
    exactly half a unit away: the binary64 quotient. *)
Lemma RN_nearest_even (n d : Z) :
  0 < n -> 0 < d ->
  exists m e : Z,
    2 ^ 52 <= m <= 2 ^ 53 /\
    RN n d = Qmake (m * den_scale e) (Z.to_pos (num_scale e)) /\
    2 * Z.abs (m * (d * den_scale e) - n * num_scale e) <= d * den_scale e /\
    (2 * Z.abs (m * (d * den_scale e) - n * num_scale e) = d * den_scale e ->
     Z.even m = true).
Proof.
  intros Hn Hd. pose proof (exponent_spec n d Hn Hd) as Hexp. cbv zeta in Hexp.
  unfold RN. set (e := exponent n d) in *.
  pose proof (scale_pos e) as [Ha Hb].
  assert (Hn' : (if 0 <=? e then n else n * pow2 (- e)) = n * num_scale e)
    by (unfold num_scale, pow2; destruct (0 <=? e); ring).
  assert (Hd' : (if 0 <=? e then d * pow2 e else d) = d * den_scale e)
    by (unfold den_scale, pow2; destruct (0 <=? e); ring).
  rewrite Hn', Hd'. cbv zeta.
  set (n' := n * num_scale e) in *. set (d' := d * den_scale e) in *.
  assert (Hd'pos : 0 < d') by (unfold d'; nia).
  pose proof (Z.div_mod n' d' ltac:(lia)) as Hdm.
  pose proof (Z.mod_pos_bound n' d' Hd'pos) as Hmod.
  set (q := n' / d') in *. set (r := n' mod d') in *.
  change (2 ^ 52) with 4503599627370496 in *.
  change (2 ^ 53) with 9007199254740992 in *.
  assert (Hq : 4503599627370496 <= q < 9007199254740992) by nia.
  set (m := if (d' <? 2 * r) || ((d' =? 2 * r) && Z.odd q) then q + 1 else q).
  exists m, e.
  assert (Hvalue : (if 0 <=? e then Qmake (m * pow2 e) 1
                    else Qmake m (Z.to_pos (pow2 (- e))))
                   = Qmake (m * den_scale e) (Z.to_pos (num_scale e))).
  { unfold num_scale, den_scale, pow2. destruct (0 <=? e); [reflexivity |].
    now rewrite Z.mul_1_r. }
  rewrite Hvalue. clear Hvalue.
  unfold m.
  destruct (Z.ltb_spec d' (2 * r)) as [Hup|Hdown]; cbn [orb].
  - repeat split; try lia; intros Htie; exfalso; lia.
  - destruct (Z.eqb_spec d' (2 * r)) as [Htie|Hne]; cbn [andb].
    + destruct (Z.odd q) eqn:Hodd.
      * repeat split; try lia.
        intros _. rewrite Z.add_1_r, Z.even_succ. exact Hodd.
      * repeat split; try lia.
        intros _. now rewrite <- Z.negb_odd, Hodd.
    + repeat split; try lia; intros Htie; exfalso; lia.
Qed.

End Rounding.

(** ** formatDiff *)

(** The claim C9 as stated fails in three ways.  For a target whose
    difficulty is at most 1000 nothing is formatted: the function
    returns [None]; this includes a quotient that is above 1000 but
    rounds to 1000.0.  A target that starts with sixteen zeros raises
    [ZeroDivisionError].  And the dividend is [0xffffffffffffffff], which
    is 2^64 - 1: for the target ["0000000000000783"] the difficulty is
    not the float 2^64 / 1923. *)
Lemma formatDiff_counterexample :
  formatDiff "ffffffffffffffff" = Ok None /\
  formatDiff "004189374bc6a7ef" = Ok None /\
  formatDiff "0000000000000000" = Raise ZeroDivisionError /\
  (exists diff, formatDiff_diff "0000000000000783" = Ok diff /\
                Qeq_bool diff (F64.RN (2 ^ 64) 1923) = false).
Proof.
  repeat split; try (vm_compute; reflexivity).
  eexists. split; vm_compute; reflexivity.
Qed.

Lemma gt_int_spec (x : Q) (l : Z) :
  F64.gt_int x l = true <-> (inject_Z l < x)%Q.
Proof.
  unfold F64.gt_int. rewrite negb_true_iff, <- not_true_iff_false, Qle_bool_iff.
  split; [apply Qnot_le_lt | apply Qlt_not_le].
Qed.

Lemma gt_int_false (x : Q) (l : Z) :
  F64.gt_int x l = false <-> (x <= inject_Z l)%Q.
Proof.
  unfold F64.gt_int. rewrite negb_false_iff. apply Qle_bool_iff.
Qed.

(** C9, amended: for a target whose first sixteen characters are
    hexadecimal digits of a positive number [t], the difficulty is the
    float nearest to (2^64 - 1) / t, and the text is that difficulty
    divided by the first of the thresholds 1e12, 1e9, 1e6, 1e3 it
    strictly exceeds, with two decimals and the suffix T, G, M or K of
    that threshold; at or below 1e3 the function returns [None]; for
    [t = 0] it raises [ZeroDivisionError]. *)
Theorem formatDiff_bands (target : string) (t : Z) :
  int16 (take_str 16 target) = Ok t ->
  (t = 0 -> formatDiff target = Raise ZeroDivisionError) /\
  (0 < t ->
   let diff := F64.RN (2 ^ 64 - 1) t in
   let shown (l : Z) (u : string) :=
     Ok (Some (String.append (F64.format_2f (F64.div_int diff l)) u)) in
   formatDiff_diff target = Ok diff /\
   ((inject_Z (10 ^ 12) < diff)%Q -> formatDiff target = shown (10 ^ 12) "T"%string) /\
   ((inject_Z (10 ^ 9) < diff)%Q -> (diff <= inject_Z (10 ^ 12))%Q ->
    formatDiff target = shown (10 ^ 9) "G"%string) /\
   ((inject_Z (10 ^ 6) < diff)%Q -> (diff <= inject_Z (10 ^ 9))%Q ->
    formatDiff target = shown (10 ^ 6) "M"%string) /\
   ((inject_Z (10 ^ 3) < diff)%Q -> (diff <= inject_Z (10 ^ 6))%Q ->
    formatDiff target = shown (10 ^ 3) "K"%string) /\
   ((diff <= inject_Z (10 ^ 3))%Q -> formatDiff target = Ok None)).
Proof.
  intros Ht. unfold formatDiff, formatDiff_diff. rewrite Ht. cbn [rbind].
  unfold F64.truediv. split.
  - intros ->. reflexivity.
  - intros Hpos.
    destruct (Z.eqb_spec t 0) as [->|_]; [lia |].
    destruct (Z.ltb_spec t 0) as [|_]; [lia |]. cbn [rbind].
    change (2 ^ 64 - 1) with 18446744073709551615.
    set (diff := F64.RN 18446744073709551615 t).
    split; [reflexivity |].
    assert (Hle : forall a b : Z, a <= b -> forall x : Q,
                    (x <= inject_Z a)%Q -> F64.gt_int x b = false).
    { intros a b Hab x Hx. apply gt_int_false. eapply Qle_trans; [exact Hx |].
      unfold Qle. simpl. lia. }
    unfold UNITS, formatDiff_units.
    repeat split.
    + intros H. apply gt_int_spec in H.
      change 1000000000000 with (10 ^ 12) in *. now rewrite H.
    + intros H1 H2. apply gt_int_spec in H1. apply gt_int_false in H2.
      change 1000000000000 with (10 ^ 12) in *. change 1000000000 with (10 ^ 9) in *.
      now rewrite H2, H1.
    + intros H1 H2. apply gt_int_spec in H1.
      rewrite (Hle (10 ^ 9) (10 ^ 12)) by (auto; lia).
      apply gt_int_false in H2.
      change 1000000000 with (10 ^ 9) in *. change 1000000 with (10 ^ 6) in *.
      now rewrite H2, H1.
    + intros H1 H2. apply gt_int_spec in H1.
      rewrite (Hle (10 ^ 6) (10 ^ 12)) by (auto; lia).
      rewrite (Hle (10 ^ 6) (10 ^ 9)) by (auto; lia).
      apply gt_int_false in H2.
      change 1000000 with (10 ^ 6) in *. change 1000 with (10 ^ 3) in *.
      now rewrite H2, H1.
    + intros H.
      rewrite (Hle (10 ^ 3) (10 ^ 12)) by (auto; lia).
      rewrite (Hle (10 ^ 3) (10 ^ 9)) by (auto; lia).
      rewrite (Hle (10 ^ 3) (10 ^ 6)) by (auto; lia).
      apply gt_int_false in H. change 1000 with (10 ^ 3) in *. now rewrite H.
Qed.

Lemma formatDiff_bands_witness :
  formatDiff "00000000ffff0000000000000000000000000000000000000000000000000000"
  = Ok (Some "4.30G"%string) /\
  formatDiff "0000000000000000ffff" = Raise ZeroDivisionError.
Proof.
  pose proof (formatDiff_bands
                "00000000ffff0000000000000000000000000000000000000000000000000000"
                4294901760 eq_refl) as [_ Hbands].
  pose proof (formatDiff_bands "0000000000000000ffff" 0 eq_refl) as [Hzero _].
  split; [| apply Hzero; reflexivity].
  destruct (Hbands ltac:(lia)) as (_ & _ & Hgiga & _).
  rewrite Hgiga; [vm_compute; reflexivity | vm_compute; reflexivity
                 | vm_compute; discriminate].
Defined.

(** [int(s, 16)] on texts whose value the interpreter gives: a prefix,
    a sign, white space around, underscores between digits; and on texts
    it refuses.  A negative divisor gives a negative difficulty, which
    exceeds no threshold. *)
Example int16_examples :
  int16 "0x1f" = Ok 31 /\
  int16 "0X_1F" = Ok 31 /\
  int16 "1_f" = Ok 31 /\
  int16 "+1f" = Ok 31 /\
  int16 "-0x1f" = Ok (-31) /\
  int16 (String "009" (String "160" " 1f " +:+ String "010" (String "133" ""))) = Ok 31 /\
  int16 "0b1" = Ok 177 /\
  int16 "" = Raise ValueError /\
  int16 "0x" = Raise ValueError /\
  int16 "0x__1f" = Raise ValueError /\
  int16 "_1f" = Raise ValueError /\
  int16 "1__f" = Raise ValueError /\
  int16 "1f_" = Raise ValueError /\
  int16 "- 1f" = Raise ValueError /\
  int16 "1 f" = Raise ValueError /\
  int16 (String "028" "1f") = Raise ValueError /\
  formatDiff "0x00000000ffff0000" = Ok (Some "1.10T"%string) /\
  formatDiff " ff_ff" = Ok (Some "281.48T"%string) /\
  formatDiff "-1" = Ok None /\
  formatDiff "-0x0" = Raise ZeroDivisionError.
Proof. vm_compute. repeat split. Qed.

(** The float model on values whose binary64 results are known: a
    quotient that is not representable, the two directions of a tie
    (ties go to the even significand), the dividend of [formatDiff], and
    the two-decimal text of values just below and exactly at a half. *)
Example RN_examples :
  F64.RN 1 3 = (6004799503160661 # 18014398509481984)%Q /\
  F64.RN (2 ^ 53 + 1) 1 = inject_Z (2 ^ 53) /\
  F64.RN (2 ^ 53 + 3) 1 = inject_Z (2 ^ 53 + 4) /\
  F64.RN (2 ^ 64 - 1) 1 = inject_Z (2 ^ 64) /\
  F64.format_2f (F64.RN 2675 1000) = "2.67"%string /\
  F64.format_2f (1 # 8) = "0.12"%string /\
  F64.format_2f (3 # 8) = "0.38"%string.
Proof. vm_compute. repeat split. Qed.

(** ** The BIP34 height *)

(** The byte-counting loop leaves by its own test within the fuel it is
    given, so the height fits the bytes it is then written on. *)
Lemma bytes_needed_loop_exit (fuel : nat) (h k : Z) :
  0 <= k -> h < 2 ^ (7 + 8 * (k + Z.of_nat fuel)) ->
  h <= 2 ^ (7 + 8 * bytes_needed_loop fuel h k) - 1 /\ k <= bytes_needed_loop fuel h k.
Proof.
  revert k. induction fuel as [|fuel IH]; intros k Hk Hlt; cbn [bytes_needed_loop].
  - destruct (Z.leb_spec h (2 ^ (7 + 8 * k) - 1)); [lia |].
    rewrite Z.add_0_r in Hlt. lia.
  - destruct (Z.leb_spec h (2 ^ (7 + 8 * k) - 1)); [lia |].
    destruct (IH (k + 1)) as [H1 H2]; [lia | |lia].
    replace (k + 1 + Z.of_nat fuel) with (k + Z.of_nat (S fuel)) by lia. exact Hlt.
Qed.

Lemma bip34_height_fits (h : Z) :
  0 <= h ->
  is_ok (to_bytes_little (Z.to_nat (bytes_needed_sub_1 h + 1)) h) = true.
Proof.
  intros Hh. unfold bytes_needed_sub_1.
  assert (Hlt : h < 2 ^ (7 + 8 * (0 + Z.of_nat (Z.to_nat (Z.log2 h))))).
  { destruct (Z.eq_dec h 0) as [->|Hne]; [reflexivity |].
    pose proof (Z.log2_nonneg h). rewrite Z2Nat.id by lia.
    apply Z.lt_le_trans with (2 ^ (Z.succ (Z.log2 h))).
    - apply Z.log2_spec. lia.
    - apply Z.pow_le_mono_r; lia. }
  destruct (bytes_needed_loop_exit _ h 0 (Z.le_refl 0) Hlt) as [Hexit Hk].
  set (k := bytes_needed_loop _ h 0) in *.
  unfold to_bytes_little.
  destruct (Z.ltb_spec h 0); [lia |]. cbn [orb].
  rewrite Z2Nat.id by lia.
  replace (256 ^ (k + 1)) with (2 ^ (8 * (k + 1))).
  - assert (2 ^ (7 + 8 * k) < 2 ^ (8 * (k + 1))) by (apply Z.pow_lt_mono_r; lia).
    destruct (Z.leb_spec (2 ^ (8 * (k + 1))) h); [lia | reflexivity].
  - change 256 with (2 ^ 8). rewrite <- Z.pow_mul_r by lia. reflexivity.
Qed.

(** ** The seed hash *)

Lemma read_template_ok (t : template) (w : World) (prev : bytes) :
  fromhex (prev_hash_hex t) = Ok prev ->
  exists new_witness w',
    read_template t w = (Ok new_witness, w') /\
    seedHash (state w') = seedHash (state w) /\
    height (state w') = height (state w).
Proof.
  intros Hprev. unfold read_template, bind, get, update, lift, ret.
  rewrite Hprev. simpl. eauto.
Qed.

Lemma rebuild_keeps_seedHash (drop_after : Z) (show_jobs : bool) (t : template) (ts : Z)
    (original : option TemplateState) :
  keeps (fun w => seedHash (state w)) (rebuild drop_after show_jobs t ts original).
Proof.
  unfold rebuild, send_job. keeps_tac.
  apply (keeps_compose state seedHash), push_old_state_keeps_state.
Qed.

Lemma welcome_keeps_state (t : template) : keeps state (welcome_new_sessions t).
Proof. unfold welcome_new_sessions, send_job. keeps_tac. Qed.

Lemma bind_get {A} (k : World -> M A) (w : World) : bind get k w = k w w.
Proof. reflexivity. Qed.

Lemma new_block_update_bind {A} (t : template) (k : option TemplateState -> M A)
    (w : World) :
  bind (new_block_update t) k w =
  if (height (state w) =? -1) || negb (height (state w) =? height_int t)
  then k (Some (state w))
         (with_state (set_height (height_int t))
            (with_state (generate_seed_hash (height_int t)) w))
  else k None w.
Proof.
  unfold new_block_update, bind, get, update, ret.
  destruct ((height (state w) =? -1) || negb (height (state w) =? height_int t));
    reflexivity.
Qed.

Lemma generate_seed_hash_seedHash (h : Z) (st st' : TemplateState) :
  height st' = height st -> seedHash st' = seedHash st ->
  seedHash (generate_seed_hash h st') = seedHash (generate_seed_hash h st).
Proof.
  intros Hh Hs. unfold generate_seed_hash. rewrite Hh, Hs.
  repeat match goal with
         | |- context [if ?b then _ else _] => destruct b
         | |- context [match ?x with _ => _ end] => destruct x eqn:?
         end; simpl; congruence.
Qed.

(** The seed hash after the [try] block, for a template that could be
    read: the seed-hash block runs exactly when the height is new, and
    nothing later in the tick assigns the seed hash, whether the rebuild
    succeeds or raises. *)
Lemma refresh_seedHash (drop_after : Z) (show_jobs : bool) (t : template) (ts : Z)
    (w : World) :
  is_ok (fromhex (prev_hash_hex t)) = true ->
  seedHash (state (snd (refresh drop_after show_jobs t ts w))) =
  if (height (state w) =? -1) || negb (height (state w) =? height_int t)
  then seedHash (generate_seed_hash (height_int t) (state w))
  else seedHash (state w).
Proof.
  intros Hprev.
  destruct (fromhex (prev_hash_hex t)) as [prev|] eqn:Hfrom; [| discriminate].
  destruct (read_template_ok t w prev Hfrom) as (nw & w1 & Hread & Hseed1 & Hheight1).
  assert (Hrest : forall (original : option TemplateState) (b : bool),
             keeps (fun w => seedHash (state w))
                   (when b (rebuild drop_after show_jobs t ts original) ;;;
                    welcome_new_sessions t)%proxy).
  { intros original b. apply keeps_bind.
    - apply keeps_when, rebuild_keeps_seedHash.
    - intros _. apply (keeps_compose state seedHash), welcome_keeps_state. }
  unfold refresh. unfold bind at 1. rewrite Hread.
  rewrite new_block_update_bind, Hheight1.
  destruct ((height (state w) =? -1) || negb (height (state w) =? height_int t));
    rewrite bind_get, Hrest.
  - cbn [state with_state]. 
    destruct (generate_seed_hash_cases (height_int t) (state w1)) as [s Hs].
    rewrite <- (generate_seed_hash_seedHash (height_int t) (state w) (state w1))
      by assumption.
    rewrite Hs. reflexivity.
  - exact Hseed1.
Qed.

Lemma stateUpdater_seedHash (drop_after : Z) (show_jobs : bool) (t : template) (ts : Z)
    (w : World) :
  truthy (pub_h160 (state w)) = true ->
  is_ok (fromhex (prev_hash_hex t)) = true ->
  seedHash (state (stateUpdater drop_after show_jobs (reply_template t) ts w)) =
  if (height (state w) =? -1) || negb (height (state w) =? height_int t)
  then seedHash (generate_seed_hash (height_int t) (state w))
  else seedHash (state w).
Proof.
  intros Hpub Hprev. unfold stateUpdater. rewrite Hpub. cbn [negb].
  rewrite <- (refresh_seedHash drop_after show_jobs t ts w Hprev).
  destruct (refresh drop_after show_jobs t ts w) as [[u|e] w']; reflexivity.
Qed.

(** C2: on a reorganization, a template whose height is strictly below
    the height of an initialized state (one whose height is not -1),
    the tick recomputes the seed hash from 32 zero bytes with
    floor(new height / 7500) applications of Keccak-256 exactly when
    [state.height % 7500 - (state.height - new height) < 0], and leaves
    it unchanged otherwise. *)
Theorem reorg_seed_hash (drop_after : Z) (show_jobs : bool) (t : template) (ts : Z)
    (w : World) :
  truthy (pub_h160 (state w)) = true ->
  is_ok (fromhex (prev_hash_hex t)) = true ->
  height (state w) <> -1 -> height_int t < height (state w) ->
  seedHash (state (stateUpdater drop_after show_jobs (reply_template t) ts w)) =
  if height (state w) mod 7500 - (height (state w) - height_int t) <? 0
  then Some (Nat.iter (Z.to_nat (height_int t / 7500)) Keccak.keccak_256 (zeros 32))
  else seedHash (state w).
Proof.
  intros Hpub Hprev Hinit Hlt. rewrite stateUpdater_seedHash by assumption.
  destruct (Z.eqb_spec (height (state w)) (-1)) as [Heq|_]; [contradiction |].
  destruct (Z.eqb_spec (height (state w)) (height_int t)) as [Heq|_]; [lia |].
  cbn [orb negb]. unfold generate_seed_hash, KAWPOW_EPOCH_LENGTH.
  destruct (Z.eqb_spec (height (state w)) (-1)) as [Heq|_]; [contradiction |].
  destruct (Z.ltb_spec (height (state w)) (height_int t)) as [Hup|_]; [lia |].
  destruct (Z.ltb_spec (height_int t) (height (state w))) as [_|Hge]; [| lia].
  cbn [orb].
  destruct (height (state w) mod 7500 - (height (state w) - height_int t) <? 0);
    reflexivity.
Qed.

(** The two reorganizations of scenario S3: from 7510 to 7505 the seed
    stays, from 7502 to 7498 it goes back to 32 zero bytes. *)
Lemma reorg_seed_hash_witness :
  seedHash (state (stateUpdater store true (reply_template (sample_template 7505))
                     1700000000
                     (authorized_world 7510 (Some (Keccak.keccak_256 (zeros 32))))))
  = Some (Keccak.keccak_256 (zeros 32)) /\
  seedHash (state (stateUpdater store true (reply_template (sample_template 7498))
                     1700000000
                     (authorized_world 7502 (Some (Keccak.keccak_256 (zeros 32))))))
  = Some (zeros 32).
Proof.
  split.
  - rewrite reorg_seed_hash; vm_compute; congruence.
  - rewrite reorg_seed_hash; vm_compute; congruence.
Defined.

(** C1: when the seed hash is first initialized, at a template of
    height [h], it is Keccak-256 applied floor(h / 7500) times to 32
    zero bytes: 32 zero bytes at height 0, two applications at height
    15000.  The second half of the claim fails on the code: a tick that
    takes the state from height 7499 into the epoch that starts at
    height 7500 leaves the seed at 32 zero bytes, because the branch
    tests the height it leaves, not the one it enters; the seed becomes
    Keccak-256 of 32 zero bytes one block later, on the tick from 7500
    to 7501, while a proxy started at height 7500 has it at once. *)
Theorem seed_hash_initialization_and_epoch_lag :
  (forall drop_after show_jobs t ts w,
     truthy (pub_h160 (state w)) = true ->
     is_ok (fromhex (prev_hash_hex t)) = true ->
     truthy (seedHash (state w)) = false ->
     height (state w) = -1 \/ height (state w) < height_int t ->
     seedHash (state (stateUpdater drop_after show_jobs (reply_template t) ts w))
     = Some (Nat.iter (Z.to_nat (height_int t / 7500)) Keccak.keccak_256 (zeros 32))) /\
  seedHash (state (stateUpdater store true (reply_template (sample_template 7500))
                     1700000000 (authorized_world 7499 (Some (zeros 32)))))
  = Some (zeros 32) /\
  zeros 32 <> Keccak.keccak_256 (zeros 32) /\
  seedHash (state (stateUpdater store true (reply_template (sample_template 7501))
                     1700000000 (authorized_world 7500 (Some (zeros 32)))))
  = Some (Keccak.keccak_256 (zeros 32)) /\
  seedHash (state (stateUpdater store true (reply_template (sample_template 7500))
                     1700000000 (authorized_world (-1) None)))
  = Some (Keccak.keccak_256 (zeros 32)).
Proof.
  split; [| repeat split; vm_compute; congruence].
  intros drop_after show_jobs t ts w Hpub Hprev Hseed Hheight.
  rewrite stateUpdater_seedHash by assumption.
  assert (Hnew : (height (state w) =? -1) || negb (height (state w) =? height_int t)
                 = true).
  { destruct (Z.eqb_spec (height (state w)) (-1)); [reflexivity |].
    destruct (Z.eqb_spec (height (state w)) (height_int t)); [lia | reflexivity]. }
  rewrite Hnew. unfold generate_seed_hash.
  assert (Hup : (height (state w) =? -1) || (height (state w) <? height_int t) = true).
  { destruct (Z.eqb_spec (height (state w)) (-1)); [reflexivity |].
    destruct (Z.ltb_spec (height (state w)) (height_int t)); [reflexivity | lia]. }
  rewrite Hup.
  destruct (seedHash (state w)) as [[|b seed]|]; try discriminate; reflexivity.
Qed.

Lemma seed_hash_initialization_and_epoch_lag_witness :
  seedHash (state (stateUpdater store true (reply_template (sample_template 0))
                     1700000000 (authorized_world (-1) None)))
  = Some (zeros 32) /\
  seedHash (state (stateUpdater store true (reply_template (sample_template 15000))
                     1700000000 (authorized_world (-1) None)))
  = Some (Keccak.keccak_256 (Keccak.keccak_256 (zeros 32))).
Proof.
  destruct seed_hash_initialization_and_epoch_lag as [Hinit _].
  split.
  - rewrite Hinit; vm_compute; auto.
  - rewrite Hinit; vm_compute; auto.
Defined.

(* ===================================================================== *)
(** * Further properties of the source                                    *)
(* ===================================================================== *)

(** ** var_int and op_push *)

Lemma to_bytes_little_ok (n : nat) (z : Z) :
  0 <= z < 256 ^ Z.of_nat n -> to_bytes_little n z = Ok (le_bytes n z).
Proof.
  intros H. unfold to_bytes_little.
  destruct (Z.ltb_spec z 0), (Z.leb_spec (256 ^ Z.of_nat n) z); try lia. reflexivity.
Qed.

Lemma to_bytes_little_overflow (n : nat) (z : Z) :
  z < 0 \/ 256 ^ Z.of_nat n <= z -> to_bytes_little n z = Raise OverflowError.
Proof.
  intros H. unfold to_bytes_little.
  destruct (Z.ltb_spec z 0), (Z.leb_spec (256 ^ Z.of_nat n) z); try lia; reflexivity.
Qed.

Lemma le_bytes_inj (n : nat) (a b : Z) :
  0 <= a < 256 ^ Z.of_nat n -> 0 <= b < 256 ^ Z.of_nat n ->
  le_bytes n a = le_bytes n b -> a = b.
Proof.
  intros Ha Hb H. apply (f_equal from_bytes_little) in H.
  rewrite !from_bytes_le_bytes in H. rewrite !Z.mod_small in H; lia.
Qed.

(** Two byte strings of the same length that start two equal
    concatenations are equal, and so are the rests. *)
Lemma app_same_length (a b r1 r2 : bytes) :
  length a = length b -> a ++ r1 = b ++ r2 -> a = b /\ r1 = r2.
Proof.
  revert b. induction a as [|x a IH]; intros [|y b] Hlen H; simpl in *;
    try discriminate; [auto |].
  injection H as -> H. destruct (IH b) as [-> ->]; auto.
Qed.

(** The CompactSize encoding, case by case. *)
Lemma var_int_cases (i : Z) :
  (i < 0 /\ var_int i = Raise AssertionError) \/
  (0 <= i < 253 /\ var_int i = Ok (le_bytes 1 i)) \/
  (253 <= i <= 65535 /\ var_int i = Ok (xfd :: le_bytes 2 i)) \/
  (65536 <= i <= 4294967295 /\ var_int i = Ok (xfe :: le_bytes 4 i)) \/
  (4294967296 <= i < 2 ^ 64 /\ var_int i = Ok (xff :: le_bytes 8 i)) \/
  (2 ^ 64 <= i /\ var_int i = Raise OverflowError).
Proof.
  unfold var_int.
  destruct (Z.ltb_spec i 0); [left; auto |]. right.
  destruct (Z.ltb_spec i 253).
  { left. split; [lia |]. apply to_bytes_little_ok. simpl. lia. }
  right. destruct (Z.leb_spec i 65535).
  { left. split; [lia |]. rewrite to_bytes_little_ok by (simpl; lia). reflexivity. }
  right. destruct (Z.leb_spec i 4294967295).
  { left. split; [lia |]. rewrite to_bytes_little_ok by (simpl; lia). reflexivity. }
  right. destruct (Z_lt_le_dec i (2 ^ 64)).
  - left. split; [lia |].
    rewrite to_bytes_little_ok by (change (256 ^ Z.of_nat 8) with (2 ^ 64); lia).
    reflexivity.
  - right. split; [lia |].
    rewrite to_bytes_little_overflow by (change (256 ^ Z.of_nat 8) with (2 ^ 64); lia).
    reflexivity.
Qed.

(** X1: [var_int] raises [AssertionError] below zero and [OverflowError]
    from 2^64 on; in between it returns 1, 3, 5 or 9 bytes, by the size
    of the number. *)
Theorem var_int_domain (i : Z) :
  (i < 0 -> var_int i = Raise AssertionError) /\
  (2 ^ 64 <= i -> var_int i = Raise OverflowError) /\
  (0 <= i < 2 ^ 64 ->
   exists b, var_int i = Ok b /\
             length b = if i <? 253 then 1%nat
                        else if i <=? 65535 then 3%nat
                        else if i <=? 4294967295 then 5%nat else 9%nat).
Proof.
  destruct (var_int_cases i) as [[H E]|[[H E]|[[H E]|[[H E]|[[H E]|[H E]]]]]];
    (split; [intros; try lia; exact E |]); (split; [intros; try lia; exact E |]);
    intros Hi; try lia; eexists; (split; [exact E |]);
    repeat match goal with
           | |- context [?a <? ?b] => destruct (Z.ltb_spec a b); try lia
           | |- context [?a <=? ?b] => destruct (Z.leb_spec a b); try lia
           end; reflexivity.
Qed.

Lemma var_int_domain_witness :
  var_int (-1) = Raise AssertionError /\
  var_int (2 ^ 64) = Raise OverflowError /\
  exists b, var_int 65536 = Ok b /\ length b = 5%nat.
Proof.
  destruct (var_int_domain (-1)) as [Hneg _].
  destruct (var_int_domain (2 ^ 64)) as (_ & Hbig & _).
  destruct (var_int_domain 65536) as (_ & _ & Hmid).
  split; [apply Hneg; lia |]. split; [apply Hbig; lia |].
  apply Hmid. lia.
Defined.

Lemma Z_of_byte_range (b : byte) : 0 <= Z_of_byte b < 256.
Proof.
  unfold Z_of_byte. pose proof (Byte.to_N_bounded b) as H. lia.
Qed.

Lemma le_bytes_1 (i : Z) : le_bytes 1 i = [byte_of_Z i].
Proof. reflexivity. Qed.

(** The first byte of a CompactSize tells its class. *)
Lemma var_int_head (i : Z) (b : bytes) :
  var_int i = Ok b ->
  exists x t, b = x :: t /\
    (if i <? 253 then Z_of_byte x = i /\ t = []
     else if i <=? 65535 then x = xfd /\ t = le_bytes 2 i
     else if i <=? 4294967295 then x = xfe /\ t = le_bytes 4 i
     else x = xff /\ t = le_bytes 8 i) /\
    0 <= i < 2 ^ 64.
Proof.
  intros Hb.
  destruct (var_int_cases i) as [[H E]|[[H E]|[[H E]|[[H E]|[[H E]|[H E]]]]]];
    rewrite E in Hb; try discriminate; injection Hb as <-;
    repeat match goal with
           | |- context [?a <? ?b] => destruct (Z.ltb_spec a b); try lia
           | |- context [?a <=? ?b] => destruct (Z.leb_spec a b); try lia
           end.
  - exists (byte_of_Z i), []. repeat split; try lia.
    rewrite Z_of_byte_of_Z. apply Z.mod_small. lia.
  - eexists _, _. repeat split; lia.
  - eexists _, _. repeat split; lia.
  - eexists _, _. repeat split; lia.
Qed.

(** X2: a CompactSize can be read back: two numbers whose encodings
    start the same byte string are equal, and so is what follows
    them. *)
Theorem var_int_prefix_free (i j : Z) (a b r1 r2 : bytes) :
  var_int i = Ok a -> var_int j = Ok b -> a ++ r1 = b ++ r2 ->
  i = j /\ r1 = r2.
Proof.
  intros Ha Hb H.
  destruct (var_int_head _ _ Ha) as (x & ta & -> & Hx & Hi).
  destruct (var_int_head _ _ Hb) as (y & tb & -> & Hy & Hj).
  simpl in H. injection H as <- H.
  pose proof (Z_of_byte_range x) as Hr.
  assert (Z_of_byte xfd = 253 /\ Z_of_byte xfe = 254 /\ Z_of_byte xff = 255)
    as (Hfd & Hfe & Hff) by (repeat split; reflexivity).
  destruct (Z.ltb_spec i 253); [|destruct (Z.leb_spec i 65535);
                                  [|destruct (Z.leb_spec i 4294967295)]];
  (destruct (Z.ltb_spec j 253); [|destruct (Z.leb_spec j 65535);
                                  [|destruct (Z.leb_spec j 4294967295)]]);
  destruct Hx as [Hx ->], Hy as [Hy ->]; subst;
  try (exfalso; congruence); try (exfalso; lia).
  - simpl in H. split; [congruence | assumption].
  - destruct (app_same_length (le_bytes 2 i) (le_bytes 2 j) r1 r2 eq_refl H) as [E ->].
    split; [| reflexivity]. apply (le_bytes_inj 2); [simpl; lia | simpl; lia | exact E].
  - destruct (app_same_length (le_bytes 4 i) (le_bytes 4 j) r1 r2 eq_refl H) as [E ->].
    split; [| reflexivity]. apply (le_bytes_inj 4); [simpl; lia | simpl; lia | exact E].
  - destruct (app_same_length (le_bytes 8 i) (le_bytes 8 j) r1 r2 eq_refl H) as [E ->].
    split; [| reflexivity]. apply (le_bytes_inj 8);
      [change (256 ^ Z.of_nat 8) with (2 ^ 64); lia
      |change (256 ^ Z.of_nat 8) with (2 ^ 64); lia | exact E].
Qed.

Lemma var_int_prefix_free_witness :
  252 = 252 /\ [x01] = [x01].
Proof.
  apply (var_int_prefix_free 252 252 [xfc] [xfc] [x01] [x01]); reflexivity.
Defined.

(** The script push opcode, case by case. *)
Lemma op_push_cases (i : Z) :
  (i < 0 /\ op_push i = Raise OverflowError) \/
  (0 <= i < 76 /\ op_push i = Ok [byte_of_Z i]) \/
  (76 <= i <= 255 /\ op_push i = Ok [x4c; byte_of_Z i]) \/
  (256 <= i <= 65535 /\ op_push i = Ok (x4d :: le_bytes 2 i)) \/
  (65536 <= i < 2 ^ 32 /\ op_push i = Ok (x4e :: le_bytes 4 i)) \/
  (2 ^ 32 <= i /\ op_push i = Raise OverflowError).
Proof.
  unfold op_push.
  destruct (Z.ltb_spec i 76).
  { destruct (Z_lt_le_dec i 0).
    - left. split; [lia |]. apply to_bytes_little_overflow. lia.
    - right. left. split; [lia |]. rewrite to_bytes_little_ok by (simpl; lia).
      reflexivity. }
  right. right. destruct (Z.leb_spec i 255).
  { left. split; [lia |]. rewrite to_bytes_little_ok by (simpl; lia). reflexivity. }
  right. destruct (Z.leb_spec i 65535).
  { left. split; [lia |]. rewrite to_bytes_little_ok by (simpl; lia). reflexivity. }
  right. destruct (Z_lt_le_dec i (2 ^ 32)).
  - left. split; [lia |].
    rewrite to_bytes_little_ok by (change (256 ^ Z.of_nat 4) with (2 ^ 32); lia).
    reflexivity.
  - right. split; [lia |].
    rewrite to_bytes_little_overflow by (change (256 ^ Z.of_nat 4) with (2 ^ 32); lia).
    reflexivity.
Qed.

(** X3: [op_push] accepts exactly the lengths from 0 to 2^32-1, and
    raises [OverflowError] outside; below 76 the push is the length
    byte itself, above it one of the opcodes 0x4c, 0x4d and 0x4e
    followed by the length in 1, 2 and 4 bytes. *)
Theorem op_push_domain (i : Z) :
  (i < 0 \/ 2 ^ 32 <= i -> op_push i = Raise OverflowError) /\
  (0 <= i < 2 ^ 32 ->
   exists b, op_push i = Ok b /\
     length b = (if i <? 76 then 1%nat else if i <=? 255 then 2%nat
                 else if i <=? 65535 then 3%nat else 5%nat) /\
     (i < 76 -> from_bytes_little b = i) /\
     (76 <= i -> from_bytes_little (tail b) = i /\
                 head b = Some (if i <=? 255 then x4c
                                else if i <=? 65535 then x4d else x4e))).
Proof.
  destruct (op_push_cases i) as [[H E]|[[H E]|[[H E]|[[H E]|[[H E]|[H E]]]]]];
    (split; [intros; try lia; exact E |]);
    intros Hi; try lia; eexists; (split; [exact E |]);
    repeat match goal with
           | |- context [?a <? ?b] => destruct (Z.ltb_spec a b); try lia
           | |- context [?a <=? ?b] => destruct (Z.leb_spec a b); try lia
           end;
    (split; [reflexivity |]); (split; [intros; try lia | intros; try lia]).
  - change [byte_of_Z i] with (le_bytes 1 i). rewrite from_bytes_le_bytes.
    apply Z.mod_small. simpl. lia.
  - split; [| reflexivity]. cbn [tail].
    change [byte_of_Z i] with (le_bytes 1 i). rewrite from_bytes_le_bytes.
    apply Z.mod_small. simpl. lia.
  - split; [| reflexivity]. cbn [tail]. rewrite from_bytes_le_bytes.
    apply Z.mod_small. simpl. lia.
  - split; [| reflexivity]. cbn [tail]. rewrite from_bytes_le_bytes.
    apply Z.mod_small. change (256 ^ Z.of_nat 4) with (2 ^ 32). lia.
Qed.

Lemma op_push_domain_witness :
  op_push (-1) = Raise OverflowError /\
  exists b, op_push 300 = Ok b /\ length b = 3%nat /\
            (300 < 76 -> from_bytes_little b = 300) /\
            (76 <= 300 -> from_bytes_little (tail b) = 300 /\ head b = Some x4d).
Proof.
  destruct (op_push_domain (-1)) as [Hout _].
  destruct (op_push_domain 300) as [_ Hin].
  split; [apply Hout; lia | apply Hin; lia].
Defined.

(** ** Hexadecimal text read back *)

Lemma fromhex_pair (x : byte) (s : string) :
  fromhex (String (hex_digit (Byte.to_N x / 16))
                  (String (hex_digit (Byte.to_N x mod 16)) s)) =
  rbind (fromhex s) (fun r => Ok (x :: r)).
Proof. destruct x; reflexivity. Qed.

Lemma fromhex_hex (b : bytes) : fromhex (hex b) = Ok b.
Proof.
  induction b as [|x b IH]; [reflexivity |].
  cbn [hex]. rewrite fromhex_pair, IH. reflexivity.
Qed.

(** Text that [bytes.fromhex] accepts does not start with [0x]. *)
Lemma fromhex_no_prefix (h : string) (b : bytes) :
  fromhex h = Ok b -> prune0x h = h.
Proof.
  intros H. unfold prune0x, startswith.
  destruct h as [|c [|d r]]; try reflexivity.
  - cbn [String.prefix]. destruct (ascii_dec "0" c); reflexivity.
  - cbn [String.prefix].
    destruct (ascii_dec "0" c) as [<- |Hc]; [| reflexivity].
    destruct (ascii_dec "x" d) as [<- |Hd]; [| reflexivity].
    exfalso. cbn in H. discriminate.
Qed.

Lemma prune0x_prefixed (h : string) :
  prune0x (String "0" (String "x" h)) = h.
Proof.
  unfold prune0x, startswith. cbn [String.prefix].
  destruct (ascii_dec "0" "0"); [| congruence].
  destruct (ascii_dec "x" "x"); [| congruence].
  destruct h; reflexivity.
Qed.

(** X4: the nonce and the mix hash of a submit are turned round byte by
    byte: for text that [bytes.fromhex] reads as the bytes [b], with or
    without a leading [0x], the result is the lower-case hexadecimal text
    of [b] reversed, and turning that round again gives the text of
    [b]. *)
Theorem reverse_hex_reverses (h : string) (b : bytes) :
  fromhex h = Ok b ->
  reverse_hex h = Ok (hex (rev b)) /\
  reverse_hex (String "0" (String "x" h)) = Ok (hex (rev b)) /\
  rbind (reverse_hex h) reverse_hex = Ok (hex b).
Proof.
  intros H.
  assert (E : reverse_hex h = Ok (hex (rev b))).
  { unfold reverse_hex. rewrite (fromhex_no_prefix h b H), H. reflexivity. }
  split; [exact E |]. split.
  - unfold reverse_hex. rewrite prune0x_prefixed, H. reflexivity.
  - rewrite E. cbn [rbind]. unfold reverse_hex.
    rewrite (fromhex_no_prefix _ _ (fromhex_hex (rev b))), fromhex_hex.
    cbn [rbind]. unfold reversed. now rewrite rev_involutive.
Qed.

Lemma reverse_hex_reverses_witness :
  reverse_hex "0A ff10" = Ok "10ff0a"%string /\
  reverse_hex "0x0A ff10" = Ok "10ff0a"%string /\
  rbind (reverse_hex "0A ff10") reverse_hex = Ok "0aff10"%string.
Proof.
  apply (reverse_hex_reverses "0A ff10" [x0a; xff; x10]). reflexivity.
Defined.

(** ** Job ids *)

Lemma hex_value_hex_digit (d : N) :
  (d < 16)%N -> hex_value (hex_digit d) = Some d.
Proof.
  intros H.
  assert (Hd : In d (map N.of_nat (seq 0 16))).
  { apply List.in_map_iff. exists (N.to_nat d). split; [lia |].
    apply List.in_seq. lia. }
  simpl in Hd. repeat destruct Hd as [<- | Hd]; try reflexivity. destruct Hd.
Qed.

Lemma int16_acc_digits_pos (fuel : nat) (n : N) (acc : string) (prev : bool) :
  (n < 16 ^ N.of_nat fuel)%N -> (0 < fuel)%nat ->
  int16_acc (digits_pos 16 fuel n acc) prev 0%N = int16_acc acc true n.
Proof.
  revert n acc prev. induction fuel as [|f IH]; intros n acc prev Hn Hf; [lia |].
  cbn [digits_pos].
  assert (Hmod : (n mod 16 < 16)%N) by (apply N.mod_lt; discriminate).
  pose proof (N.div_mod n 16 ltac:(discriminate)) as Hdm.
  destruct (N.eqb_spec (n / 16) 0%N) as [Hz|Hnz].
  - cbn [int16_acc]. rewrite hex_value_hex_digit by exact Hmod.
    f_equal. lia.
  - assert (Hq : (n / 16 < 16 ^ N.of_nat f)%N).
    { apply N.Div0.div_lt_upper_bound.
      rewrite Nat2N.inj_succ, N.pow_succ_r in Hn by lia. exact Hn. }
    assert (0 < f)%nat.
    { destruct f; [| lia]. simpl in Hq. lia. }
    rewrite IH by assumption.
    cbn [int16_acc]. rewrite hex_value_hex_digit by exact Hmod.
    f_equal. lia.
Qed.

Lemma log2_fuel (n : N) : (n < 16 ^ N.of_nat (S (N.to_nat (N.log2 n))))%N.
Proof.
  rewrite Nat2N.inj_succ, N2Nat.id.
  destruct (N.eq_dec n 0%N) as [-> |Hn]; [reflexivity |].
  pose proof (N.log2_spec n ltac:(lia)) as [_ Hlt].
  eapply N.lt_le_trans; [exact Hlt |].
  change 16%N with (2 ^ 4)%N. rewrite <- N.pow_mul_r.
  apply N.pow_le_mono_r; lia.
Qed.

(** A hexadecimal digit is no white space, no sign, no [x] and no
    underscore. *)
Lemma hex_value_plain (c : ascii) :
  hex_value c <> None ->
  is_int_space c = false /\ Ascii.eqb c "+" = false /\ Ascii.eqb c "-" = false /\
  Ascii.eqb c "x" = false /\ Ascii.eqb c "X" = false.
Proof.
  destruct c as [b0 b1 b2 b3 b4 b5 b6 b7].
  destruct b0, b1, b2, b3, b4, b5, b6, b7; intros H;
    first [exfalso; apply H; reflexivity | repeat split].
Qed.

Lemma digits_pos_hex (fuel : nat) (n : N) (acc : string) :
  Forall (fun c => hex_value c <> None) (list_ascii_of_string acc) ->
  Forall (fun c => hex_value c <> None)
         (list_ascii_of_string (digits_pos 16 fuel n acc)).
Proof.
  revert n acc. induction fuel as [|f IH]; intros n acc Hacc; [exact Hacc |].
  cbn [digits_pos].
  assert (Hc : Forall (fun c => hex_value c <> None)
                      (list_ascii_of_string (String (hex_digit (n mod 16)) acc))).
  { cbn [list_ascii_of_string]. constructor; [| exact Hacc].
    rewrite hex_value_hex_digit by (apply N.mod_lt; discriminate). discriminate. }
  destruct (n / 16 =? 0)%N; [exact Hc | apply IH, Hc].
Qed.

(** On hexadecimal digits alone [int(s, 16)] is the scan of the
    digits. *)
Lemma int16_plain (s : string) :
  Forall (fun c => hex_value c <> None) (list_ascii_of_string s) ->
  int16 s = match int16_acc s false 0%N with
            | Some n => Ok (Z.of_N n)
            | None => Raise ValueError
            end.
Proof.
  destruct s as [|c1 s]; [reflexivity |].
  cbn [list_ascii_of_string]. intros H. inversion H as [|? ? H1 Hs]; subst.
  destruct (hex_value_plain c1 H1) as (Hsp & Hplus & Hminus & _).
  unfold int16. cbn [skip_int_space]. rewrite Hsp.
  assert (Hsign : match String c1 s with
                  | String "+" r => (false, r)
                  | String "-" r => (true, r)
                  | _ => (false, String c1 s)
                  end = (false, String c1 s)).
  { destruct c1 as [b0 b1 b2 b3 b4 b5 b6 b7].
    destruct b0, b1, b2, b3, b4, b5, b6, b7; first [reflexivity | discriminate]. }
  rewrite Hsign.
  assert (Hprefix : match String c1 s with
                    | String "0" (String x r) =>
                        if Ascii.eqb x "x" || Ascii.eqb x "X"
                        then match r with String "_" r' => r' | _ => r end
                        else String c1 s
                    | _ => String c1 s
                    end = String c1 s).
  { destruct s as [|c2 s2].
    - destruct c1 as [b0 b1 b2 b3 b4 b5 b6 b7].
      destruct b0, b1, b2, b3, b4, b5, b6, b7; reflexivity.
    - inversion Hs as [|? ? H2 _]; subst.
      destruct (hex_value_plain c2 H2) as (_ & _ & _ & Hx & HX).
      destruct c1 as [b0 b1 b2 b3 b4 b5 b6 b7].
      destruct b0, b1, b2, b3, b4, b5, b6, b7; try reflexivity.
      rewrite Hx, HX. reflexivity. }
  rewrite Hprefix. reflexivity.
Qed.

Lemma int16_digits (n : N) : int16 (digits 16 n) = Ok (Z.of_N n).
Proof.
  rewrite int16_plain by (apply digits_pos_hex; constructor).
  unfold digits.
  rewrite (int16_acc_digits_pos (S (N.to_nat (N.log2 n))) n EmptyString false
             (log2_fuel n) ltac:(lia)).
  reflexivity.
Qed.

Lemma job_id_of_digits (c : Z) : 0 <= c -> job_id_of c = digits 16 (Z.to_N c).
Proof.
  intros H. unfold job_id_of, hex_int. destruct (Z.ltb_spec c 0); [lia | reflexivity].
Qed.

Lemma int16_job_id_of (c : Z) : 0 <= c -> int16 (job_id_of c) = Ok c.
Proof.
  intros Hc. rewrite job_id_of_digits, int16_digits by exact Hc. f_equal. lia.
Qed.

Lemma job_id_of_inj (a b : Z) :
  0 <= a -> 0 <= b -> job_id_of a = job_id_of b -> a = b.
Proof.
  intros Ha Hb E. pose proof (int16_job_id_of a Ha) as H1.
  rewrite E, (int16_job_id_of b Hb) in H1. congruence.
Qed.

(** X5: for a counter that is not negative, the job id is the counter in
    hexadecimal digits: [int(id, 16)] gives the counter back, so different
    counters have different job ids. *)
Theorem job_id_round_trip (a b : Z) :
  0 <= a -> 0 <= b ->
  int16 (job_id_of a) = Ok a /\ (job_id_of a = job_id_of b -> a = b).
Proof.
  intros Ha Hb. split; [now apply int16_job_id_of | now apply job_id_of_inj].
Qed.

Lemma job_id_round_trip_witness :
  int16 (job_id_of 255) = Ok 255 /\ (job_id_of 255 = job_id_of 255 -> 255 = 255).
Proof. apply (job_id_round_trip 255 255); lia. Defined.

(** ** The history queue read back *)

Lemma queue_wf_lookup (q : Queue) (id : string) :
  queue_wf q -> (id ∈ q_ids q <-> is_Some (q_map q !! id)).
Proof.
  intros [_ Hdom]. rewrite <- elem_of_dom, Hdom. now rewrite elem_of_list_to_set.
Qed.

Lemma lookup_add_fresh (q : Queue) (st : TemplateState) (drop_after : Z) :
  queue_wf q -> 1 <= drop_after ->
  job_id_of (job_counter st) ∉ q_ids q ->
  let q' := snd (add_old_state_to_queue q st drop_after) in
  lookup_old_state q' (job_id_of (job_counter st)) = Some st /\
  (forall key s, key <> job_id_of (job_counter st) ->
     lookup_old_state q' key = Some s -> lookup_old_state q key = Some s).
Proof.
  intros Hwf Hcap Hnin q'.
  destruct (add_old_state_to_queue_spec q st drop_after Hwf ltac:(lia))
    as (q1 & Hadd & _ & _ & _ & Hnew & _).
  unfold q'. rewrite Hadd. cbn [snd]. clear q'.
  destruct (Hnew Hnin) as (_ & Hmap & _).
  set (id := job_id_of (job_counter st)) in *.
  set (k := (length (q_ids q) + 1 - Z.to_nat drop_after)%nat) in *.
  assert (Hk : (k <= length (q_ids q))%nat) by (unfold k; lia).
  unfold lookup_old_state. split.
  - rewrite Hmap. rewrite take_app_le by exact Hk.
    case_decide as Hd.
    + exfalso. apply Hnin. rewrite <- (take_drop k (q_ids q)).
      apply elem_of_app. now left.
    + apply lookup_insert_eq.
  - intros key s Hne. rewrite Hmap. case_decide; [discriminate |].
    rewrite lookup_insert_ne by congruence. auto.
Qed.

(** X6: on a queue as the refresher builds it and with room for at least
    one entry, a snapshot can be looked up under its job id right after
    [add_old_state_to_queue]: it is the snapshot just given if the id was
    new, and the one stored before if the id was present (the first
    snapshot of a job id wins).  The insertion adds no other entry. *)
Theorem lookup_after_add (q : Queue) (st : TemplateState) (drop_after : Z) :
  queue_wf q -> 1 <= drop_after ->
  let q' := snd (add_old_state_to_queue q st drop_after) in
  let id := job_id_of (job_counter st) in
  lookup_old_state q' id =
    Some (match lookup_old_state q id with Some old => old | None => st end) /\
  (forall key s, key <> id ->
     lookup_old_state q' key = Some s -> lookup_old_state q key = Some s).
Proof.
  intros Hwf Hcap q' id.
  destruct (lookup_old_state q id) as [old|] eqn:Hlook.
  - unfold q', add_old_state_to_queue. fold id.
    unfold lookup_old_state in Hlook. rewrite Hlook. cbn [snd]. auto.
  - apply lookup_add_fresh; [exact Hwf | exact Hcap |].
    intros Hin. apply (queue_wf_lookup q _ Hwf) in Hin as [? Hin].
    unfold lookup_old_state in Hlook. fold id in Hin. congruence.
Qed.

Lemma lookup_after_add_witness :
  lookup_old_state (snd (add_old_state_to_queue empty_queue initial_state 1))
                   (job_id_of (job_counter initial_state)) =
    Some (match lookup_old_state empty_queue (job_id_of (job_counter initial_state))
          with Some old => old | None => initial_state end) /\
  (forall key s, key <> job_id_of (job_counter initial_state) ->
     lookup_old_state (snd (add_old_state_to_queue empty_queue initial_state 1)) key
       = Some s ->
     lookup_old_state empty_queue key = Some s).
Proof.
  apply (lookup_after_add empty_queue initial_state 1); [apply queue_wf_empty | lia].
Defined.

(** ** The Merkle root and a repeated last id *)

Lemma merkle_while_step (txids : list bytes) :
  (1 < length txids)%nat ->
  merkle_while txids = merkle_while (hash_pairs (txids ++ [last_txid txids])).
Proof.
  intros H. funelim (merkle_while txids); [lia | reflexivity].
Qed.

Lemma last_txid_app (txids : list bytes) (x : bytes) : last_txid (txids ++ [x]) = x.
Proof. unfold last_txid. apply List.last_last. Qed.

Lemma merkle_from_txids_while (txids : list bytes) :
  (2 <= length txids)%nat ->
  merkle_from_txids txids =
  match merkle_while txids with x :: _ => Ok x | [] => Raise IndexError end.
Proof.
  destruct txids as [|a [|b rest]]; simpl; intros H; try lia. reflexivity.
Qed.

(** X7: the root does not tell a list of odd length (three ids or more)
    from the same list with its last id repeated: the loop appends that
    copy itself. *)
Theorem merkle_from_txids_repeated_last (txids : list bytes) :
  Nat.odd (length txids) = true -> (3 <= length txids)%nat ->
  merkle_from_txids (txids ++ [last_txid txids]) = merkle_from_txids txids.
Proof.
  intros Hodd Hlen.
  rewrite !merkle_from_txids_while by (rewrite ?length_app; simpl; lia).
  rewrite (merkle_while_step txids) by lia.
  rewrite (merkle_while_step (txids ++ _)) by (rewrite length_app; simpl; lia).
  rewrite last_txid_app.
  rewrite (hash_pairs_app_even (txids ++ [last_txid txids])); [reflexivity |].
  rewrite length_app, Nat.add_1_r, Nat.even_succ. exact Hodd.
Qed.

Lemma merkle_from_txids_repeated_last_witness :
  merkle_from_txids ([zeros 32; repeat x01 32; repeat x02 32] ++
                     [last_txid [zeros 32; repeat x01 32; repeat x02 32]]) =
  merkle_from_txids [zeros 32; repeat x01 32; repeat x02 32].
Proof.
  apply (merkle_from_txids_repeated_last [zeros 32; repeat x01 32; repeat x02 32]).
  - reflexivity.
  - simpl. lia.
Defined.

(** ** The BIP34 height, continued *)

Lemma bytes_needed_loop_least (fuel : nat) (h k : Z) :
  0 <= k ->
  k < bytes_needed_loop fuel h k ->
  2 ^ (7 + 8 * (bytes_needed_loop fuel h k - 1)) <= h.
Proof.
  revert k. induction fuel as [|fuel IH]; intros k Hk; cbn [bytes_needed_loop].
  - destruct (Z.leb_spec h (2 ^ (7 + 8 * k) - 1)); lia.
  - destruct (Z.leb_spec h (2 ^ (7 + 8 * k) - 1)) as [|Hgt]; [lia |].
    intros Hlt.
    destruct (Z.eq_dec (bytes_needed_loop fuel h (k + 1)) (k + 1)) as [E|E].
    + rewrite E. replace (k + 1 - 1) with k by lia. lia.
    + apply IH; [lia |].
      assert (k + 1 <= bytes_needed_loop fuel h (k + 1)); [| lia].
      clear -Hk. revert k Hk. induction fuel as [|fuel IH]; intros k Hk;
        cbn [bytes_needed_loop];
        destruct (Z.leb_spec h (2 ^ (7 + 8 * (k + 1)) - 1)); try lia.
      specialize (IH (k + 1)). lia.
Qed.

Lemma log2_fuel_Z (h : Z) :
  0 <= h -> h < 2 ^ (7 + 8 * (0 + Z.of_nat (Z.to_nat (Z.log2 h)))).
Proof.
  intros Hh. destruct (Z.eq_dec h 0) as [->|Hne]; [reflexivity |].
  pose proof (Z.log2_nonneg h). rewrite Z2Nat.id by lia.
  apply Z.lt_le_trans with (2 ^ (Z.succ (Z.log2 h))).
  - apply Z.log2_spec. lia.
  - apply Z.pow_le_mono_r; lia.
Qed.

(** X8: for a height that is not negative, the byte-counting loop of the
    coinbase stops at the least [k] with [height <= 2^(7+8k) - 1]: the
    height is then written on [k+1] bytes, little-endian, never raises,
    reads back as the height, and its top bit is clear (a positive script
    number of least length). *)
Theorem bip34_height_least (h : Z) :
  0 <= h ->
  let k := bytes_needed_sub_1 h in
  0 <= k /\ h < 2 ^ (7 + 8 * k) /\ (0 < k -> 2 ^ (7 + 8 * (k - 1)) <= h) /\
  exists b, to_bytes_little (Z.to_nat (k + 1)) h = Ok b /\
            len b = k + 1 /\ from_bytes_little b = h.
Proof.
  intros Hh k.
  destruct (bytes_needed_loop_exit _ h 0 (Z.le_refl 0) (log2_fuel_Z h Hh))
    as [Hexit Hk].
  fold (bytes_needed_sub_1 h) in Hexit, Hk. fold k in Hexit, Hk.
  split; [exact Hk |]. split; [lia |]. split.
  - intros Hpos. apply (bytes_needed_loop_least _ h 0); [lia | exact Hpos].
  - assert (Hpow : 256 ^ Z.of_nat (Z.to_nat (k + 1)) = 2 ^ (8 * (k + 1))).
    { rewrite Z2Nat.id by lia. change 256 with (2 ^ 8).
      rewrite <- Z.pow_mul_r by lia. reflexivity. }
    assert (Hlt : 2 ^ (7 + 8 * k) < 2 ^ (8 * (k + 1)))
      by (apply Z.pow_lt_mono_r; lia).
    exists (le_bytes (Z.to_nat (k + 1)) h). split; [| split].
    + apply to_bytes_little_ok. lia.
    + unfold len. rewrite length_le_bytes. lia.
    + rewrite from_bytes_le_bytes. apply Z.mod_small. lia.
Qed.

Lemma bip34_height_least_witness :
  let k := bytes_needed_sub_1 32768 in
  0 <= k /\ 32768 < 2 ^ (7 + 8 * k) /\ (0 < k -> 2 ^ (7 + 8 * (k - 1)) <= 32768) /\
  exists b, to_bytes_little (Z.to_nat (k + 1)) 32768 = Ok b /\
            len b = k + 1 /\ from_bytes_little b = 32768.
Proof. apply (bip34_height_least 32768). lia. Defined.

(** ** What a submit does to the shared objects *)

Lemma submit_state_outbox (verbose : bool) (job_id : string) (w : World) :
  exists st w',
    submit_state verbose job_id w = (Ok st, w') /\
    posted w' = posted w /\ outbox w' = outbox w.
Proof.
  unfold submit_state, bind, get, when, update, ret.
  destruct (String.eqb job_id _); simpl; [eauto |].
  destruct verbose, (lookup_old_state (old_states w) job_id); simpl; eauto.
Qed.

(** What [handle_submit] appends to the blocks posted and to the
    notifications sent, by its outcome. *)
Lemma handle_submit_effects (self : session) (verbose : bool)
    (worker job_id nonce_hex header_hex mixhash_hex : string)
    (reply : submit_reply) (w : World) :
  let r := handle_submit self verbose worker job_id nonce_hex header_hex
                         mixhash_hex reply w in
  match fst r with
  | Ok _ =>
      exists block text,
        posted (snd r) = posted w ++ [block] /\
        outbox (snd r) = outbox w ++ [(self, client_show_message text)]
  | Raise _ =>
      (posted (snd r) = posted w \/ exists block, posted (snd r) = posted w ++ [block]) /\
      outbox (snd r) = outbox w
  end.
Proof.
  intros r. unfold r, handle_submit.
  destruct (submit_state_outbox verbose job_id w) as (st & w1 & Hsel & Hposted & Hout).
  unfold bind, lift, update, ret, raise, when. rewrite Hsel.
  destruct (reverse_hex nonce_hex) as [nonce|e]; simpl; [| split; [left |]; congruence].
  destruct (reverse_hex mixhash_hex) as [mix|e]; simpl; [| split; [left |]; congruence].
  destruct (build_block st nonce mix) as [block|e]; simpl;
    [| split; [left |]; congruence].
  rewrite <- Hposted, <- Hout.
  destruct (repr_ok st); simpl; [| split; [right |]; eauto].
  destruct (reply_error reply) as [[code message]|],
           (reply_result reply) as [result|]; simpl;
    try destruct (bool_decide (result ∈ known_verdicts));
    try destruct verbose; simpl;
    destruct (fromhex (slice_str 152 160 block)); simpl; eauto.
Qed.

(** X9: [handle_submit] reads the template state, the history queue and
    the session sets and changes none of them.  When it answers, it has
    posted exactly one block to the node and sent exactly one
    [client.show_message], to the session that submitted; when it raises,
    it has sent nothing, and posted one block at most. *)
Theorem handle_submit_read_only (self : session) (verbose : bool)
    (worker job_id nonce_hex header_hex mixhash_hex : string)
    (reply : submit_reply) (w : World) :
  let r := handle_submit self verbose worker job_id nonce_hex header_hex
                         mixhash_hex reply w in
  state (snd r) = state w /\ old_states (snd r) = old_states w /\
  new_sessions (snd r) = new_sessions w /\ all_sessions (snd r) = all_sessions w /\
  match fst r with
  | Ok _ =>
      exists block text,
        posted (snd r) = posted w ++ [block] /\
        outbox (snd r) = outbox w ++ [(self, client_show_message text)]
  | Raise _ =>
      (posted (snd r) = posted w \/ exists block, posted (snd r) = posted w ++ [block]) /\
      outbox (snd r) = outbox w
  end.
Proof.
  intros r.
  assert (K : forall B (f : World -> B),
             (forall e w, f (log e w) = f w) -> (forall b w, f (post b w) = f w) ->
             (forall s n w, f (send s n w) = f w) -> f (snd r) = f w).
  { intros B f Hlog Hpost Hsend. unfold r.
    generalize w. change (keeps f (handle_submit self verbose worker job_id nonce_hex
                                     header_hex mixhash_hex reply)).
    unfold handle_submit, submit_state.
    repeat first
      [ progress intros
      | apply keeps_bind | apply keeps_when
      | apply keeps_update; intros; first [apply Hlog | apply Hpost | apply Hsend]
      | apply keeps_ret | apply keeps_raise | apply keeps_lift | apply keeps_get
      | match goal with
        | |- keeps _ (match ?x with _ => _ end) => destruct x
        | |- keeps _ (if ?x then _ else _) => destruct x
        end ]. }
  repeat (split; [apply K; reflexivity |]).
  apply handle_submit_effects.
Qed.

(** ** Job ids and headers over a run *)

Lemma bind_lift {A C} (r : res A) (k : A -> M C) (w : World) :
  bind (lift r) k w = match r with Ok a => k a w | Raise e => (Raise e, w) end.
Proof. unfold bind, lift. destruct r; reflexivity. Qed.

Lemma bind_update {C} (g : World -> World) (k : unit -> M C) (w : World) :
  bind (update g) k w = k tt (g w).
Proof. reflexivity. Qed.

Section Moves.

Context {B : Type} (f : World -> B) (R : B -> B -> Prop).

Lemma moves_bind_l {A C} (c : M A) (k : A -> M C) :
  keeps f c -> (forall a, moves f R (k a)) -> (forall x, R x x) ->
  moves f R (bind c k).
Proof.
  intros Hc Hk Hrefl w. unfold bind. specialize (Hc w).
  destruct (c w) as [[a|e] w']; simpl in *.
  - rewrite <- Hc. apply Hk.
  - rewrite Hc. apply Hrefl.
Qed.

Lemma moves_bind_r {A C} (c : M A) (k : A -> M C) :
  moves f R c -> (forall a, keeps f (k a)) -> moves f R (bind c k).
Proof.
  intros Hc Hk w. unfold bind. specialize (Hc w).
  destruct (c w) as [[a|e] w']; simpl in *; [rewrite Hk |]; exact Hc.
Qed.

Lemma moves_when (b : bool) (c : M unit) :
  moves f R c -> (forall x, R x x) -> moves f R (when b c).
Proof. intros Hc Hrefl. destruct b; [exact Hc | intros w; apply Hrefl]. Qed.

End Moves.

(** The rebuild either stops before the header is assigned, and then
    has not touched the job view, the queue or the outbox, or assigns the
    coinbase, the transactions, the header, its hash, the time stamp and
    the next counter, and hands the snapshot to the queue. *)
Lemma rebuild_cases (drop_after : Z) (show_jobs : bool) (t : template) (ts : Z)
    (original : option TemplateState) (w : World) :
  let r := rebuild drop_after show_jobs t ts original w in
  let orig := match original with Some s => s | None => state w end in
  (job_view (snd r) = job_view w /\ old_states (snd r) = old_states w /\
   outbox (snd r) = outbox w /\ is_ok (fst r) = false) \/
  (exists cb txs m hdr,
     generate_coinbase (state w) t = Ok cb /\
     collect_txs (txs_list t) = Ok txs /\
     merkle_from_txids (dsha256 (snd cb) :: snd txs) = Ok m /\
     make_header (state w) t m ts = Ok hdr /\
     state (snd r) =
       set_job_counter (job_counter (state w) + 1)
         (set_timestamp ts
            (set_headerHash (Some (hex (reversed (dsha256 hdr))))
               (set_header (Some hdr)
                  (set_externalTxs (fst txs)
                     (set_coinbase_txid (Some (dsha256 (snd cb)))
                        (set_coinbase_tx (Some (fst cb)) (state w))))))) /\
     old_states (snd r) = snd (add_old_state_to_queue (old_states w) orig drop_after)).
Proof.
  intros r orig. unfold r, rebuild. rewrite bind_get. cbv zeta. fold orig.
  rewrite bind_lift.
  destruct (generate_coinbase (state w) t) as [cb|e] eqn:Hcb;
    [| left; repeat split; reflexivity].
  rewrite !bind_update, bind_lift.
  destruct (collect_txs (txs_list t)) as [txs|e] eqn:Htxs;
    [| left; repeat split; reflexivity].
  rewrite bind_update, bind_lift.
  destruct (merkle_from_txids (dsha256 (snd cb) :: snd txs)) as [m|e] eqn:Hm;
    [| left; repeat split; reflexivity].
  rewrite bind_get, bind_lift.
  match goal with
  | |- context [make_header ?st t m ts] =>
      change (make_header st t m ts) with (make_header (state w) t m ts)
  end.
  destruct (make_header (state w) t m ts) as [hdr|e] eqn:Hhdr;
    [| left; repeat split; reflexivity].
  rewrite !bind_update.
  right. exists cb, txs, m, hdr.
  do 4 (split; [first [assumption | reflexivity] |]).
  match goal with
  | |- context [bind (push_old_state _ _) ?k ?w7] =>
      set (tail := k); set (w' := w7)
  end.
  assert (Hstate : keeps state (bind (push_old_state drop_after orig) tail)).
  { unfold tail, send_job. keeps_tac. apply push_old_state_keeps_state. }
  split; [etransitivity; [exact (Hstate w') | reflexivity] |].
  assert (Htail : forall u, keeps old_states (tail u)).
  { intros u. unfold tail, send_job. keeps_tac. }
  unfold bind, push_old_state.
  change (old_states w') with (old_states w).
  destruct (add_old_state_to_queue (old_states w) orig drop_after) as [[e|] q];
    [reflexivity |].
  rewrite Htail. reflexivity.
Qed.

Lemma job_step_refl (x : Z * option bytes * option string) : job_step x x.
Proof. now left. Qed.

Lemma rebuild_moves (drop_after : Z) (show_jobs : bool) (t : template) (ts : Z)
    (original : option TemplateState) :
  moves job_view job_step (rebuild drop_after show_jobs t ts original).
Proof.
  intros w.
  destruct (rebuild_cases drop_after show_jobs t ts original w)
    as [(Hview & _) | (cb & txs & m & hdr & _ & _ & _ & _ & Hstate & _)].
  - left. exact Hview.
  - right. unfold job_view. rewrite Hstate. cbn [fst snd].
    split; [reflexivity |]. exists hdr. split; reflexivity.
Qed.

Lemma new_block_update_keeps {B} (g : TemplateState -> B) (t : template) :
  (forall s st, g (set_seedHash s st) = g st) ->
  (forall h st, g (set_height h st) = g st) ->
  keeps (fun w => g (state w)) (new_block_update t).
Proof.
  intros Hseed Hheight. unfold new_block_update. keeps_tac.
  - apply keeps_update. intros w. simpl.
    destruct (generate_seed_hash_cases (height_int t) (state w)) as [s ->].
    apply Hseed.
  - apply keeps_update. intros w. simpl. apply Hheight.
Qed.

Lemma refresh_moves (drop_after : Z) (show_jobs : bool) (t : template) (ts : Z) :
  moves job_view job_step (refresh drop_after show_jobs t ts).
Proof.
  unfold refresh.
  apply moves_bind_l; [| | exact job_step_refl].
  { unfold read_template. keeps_tac. }
  intros new_witness. apply moves_bind_l; [| | exact job_step_refl].
  { apply (new_block_update_keeps
             (fun st => (job_counter st, header st, headerHash st))); reflexivity. }
  intros original. apply moves_bind_l; [apply keeps_get | | exact job_step_refl].
  intros w0. apply moves_bind_r.
  - apply moves_when; [apply rebuild_moves | exact job_step_refl].
  - intros _. apply (keeps_compose state
                       (fun st => (job_counter st, header st, headerHash st))).
    apply welcome_keeps_state.
Qed.

Lemma step_job_step (cfg : config) (e : event) (w : World) :
  job_step (job_view w) (job_view (snd (step cfg e w))).
Proof.
  destruct e; cbn [step snd].
  - left. rewrite handle_subscribe_eq. cbn [snd].
    destruct (bool_decide _); reflexivity.
  - left. revert w.
    change (keeps job_view (handle_authorize (cfg_testnet cfg) username password)).
    unfold handle_authorize. keeps_tac.
  - left. unfold job_view. now rewrite handle_submit_keeps_state.
  - unfold stateUpdater. destruct (negb _); [now left |].
    destruct reply as [|t]; [now left |].
    pose proof (refresh_moves (cfg_drop_after cfg) (cfg_show_jobs cfg) t ts w) as H.
    destruct (refresh _ _ t ts w) as [[u|err] w']; exact H.
Qed.

Lemma run_app (cfg : config) (a b : list event) (w : World) :
  run cfg (a ++ b) w = run cfg b (run cfg a w).
Proof. revert w. induction a as [|e a IH]; intros w; simpl; auto. Qed.

Lemma run_job_counter (cfg : config) (events : list event) (w : World) :
  job_counter (state w) <= job_counter (state (run cfg events w)) /\
  (job_counter (state (run cfg events w)) = job_counter (state w) ->
   job_view (run cfg events w) = job_view w).
Proof.
  revert w. induction events as [|e events IH]; intros w; cbn [run].
  - split; [lia | reflexivity].
  - destruct (IH (snd (step cfg e w))) as [Hle Hsame].
    destruct (step_job_step cfg e w) as [Hstep | [Hstep _]].
    + assert (E : job_counter (state (snd (step cfg e w))) = job_counter (state w))
        by (apply (f_equal (fun x => fst (fst x))) in Hstep; exact Hstep).
      rewrite <- E. split; [exact Hle |]. intros H. rewrite (Hsame H). exact Hstep.
    + cbn [job_view fst] in Hstep. split; [lia |]. intros H. lia.
Qed.

(** X10: the job id names one header.  Over any stretch of a run the
    job counter never goes down, and at two points where it has the same
    value the live state carries the same header and the same header
    hash; a single event either leaves all three alone or raises the
    counter by one and assigns a header with the hash of that header. *)
Theorem job_id_names_header (cfg : config) (events : list event) (w : World) :
  let w' := run cfg events w in
  job_counter (state w) <= job_counter (state w') /\
  (job_counter (state w') = job_counter (state w) ->
   header (state w') = header (state w) /\
   headerHash (state w') = headerHash (state w)) /\
  (forall e, let w1 := snd (step cfg e w) in
     (job_counter (state w1) = job_counter (state w) /\
      header (state w1) = header (state w) /\
      headerHash (state w1) = headerHash (state w)) \/
     (job_counter (state w1) = job_counter (state w) + 1 /\
      exists hdr, header (state w1) = Some hdr /\
                  headerHash (state w1) = Some (hex (rev (dsha256 hdr))))).
Proof.
  intros w'. destruct (run_job_counter cfg events w) as [Hle Hsame].
  split; [exact Hle |]. split.
  - intros H. specialize (Hsame H). unfold job_view in Hsame.
    injection Hsame as _ H1 H2. auto.
  - intros e w1. destruct (step_job_step cfg e w) as [Hstep | Hstep].
    + left. unfold job_view in Hstep. injection Hstep as H0 H1 H2. auto.
    + right. exact Hstep.
Qed.

Lemma reachable_job_view (cfg : config) (events : list event) :
  let w := run cfg events initial_world in
  (job_counter (state w) = 0 /\ header (state w) = None /\ headerHash (state w) = None) \/
  (0 < job_counter (state w) /\
   exists hdr, header (state w) = Some hdr /\
               headerHash (state w) = Some (hex (rev (dsha256 hdr)))).
Proof.
  induction events as [|e events IH] using rev_ind; [left; repeat split |].
  cbn zeta in *. rewrite run_app. cbn [run].
  set (w := run cfg events initial_world) in *.
  destruct (step_job_step cfg e w) as [Hstep | (Hc & hdr & Hh & Hhh)].
  - unfold job_view in Hstep. injection Hstep as H0 H1 H2.
    rewrite H0, H1, H2. exact IH.
  - right. cbn [job_view fst snd] in Hc, Hh, Hhh. split; [| eauto].
    destruct IH as [(H0 & _) | (H0 & _)]; lia.
Qed.

(** X11: in every state a run of the proxy reaches from its start,
    [job_counter] counts the headers built: it is 0 exactly while no
    header has been assigned, and from then on [headerHash] is the byte
    reversed double SHA-256 of the header the state holds, in
    hexadecimal. *)
Theorem header_hash_of_header (cfg : config) (events : list event) :
  let w := run cfg events initial_world in
  0 <= job_counter (state w) /\
  (job_counter (state w) = 0 <-> header (state w) = None) /\
  (forall hdr, header (state w) = Some hdr ->
     headerHash (state w) = Some (hex (rev (dsha256 hdr)))).
Proof.
  intros w. unfold w.
  destruct (reachable_job_view cfg events) as [(H0 & H1 & H2) | (H0 & hdr & H1 & H2)].
  - split; [lia |]. split; [tauto |]. intros hdr H. congruence.
  - split; [lia |]. split.
    + split; [lia | congruence].
    + intros hdr' H. congruence.
Qed.

(** ** A late submit for the job a tick has replaced *)

Lemma build_block_view (a b : TemplateState) (nonce mix : string) :
  block_view a = block_view b -> build_block a nonce mix = build_block b nonce mix.
Proof.
  unfold block_view, build_block. intros H. injection H as -> -> ->. reflexivity.
Qed.

Lemma welcome_keeps_old_states (t : template) :
  keeps old_states (welcome_new_sessions t).
Proof. unfold welcome_new_sessions, send_job. keeps_tac. Qed.

(** The end of the [try] block after the template is read: no new job
    and the queue as it was, or the next job and the snapshot in the
    queue. *)
Lemma rebuild_welcome_cases (drop_after : Z) (show_jobs : bool) (t : template)
    (ts : Z) (original : option TemplateState) (b : bool) (w : World) :
  let r := bind (when b (rebuild drop_after show_jobs t ts original))
                (fun _ => welcome_new_sessions t) w in
  let orig := match original with Some s => s | None => state w end in
  (job_counter (state (snd r)) = job_counter (state w) /\
   old_states (snd r) = old_states w /\
   (is_ok (fst r) = true -> block_view (state (snd r)) = block_view (state w))) \/
  (job_counter (state (snd r)) = job_counter (state w) + 1 /\
   old_states (snd r) = snd (add_old_state_to_queue (old_states w) orig drop_after)).
Proof.
  intros r orig. unfold r, bind.
  pose proof (welcome_keeps_state t) as Hws.
  pose proof (welcome_keeps_old_states t) as Hwq.
  destruct b; cbn [when].
  - destruct (rebuild_cases drop_after show_jobs t ts original w)
      as [(Hview & Hq & _ & Hfail)
         | (cb & txs & m & hdr & _ & _ & _ & _ & Hstate & Hq)];
      destruct (rebuild drop_after show_jobs t ts original w) as [[u|e] w1];
      cbn [fst snd] in *; try discriminate.
    + left. unfold job_view in Hview. injection Hview as H0 _ _.
      repeat split; [exact H0 | exact Hq | discriminate].
    + right. rewrite Hws, Hwq, Hstate. split; [reflexivity | exact Hq].
    + right. rewrite Hstate. split; [reflexivity | exact Hq].
  - unfold ret. cbn [fst snd]. left. rewrite Hws, Hwq. auto.
Qed.

Lemma generate_seed_hash_frame {B} (g : TemplateState -> B) (h : Z) (st : TemplateState) :
  (forall s st, g (set_seedHash s st) = g st) ->
  g (generate_seed_hash h st) = g st.
Proof.
  intros H. destruct (generate_seed_hash_cases h st) as [s ->]. apply H.
Qed.

Lemma new_block_frame {B} (g : TemplateState -> B) (h h' : Z) (st : TemplateState) :
  (forall s st, g (set_seedHash s st) = g st) ->
  (forall h st, g (set_height h st) = g st) ->
  g (set_height h (generate_seed_hash h' st)) = g st.
Proof.
  intros Hs Hh. rewrite Hh. now apply generate_seed_hash_frame.
Qed.

(** One [try] block and the job counter, the queue and what
    [build_block] reads. *)
Lemma refresh_cases (drop_after : Z) (show_jobs : bool) (t : template) (ts : Z)
    (w : World) :
  let r := refresh drop_after show_jobs t ts w in
  (job_counter (state (snd r)) = job_counter (state w) /\
   old_states (snd r) = old_states w /\
   (is_ok (fst r) = true -> block_view (state (snd r)) = block_view (state w))) \/
  (job_counter (state (snd r)) = job_counter (state w) + 1 /\
   exists orig,
     old_states (snd r) = snd (add_old_state_to_queue (old_states w) orig drop_after) /\
     job_counter orig = job_counter (state w) /\
     block_view orig = block_view (state w)).
Proof.
  cbn zeta.
  enough (H : forall r, r = refresh drop_after show_jobs t ts w ->
     (job_counter (state (snd r)) = job_counter (state w) /\
      old_states (snd r) = old_states w /\
      (is_ok (fst r) = true -> block_view (state (snd r)) = block_view (state w))) \/
     (job_counter (state (snd r)) = job_counter (state w) + 1 /\
      exists orig,
        old_states (snd r) = snd (add_old_state_to_queue (old_states w) orig drop_after) /\
        job_counter orig = job_counter (state w) /\
        block_view orig = block_view (state w))) by exact (H _ eq_refl).
  intros r Hr. unfold refresh in Hr.
  assert (Hjc : keeps (fun w => job_counter (state w)) (read_template t))
    by (unfold read_template; keeps_tac).
  assert (Hbv : keeps (fun w => block_view (state w)) (read_template t))
    by (unfold read_template; keeps_tac).
  assert (Hq : keeps old_states (read_template t))
    by (unfold read_template; keeps_tac).
  specialize (Hjc w). specialize (Hbv w). specialize (Hq w).
  unfold bind at 1 in Hr.
  destruct (read_template t w) as [[new_witness|e] w1]; cbn [snd] in Hjc, Hbv, Hq.
  2: { subst r. left. cbn [fst snd]. repeat split; [exact Hjc | exact Hq | discriminate]. }
  rewrite new_block_update_bind in Hr.
  destruct ((height (state w1) =? -1) || negb (height (state w1) =? height_int t));
    rewrite bind_get in Hr; subst r.
  - match goal with
    | |- context [bind (when ?b _) _ ?w2] =>
        destruct (rebuild_welcome_cases drop_after show_jobs t ts
                    (Some (state w1)) b w2) as [(H0 & H1 & H2) | (H0 & H1)]
    end.
    + left.
      split; [rewrite H0 | split; [rewrite H1 | intros Hok; rewrite (H2 Hok)]];
        cbn [state old_states with_state].
      * rewrite (new_block_frame job_counter) by reflexivity. exact Hjc.
      * exact Hq.
      * rewrite (new_block_frame block_view) by reflexivity. exact Hbv.
    + right. rewrite H0, H1. cbn [state old_states with_state].
      rewrite (new_block_frame job_counter) by reflexivity.
      split; [lia |].
      exists (state w1). rewrite Hq. auto.
  - match goal with
    | |- context [bind (when ?b _) _ ?w2] =>
        destruct (rebuild_welcome_cases drop_after show_jobs t ts None b w2)
          as [(H0 & H1 & H2) | (H0 & H1)]
    end.
    + left. rewrite H0, H1. split; [exact Hjc |]. split; [exact Hq |].
      intros Hok. rewrite (H2 Hok). exact Hbv.
    + right. rewrite H0, H1. split; [lia |].
      exists (state w1). rewrite Hq. auto.
Qed.

Lemma handlers_keep_jobs (cfg : config) (e : event) (w : World) :
  match e with ev_tick _ _ => False | _ => True end ->
  job_counter (state (snd (step cfg e w))) = job_counter (state w) /\
  old_states (snd (step cfg e w)) = old_states w.
Proof.
  destruct e; cbn [step snd]; intros He; [| | | destruct He].
  - rewrite handle_subscribe_eq. cbn [snd]. destruct (bool_decide _); auto.
  - assert (K : keeps (fun w => (job_counter (state w), old_states w))
                      (handle_authorize (cfg_testnet cfg) username password))
      by (unfold handle_authorize; keeps_tac).
    specialize (K w). injection K as -> ->. auto.
  - assert (K : keeps (fun w => (job_counter (state w), old_states w))
                      (handle_submit self (cfg_verbose cfg) worker job_id nonce_hex
                                     header_hex mixhash_hex reply))
      by (unfold handle_submit, submit_state; keeps_tac).
    specialize (K w). injection K as -> ->. auto.
Qed.

Lemma elem_of_drop_in {A} (x : A) (n : nat) (l : list A) : x ∈ drop n l -> x ∈ l.
Proof.
  intros H. rewrite <- (take_drop n l). apply elem_of_app. now right.
Qed.

(** The history queue holds the job ids the counter has left behind. *)
Lemma step_queue_ids_issued (cfg : config) (e : event) (w : World) :
  0 <= cfg_drop_after cfg ->
  queue_wf (old_states w) /\ queue_ids_issued w /\ 0 <= job_counter (state w) ->
  let w' := snd (step cfg e w) in
  queue_wf (old_states w') /\ queue_ids_issued w' /\ 0 <= job_counter (state w').
Proof.
  intros Hcap (Hwf & Hids & Hjc) w'.
  assert (Hsame : job_counter (state w') = job_counter (state w) ->
                  old_states w' = old_states w ->
                  queue_wf (old_states w') /\ queue_ids_issued w' /\
                  0 <= job_counter (state w')).
  { intros E1 E2. unfold queue_ids_issued. rewrite E1, E2. auto. }
  destruct e; try (apply Hsame; apply (handlers_keep_jobs cfg _ w); exact I).
  unfold w'. cbn [step snd]. unfold stateUpdater.
  destruct (negb _); [auto |].
  destruct reply as [|t]; [cbn [raise]; auto |].
  pose proof (refresh_cases (cfg_drop_after cfg) (cfg_show_jobs cfg) t ts w) as Hc.
  cbn zeta in Hc.
  assert (Hgoal : let w1 := snd (refresh (cfg_drop_after cfg) (cfg_show_jobs cfg) t ts w) in
                  queue_wf (old_states w1) /\ queue_ids_issued w1 /\
                  0 <= job_counter (state w1)).
  { destruct Hc as [(H0 & H1 & _) | (H0 & orig & H1 & H2 & _)]; intros w1.
    - unfold queue_ids_issued. fold w1 in H0, H1. rewrite H0, H1. auto.
    - fold w1 in H0, H1.
      destruct (add_old_state_to_queue_spec (old_states w) orig (cfg_drop_after cfg)
                  Hwf Hcap) as (q' & Hadd & Hwf' & _ & Hold & Hnew & _).
      rewrite Hadd in H1. cbn [snd] in H1. rewrite H2 in Hold, Hnew.
      unfold queue_ids_issued. rewrite H0, H1.
      split; [exact Hwf' |]. split; [| lia].
      intros id Hin.
      destruct (decide (job_id_of (job_counter (state w)) ∈ q_ids (old_states w)))
        as [Hpresent|Hfresh].
      + rewrite (Hold Hpresent) in Hin. destruct (Hids id Hin) as (c & Hc & ->).
        exists c. split; [lia | reflexivity].
      + destruct (Hnew Hfresh) as (Hids' & _). rewrite Hids' in Hin.
        apply elem_of_drop_in, elem_of_app in Hin as [Hin|Hin].
        * destruct (Hids id Hin) as (c & Hc & ->). exists c. split; [lia | reflexivity].
        * apply list_elem_of_singleton in Hin as ->.
          exists (job_counter (state w)). split; [lia | reflexivity]. }
  cbn zeta in Hgoal.
  destruct (refresh _ _ t ts w) as [[u|err] w1]; exact Hgoal.
Qed.

Lemma run_queue_ids_issued (cfg : config) (events : list event) :
  0 <= cfg_drop_after cfg ->
  let w := run cfg events initial_world in
  queue_wf (old_states w) /\ queue_ids_issued w /\ 0 <= job_counter (state w).
Proof.
  intros Hcap.
  assert (Hinit : queue_wf (old_states initial_world) /\
                  queue_ids_issued initial_world /\
                  0 <= job_counter (state initial_world)).
  { split; [apply queue_wf_empty |]. split; [| simpl; lia].
    intros id Hin. now apply elem_of_nil in Hin. }
  revert Hinit. generalize initial_world.
  induction events as [|e events IH]; intros w Hw; [exact Hw |].
  cbn [run]. apply IH. now apply step_queue_ids_issued.
Qed.

Lemma refresh_keeps_posted (drop_after : Z) (show_jobs : bool) (t : template) (ts : Z) :
  keeps posted (refresh drop_after show_jobs t ts).
Proof.
  unfold refresh, read_template, welcome_new_sessions, rebuild, new_block_update,
    send_job. keeps_tac.
  intros w. unfold push_old_state.
  destruct (add_old_state_to_queue _ _ _) as [[e|] q]; reflexivity.
Qed.

(** X12: the history queue serves the job a tick has just replaced.  In
    any state a run of the proxy reaches, with room for at least one
    snapshot, take a tick whose [try] block completes: a submit for the
    job id that was current before the tick posts, after the tick, the
    very block it would have posted before it. *)
Theorem late_submit_posts_same_block (cfg : config) (events : list event)
    (t : template) (ts : Z) (self : session)
    (worker nonce_hex header_hex mixhash_hex : string) (reply : submit_reply) :
  1 <= cfg_drop_after cfg ->
  let w := run cfg events initial_world in
  is_ok (fst (refresh (cfg_drop_after cfg) (cfg_show_jobs cfg) t ts w)) = true ->
  let w' := stateUpdater (cfg_drop_after cfg) (cfg_show_jobs cfg) (reply_template t) ts w in
  let submit := handle_submit self (cfg_verbose cfg) worker
                              (job_id_of (job_counter (state w)))
                              nonce_hex header_hex mixhash_hex reply in
  posted (snd (submit w')) = posted (snd (submit w)).
Proof.
  intros Hcap w Hok w' submit.
  destruct (run_queue_ids_issued cfg events ltac:(lia)) as (Hwf & Hids & Hjc).
  fold w in Hwf, Hids, Hjc.
  assert (Hw' : w' = w \/ w' = snd (refresh (cfg_drop_after cfg) (cfg_show_jobs cfg) t ts w)).
  { unfold w', stateUpdater. destruct (negb _); [now left |]. right.
    destruct (refresh _ _ t ts w) as [[u|e] w1]; [reflexivity | discriminate]. }
  destruct Hw' as [-> | Hw']; [reflexivity |].
  assert (Hposted : posted w' = posted w)
    by (rewrite Hw'; apply refresh_keeps_posted).
  unfold submit.
  destruct (handle_submit_eq self (cfg_verbose cfg) worker
              (job_id_of (job_counter (state w))) nonce_hex header_hex mixhash_hex
              reply w) as (u1 & E1 & P1).
  destruct (handle_submit_eq self (cfg_verbose cfg) worker
              (job_id_of (job_counter (state w))) nonce_hex header_hex mixhash_hex
              reply w') as (u2 & E2 & P2).
  rewrite E1, E2. cbn [snd]. rewrite P1, P2, Hposted, String.eqb_refl.
  clear E1 E2 P1 P2.
  assert (Hblock : forall nonce mix,
             build_block
               (if String.eqb (job_id_of (job_counter (state w)))
                              (job_id_of (job_counter (state w')))
                then state w'
                else match lookup_old_state (old_states w')
                             (job_id_of (job_counter (state w))) with
                     | Some old_state => old_state
                     | None => state w'
                     end) nonce mix
             = build_block (state w) nonce mix).
  { intros nonce mix. apply build_block_view.
    destruct (refresh_cases (cfg_drop_after cfg) (cfg_show_jobs cfg) t ts w)
      as [(H0 & H1 & H2) | (H0 & orig & H1 & H2 & H3)];
      cbn zeta in *; rewrite <- Hw' in *.
    - rewrite H0, String.eqb_refl. apply H2, Hok.
    - destruct (String.eqb_spec (job_id_of (job_counter (state w)))
                                (job_id_of (job_counter (state w')))) as [E|_].
      + apply job_id_of_inj in E; lia.
      + assert (Hfresh : job_id_of (job_counter orig) ∉ q_ids (old_states w)).
        { rewrite H2. intros Hin. destruct (Hids _ Hin) as (c & Hc & E).
          apply job_id_of_inj in E; lia. }
        destruct (lookup_add_fresh (old_states w) orig (cfg_drop_after cfg)
                    Hwf Hcap Hfresh) as [Hlook _].
        cbn zeta in Hlook. rewrite H2, <- H1 in Hlook. rewrite Hlook. exact H3. }
  destruct (reverse_hex nonce_hex) as [nonce|]; [| reflexivity].
  destruct (reverse_hex mixhash_hex) as [mix|]; [| reflexivity].
  cbn [rbind]. rewrite Hblock. reflexivity.
Qed.

Lemma late_submit_posts_same_block_witness :
  let cfg := mkConfig false false true store in
  let w := run cfg [ev_authorize 1%nat "M9TQAWC2R2sGUmWodGk6DH6TNvVxiqXnU6" "x";
                    ev_tick (reply_template (sample_template 7499)) 1700000000]
               initial_world in
  let w' := stateUpdater store true (reply_template (sample_template 7500))
                         1700000001 w in
  let submit := handle_submit 1%nat false "rig" (job_id_of (job_counter (state w)))
                              "0x0102030405060708" "ab" (hex (zeros 32))
                              (mkReply None None) in
  posted (snd (submit w')) = posted (snd (submit w)).
Proof.
  apply (late_submit_posts_same_block
           (mkConfig false false true store)
           [ev_authorize 1%nat "M9TQAWC2R2sGUmWodGk6DH6TNvVxiqXnU6" "x";
            ev_tick (reply_template (sample_template 7499)) 1700000000]
           (sample_template 7500) 1700000001 1%nat "rig" "0x0102030405060708" "ab"
           (hex (zeros 32)) (mkReply None None)).
  - unfold store. simpl. lia.
  - vm_compute. reflexivity.
Defined.

(** ** The seed hash and the session sets over a run *)

Lemma keccak_256_length (m : bytes) : length (Keccak.keccak_256 m) = 32%nat.
Proof.
  unfold Keccak.keccak_256, Keccak.bytes_of_lane.
  cbv zeta. rewrite !length_app, !length_le_bytes. reflexivity.
Qed.

Lemma keccak_chain_length (n : nat) :
  length (Nat.iter n Keccak.keccak_256 (zeros 32)) = 32%nat.
Proof. destruct n; [reflexivity | apply keccak_256_length]. Qed.

(** The seed-hash block always leaves a Keccak chain value. *)
Lemma generate_seed_hash_chain (h : Z) (st : TemplateState) :
  seed_inv st ->
  exists n, seedHash (generate_seed_hash h st) =
            Some (Nat.iter n Keccak.keccak_256 (zeros 32)).
Proof.
  intros Hinv. unfold generate_seed_hash.
  destruct ((height st =? -1) || (height st <? h)) eqn:Hfirst.
  - destruct Hinv as [[Hnone _] | [n Hn]].
    + rewrite Hnone. cbn [seedHash set_seedHash]. unfold seed_from_zero. eauto.
    + rewrite Hn. pose proof (keccak_chain_length n) as Hlen.
      destruct (Nat.iter n Keccak.keccak_256 (zeros 32)) as [|x r] eqn:E;
        [discriminate |].
      destruct (height st mod KAWPOW_EPOCH_LENGTH =? 0).
      * cbn [seedHash set_seedHash]. exists (S n). now rewrite Nat.iter_succ, E.
      * exists n. now rewrite Hn, E.
  - apply orb_false_iff in Hfirst as [Hne _]. apply Z.eqb_neq in Hne.
    destruct Hinv as [[_ Hh] | [n Hn]]; [contradiction |].
    destruct (h <? height st); [destruct (_ <? 0) |]; eauto.
Qed.

Lemma seed_inv_ext (w w' : World) :
  (seedHash (state w'), height (state w')) = (seedHash (state w), height (state w)) ->
  seed_inv (state w) -> seed_inv (state w').
Proof. unfold seed_inv. intros [= -> ->]. auto. Qed.

(** After the new-block branch, or when it is not taken, the seed hash
    is a chain value. *)
Lemma new_block_update_seed {A} (t : template) (k : option TemplateState -> M A)
    (w : World) :
  seed_inv (state w) ->
  exists original w2,
    bind (new_block_update t) k w = k original w2 /\
    (exists n, seedHash (state w2) = Some (Nat.iter n Keccak.keccak_256 (zeros 32))) /\
    new_sessions w2 = new_sessions w /\ all_sessions w2 = all_sessions w /\
    outbox w2 = outbox w /\ job_counter (state w2) = job_counter (state w).
Proof.
  intros Hinv. rewrite new_block_update_bind.
  destruct ((height (state w) =? -1) || negb (height (state w) =? height_int t))
    eqn:Hcond.
  - eexists _, _. split; [reflexivity |]. cbn [state with_state].
    split; [apply (generate_seed_hash_chain (height_int t)) in Hinv as [n Hn];
            exists n; exact Hn |].
    do 3 (split; [reflexivity |]). apply (new_block_frame job_counter); reflexivity.
  - exists None, w. split; [reflexivity |]. repeat split.
    apply orb_false_iff in Hcond as [Hne _]. apply Z.eqb_neq in Hne.
    destruct Hinv as [[_ Hh] | Hn]; [contradiction | exact Hn].
Qed.

Lemma send_job_ok (t : template) (s : session) (w : World) (seed : bytes) :
  seedHash (state w) = Some seed ->
  send_job t s w =
  (Ok tt,
   send s (mining_notify (job_id_of (job_counter (state w))) (headerHash (state w))
                         (hex seed) (target_hex t) true (height (state w)) (bits_hex t))
        (send s (mining_set_target (target_hex t)) w)).
Proof.
  intros Hseed. unfold send_job. rewrite bind_update, bind_get, bind_lift.
  cbn [state send]. rewrite Hseed. reflexivity.
Qed.

(** With a seed hash in place the welcome loop cannot raise: every new
    session joins [all_sessions] and [new_sessions] is cleared. *)
Lemma welcome_loop_ok (t : template) (xs : list session) (w : World) (seed : bytes) :
  seedHash (state w) = Some seed ->
  exists w',
    for_each xs (fun s =>
      bind (update (fun w => with_all_sessions ({[ s ]} ∪ all_sessions w) w))
           (fun _ => send_job t s)) w = (Ok tt, w') /\
    state w' = state w /\ new_sessions w' = new_sessions w /\
    all_sessions w' = list_to_set xs ∪ all_sessions w.
Proof.
  revert w. induction xs as [|s xs IH]; intros w Hseed.
  - exists w. repeat split. cbn [list_to_set]. set_solver.
  - cbn [for_each]. unfold bind at 1. rewrite bind_update.
    rewrite (send_job_ok t s _ seed) by exact Hseed.
    match goal with
    | |- context [for_each xs _ ?w1] =>
        destruct (IH w1) as (w' & Hrun & Hst & Hnew & Hall); [exact Hseed |]
    end.
    exists w'. split; [exact Hrun |]. rewrite Hst, Hnew, Hall.
    repeat split. cbn [list_to_set all_sessions send with_all_sessions]. set_solver.
Qed.

Lemma welcome_ok (t : template) (w : World) (seed : bytes) :
  seedHash (state w) = Some seed ->
  exists w',
    welcome_new_sessions t w = (Ok tt, w') /\
    state w' = state w /\ new_sessions w' = ∅ /\
    all_sessions w' = all_sessions w ∪ new_sessions w.
Proof.
  intros Hseed. unfold welcome_new_sessions. rewrite bind_get.
  destruct (welcome_loop_ok t (elements (new_sessions w)) w seed Hseed)
    as (w1 & Hrun & Hst & Hnew & Hall).
  unfold bind at 1. rewrite Hrun. unfold update.
  eexists. split; [reflexivity |]. cbn [state new_sessions all_sessions with_new_sessions].
  repeat split; [exact Hst |]. rewrite Hall, list_to_set_elements_L. set_solver.
Qed.

Lemma push_old_state_keeps {B} (f : World -> B) (drop_after : Z) (original : TemplateState) :
  (forall q w, f (with_old_states q w) = f w) ->
  keeps f (push_old_state drop_after original).
Proof.
  intros H w. unfold push_old_state.
  destruct (add_old_state_to_queue _ _ _) as [[e|] q]; apply H.
Qed.

Lemma rebuild_keeps_sessions (drop_after : Z) (show_jobs : bool) (t : template) (ts : Z)
    (original : option TemplateState) :
  keeps (fun w => (seedHash (state w), height (state w), new_sessions w, all_sessions w))
        (rebuild drop_after show_jobs t ts original).
Proof.
  unfold rebuild, send_job. keeps_tac. apply push_old_state_keeps. reflexivity.
Qed.

(** The [try] block and the session sets: it stops before the welcome
    loop and leaves the sets alone, or completes, and then the new
    sessions have joined the others. *)
Lemma refresh_sessions (drop_after : Z) (show_jobs : bool) (t : template) (ts : Z)
    (w : World) :
  seed_inv (state w) ->
  let r := refresh drop_after show_jobs t ts w in
  seed_inv (state (snd r)) /\
  ((is_ok (fst r) = false /\
    new_sessions (snd r) = new_sessions w /\ all_sessions (snd r) = all_sessions w) \/
   (is_ok (fst r) = true /\
    new_sessions (snd r) = ∅ /\
    all_sessions (snd r) = all_sessions w ∪ new_sessions w)).
Proof.
  intros Hinv. cbn zeta.
  enough (H : forall r, r = refresh drop_after show_jobs t ts w ->
     seed_inv (state (snd r)) /\
     ((is_ok (fst r) = false /\
       new_sessions (snd r) = new_sessions w /\ all_sessions (snd r) = all_sessions w) \/
      (is_ok (fst r) = true /\
       new_sessions (snd r) = ∅ /\
       all_sessions (snd r) = all_sessions w ∪ new_sessions w)))
    by exact (H _ eq_refl).
  intros r Hr. unfold refresh in Hr.
  assert (Hread : keeps (fun w => (seedHash (state w), height (state w),
                                   new_sessions w, all_sessions w)) (read_template t))
    by (unfold read_template; keeps_tac).
  specialize (Hread w). unfold bind at 1 in Hr.
  destruct (read_template t w) as [[new_witness|e] w1]; cbn [snd] in Hread;
    injection Hread as Hseed Hheight Hnew Hall.
  2: { subst r. cbn [fst snd]. split; [| left; auto].
       apply (seed_inv_ext w); [congruence | exact Hinv]. }
  assert (Hinv1 : seed_inv (state w1))
    by (apply (seed_inv_ext w); [congruence | exact Hinv]).
  destruct (new_block_update_seed t
              (fun original_state =>
                 bind get (fun w =>
                   bind (when (bool_decide (is_Some original_state) || new_witness
                               || (timestamp (state w) + 60 <? ts))
                              (rebuild drop_after show_jobs t ts original_state))
                        (fun _ => welcome_new_sessions t))) w1 Hinv1)
    as (original & w2 & Hrun & [n Hn] & Hnew2 & Hall2 & _).
  rewrite Hrun in Hr. clear Hrun. rewrite bind_get in Hr.
  match type of Hr with
  | r = bind (when ?c _) _ _ => set (b := c) in Hr; clearbody b
  end.
  assert (Hreb : keeps (fun w => (seedHash (state w), height (state w),
                                  new_sessions w, all_sessions w))
                       (when b (rebuild drop_after show_jobs t ts original)))
    by (apply keeps_when, rebuild_keeps_sessions).
  specialize (Hreb w2). unfold bind in Hr.
  destruct (when b (rebuild drop_after show_jobs t ts original) w2) as [[u|e] w3];
    cbn [snd] in Hreb; injection Hreb as Hseed3 Hheight3 Hnew3 Hall3.
  - destruct (welcome_ok t w3 _ (eq_trans Hseed3 Hn)) as (w4 & Hw & Hst4 & Hnew4 & Hall4).
    rewrite Hw in Hr. subst r. cbn [fst snd]. split.
    + right. exists n. rewrite Hst4. congruence.
    + right. split; [reflexivity |]. split; [exact Hnew4 |]. rewrite Hall4. congruence.
  - subst r. cbn [fst snd]. split.
    + right. exists n. congruence.
    + left. split; [reflexivity |]. split; congruence.
Qed.

Lemma step_seed_sessions (cfg : config) (e : event) (w : World) :
  seed_inv (state w) /\ new_sessions w ## all_sessions w ->
  seed_inv (state (snd (step cfg e w))) /\
  new_sessions (snd (step cfg e w)) ## all_sessions (snd (step cfg e w)).
Proof.
  intros [Hinv Hdisj]. destruct e; cbn [step snd].
  - rewrite handle_subscribe_eq. cbn [snd].
    destruct (bool_decide_reflect (self ∈ all_sessions w)); (split; [exact Hinv |]);
      cbn [new_sessions all_sessions with_state with_new_sessions]; set_solver.
  - assert (K : keeps (fun w => (seedHash (state w), height (state w),
                                 new_sessions w, all_sessions w))
                      (handle_authorize (cfg_testnet cfg) username password))
      by (unfold handle_authorize; keeps_tac).
    specialize (K w). injection K as H1 H2 -> ->.
    split; [apply (seed_inv_ext w); [congruence | exact Hinv] | exact Hdisj].
  - assert (K : keeps (fun w => (seedHash (state w), height (state w),
                                 new_sessions w, all_sessions w))
                      (handle_submit self (cfg_verbose cfg) worker job_id nonce_hex
                                     header_hex mixhash_hex reply))
      by (unfold handle_submit, submit_state; keeps_tac).
    specialize (K w). injection K as H1 H2 -> ->.
    split; [apply (seed_inv_ext w); [congruence | exact Hinv] | exact Hdisj].
  - unfold stateUpdater. destruct (negb _); [auto |].
    destruct reply as [|t]; [cbn [raise]; auto |].
    destruct (refresh_sessions (cfg_drop_after cfg) (cfg_show_jobs cfg) t ts w Hinv)
      as [Hinv' Hsets]. cbn zeta in Hinv', Hsets.
    destruct (refresh _ _ t ts w) as [[u|err] w'];
      cbn [fst snd state new_sessions all_sessions log] in *;
      (split; [exact Hinv' |]);
      destruct Hsets as [(_ & E1 & E2) | (_ & E1 & E2)];
      rewrite E1, E2; set_solver.
Qed.

Lemma run_seed_sessions (cfg : config) (events : list event) :
  let w := run cfg events initial_world in
  seed_inv (state w) /\ new_sessions w ## all_sessions w.
Proof.
  assert (Hinit : seed_inv (state initial_world) /\
                  new_sessions initial_world ## all_sessions initial_world).
  { split; [left; split; reflexivity | cbn; set_solver]. }
  revert Hinit. generalize initial_world.
  induction events as [|e events IH]; intros w Hw; [exact Hw |].
  cbn [run]. apply IH. now apply step_seed_sessions.
Qed.

(** X13: in every state a run of the proxy reaches from its start, the
    seed hash is either still absent, and then the height is still -1, or
    32 bytes obtained from 32 zero bytes by some number of Keccak-256
    applications. *)
Theorem seed_hash_is_keccak_chain (cfg : config) (events : list event) :
  let w := run cfg events initial_world in
  (seedHash (state w) = None /\ height (state w) = -1) \/
  (exists n seed, seedHash (state w) = Some seed /\
                  seed = Nat.iter n Keccak.keccak_256 (zeros 32) /\
                  length seed = 32%nat).
Proof.
  intros w. destruct (run_seed_sessions cfg events) as [[Hnone | [n Hn]] _].
  - left. exact Hnone.
  - right. exists n, (Nat.iter n Keccak.keccak_256 (zeros 32)).
    split; [exact Hn |]. split; [reflexivity | apply keccak_chain_length].
Qed.


(** ** The order of the notifications *)

Lemma jobs_in_order_other (out : list (session * notification))
    (x : session * notification) :
  jobs_in_order out ->
  (forall job hh seed tgt clean h bits,
     snd x <> mining_notify job hh seed tgt clean h bits) ->
  jobs_in_order (out ++ [x]).
Proof.
  intros Hout Hx i s job hh seed tgt clean h bits Hi.
  destruct (decide (i < length out)%nat) as [Hlt|Hge].
  - rewrite lookup_app_l in Hi by exact Hlt.
    destruct (Hout _ _ _ _ _ _ _ _ _ Hi) as (j & -> & Hj).
    exists j. split; [reflexivity |]. rewrite lookup_app_l by lia. exact Hj.
  - rewrite lookup_app_r in Hi by lia.
    destruct (i - length out)%nat as [|k]; [| destruct k; discriminate].
    injection Hi as ->. exfalso. eapply Hx. reflexivity.
Qed.

Lemma jobs_in_order_job (out : list (session * notification)) (s : session)
    (job : string) (hh : option string) (seed tgt : string) (clean : bool) (h : Z)
    (bits : string) :
  jobs_in_order out ->
  jobs_in_order ((out ++ [(s, mining_set_target tgt)]) ++
                 [(s, mining_notify job hh seed tgt clean h bits)]).
Proof.
  intros Hout.
  assert (Hfirst : jobs_in_order (out ++ [(s, mining_set_target tgt)]))
    by (apply jobs_in_order_other; [exact Hout | discriminate]).
  intros i s' job' hh' seed' tgt' clean' h' bits' Hi.
  destruct (decide (i < length (out ++ [(s, mining_set_target tgt)]))%nat) as [Hlt|Hge].
  - rewrite lookup_app_l in Hi by exact Hlt.
    destruct (Hfirst _ _ _ _ _ _ _ _ _ Hi) as (j & -> & Hj).
    exists j. split; [reflexivity |]. rewrite lookup_app_l by lia. exact Hj.
  - rewrite lookup_app_r in Hi by lia.
    destruct (i - length (out ++ [(s, mining_set_target tgt)]))%nat as [|k] eqn:E;
      [| destruct k; discriminate].
    injection Hi as <- <- <- <- <- <- <- <-.
    rewrite length_app in Hge, E. cbn [length] in Hge, E.
    exists (length out). split; [lia |].
    rewrite lookup_app_l by (rewrite length_app; cbn [length]; lia).
    rewrite lookup_app_r by lia. now rewrite Nat.sub_diag.
Qed.

Lemma send_job_outbox (t : template) (s : session) (w : World) :
  outbox (snd (send_job t s w)) =
  match seedHash (state w) with
  | Some seed =>
      (outbox w ++ [(s, mining_set_target (target_hex t))]) ++
      [(s, mining_notify (job_id_of (job_counter (state w))) (headerHash (state w))
                         (hex seed) (target_hex t) true (height (state w)) (bits_hex t))]
  | None => outbox w ++ [(s, mining_set_target (target_hex t))]
  end.
Proof.
  unfold send_job. rewrite bind_update, bind_get, bind_lift. cbn [state send].
  destruct (seedHash (state w)); reflexivity.
Qed.

Lemma send_job_in_order (t : template) (s : session) :
  preserves (fun w => jobs_in_order (outbox w)) (send_job t s).
Proof.
  intros w Hw. rewrite send_job_outbox. destruct (seedHash (state w)).
  - now apply jobs_in_order_job.
  - apply jobs_in_order_other; [exact Hw | discriminate].
Qed.

Lemma jobs_in_order_ext (w w' : World) :
  outbox w' = outbox w -> jobs_in_order (outbox w) -> jobs_in_order (outbox w').
Proof. now intros ->. Qed.

Lemma refresh_in_order (drop_after : Z) (show_jobs : bool) (t : template) (ts : Z) :
  preserves (fun w => jobs_in_order (outbox w)) (refresh drop_after show_jobs t ts).
Proof.
  unfold refresh, read_template, welcome_new_sessions, rebuild, new_block_update.
  repeat first
    [ progress intros
    | apply send_job_in_order
    | apply preserves_bind
    | apply preserves_when
    | apply preserves_for_each
    | apply (preserves_keeps _ outbox);
      [ apply jobs_in_order_ext
      | first [ apply keeps_update; reflexivity | apply keeps_ret | apply keeps_raise
              | apply keeps_lift | apply keeps_get
              | apply push_old_state_keeps; reflexivity ] ]
    | match goal with
      | |- preserves _ (match ?x with _ => _ end) => destruct x
      | |- preserves _ (if ?x then _ else _) => destruct x
      end ].
Qed.

Lemma step_in_order (cfg : config) (e : event) (w : World) :
  jobs_in_order (outbox w) -> jobs_in_order (outbox (snd (step cfg e w))).
Proof.
  intros Hw. destruct e; cbn [step snd].
  - apply (jobs_in_order_ext w); [| exact Hw].
    rewrite handle_subscribe_eq. cbn [snd]. destruct (bool_decide _); reflexivity.
  - revert w Hw.
    apply (preserves_keeps (fun w => jobs_in_order (outbox w)) outbox);
      [apply jobs_in_order_ext |].
    unfold handle_authorize. keeps_tac.
  - pose proof (handle_submit_effects self (cfg_verbose cfg) worker job_id nonce_hex
                  header_hex mixhash_hex reply w) as H. cbn zeta in H.
    destruct (fst (handle_submit _ _ _ _ _ _ _ _ w)).
    + destruct H as (block & text & _ & ->).
      apply jobs_in_order_other; [exact Hw | discriminate].
    + destruct H as (_ & ->). exact Hw.
  - unfold stateUpdater. destruct (negb _); [exact Hw |].
    destruct reply as [|t]; [exact Hw |].
    pose proof (refresh_in_order (cfg_drop_after cfg) (cfg_show_jobs cfg) t ts w Hw) as H.
    destruct (refresh _ _ t ts w) as [[u|err] w']; exact H.
Qed.

(** X15: whatever a run of the proxy sends to the miners, every
    [mining.notify] comes directly after a [mining.set_target] sent to
    the same session and carrying the same target. *)
Theorem notify_follows_set_target (cfg : config) (events : list event) :
  let w := run cfg events initial_world in
  forall i s job hh seed tgt clean h bits,
    outbox w !! i = Some (s, mining_notify job hh seed tgt clean h bits) ->
    exists j, i = S j /\ outbox w !! j = Some (s, mining_set_target tgt).
Proof.
  assert (Hinit : jobs_in_order (outbox initial_world)).
  { intros i s job hh seed tgt clean h bits Hi. discriminate. }
  revert Hinit. generalize initial_world.
  induction events as [|e events IH]; intros w Hw; [exact Hw |].
  cbn [run]. apply IH. now apply step_in_order.
Qed.

Lemma notify_follows_set_target_witness :
  let w := run (mkConfig false false true store)
               [ev_authorize 1%nat "M9TQAWC2R2sGUmWodGk6DH6TNvVxiqXnU6" "x";
                ev_subscribe 1%nat;
                ev_tick (reply_template (sample_template 7499)) 1700000000]
               initial_world in
  exists j, 1%nat = S j /\
            outbox w !! j =
            Some (1%nat, mining_set_target (target_hex (sample_template 7499))).
Proof.
  intros w.
  eapply (notify_follows_set_target (mkConfig false false true store)
            [ev_authorize 1%nat "M9TQAWC2R2sGUmWodGk6DH6TNvVxiqXnU6" "x";
             ev_subscribe 1%nat;
             ev_tick (reply_template (sample_template 7499)) 1700000000]
            1%nat 1%nat).
  vm_compute. reflexivity.
Defined.

(** ** The height a submit reports *)

Lemma to_bytes_little_inv (n : nat) (z : Z) (b : bytes) :
  to_bytes_little n z = Ok b -> b = le_bytes n z /\ 0 <= z < 256 ^ Z.of_nat n.
Proof.
  unfold to_bytes_little.
  destruct (Z.ltb_spec z 0); [discriminate |].
  destruct (Z.leb_spec (256 ^ Z.of_nat n) z); [discriminate |].
  cbn [orb]. intros [= <-]. split; [reflexivity | lia].
Qed.

Lemma drop_str_hex (n : nat) (b : bytes) (s : string) :
  (n <= length b)%nat ->
  drop_str (2 * n) (String.append (hex b) s) = String.append (hex (skipn n b)) s.
Proof.
  revert b. induction n as [|n IH]; intros b Hn; [reflexivity |].
  destruct b as [|x b]; [cbn [length] in Hn; lia |].
  replace (2 * S n)%nat with (S (S (2 * n))) by lia.
  cbn [hex String.append drop_str skipn]. apply IH. cbn [length] in Hn. lia.
Qed.

Lemma take_str_hex (n : nat) (b : bytes) (s : string) :
  (n <= length b)%nat ->
  take_str (2 * n) (String.append (hex b) s) = hex (firstn n b).
Proof.
  revert b. induction n as [|n IH]; intros b Hn; [reflexivity |].
  destruct b as [|x b]; [cbn [length] in Hn; lia |].
  replace (2 * S n)%nat with (S (S (2 * n))) by lia.
  cbn [hex String.append take_str firstn]. do 2 f_equal. apply IH.
  cbn [length] in Hn. lia.
Qed.

(** The characters 152 to 160 of a block are the last four bytes of an
    80-byte header. *)
Lemma slice_header_height (hdr : bytes) (rest : string) :
  length hdr = 80%nat ->
  fromhex (slice_str 152 160 (String.append (hex hdr) rest)) = Ok (skipn 76 hdr).
Proof.
  intros Hlen. unfold slice_str.
  change (160 - 152)%nat with (2 * 4)%nat. change 152%nat with (2 * 76)%nat.
  rewrite drop_str_hex by lia.
  rewrite take_str_hex by (rewrite length_skipn; lia).
  rewrite firstn_all2 by (rewrite length_skipn; lia).
  apply fromhex_hex.
Qed.

(** What a submit that answers tells the miner. *)
Lemma handle_submit_message (self : session) (verbose : bool)
    (worker job_id nonce_hex header_hex mixhash_hex : string)
    (reply : submit_reply) (w : World) (v : pyval) :
  let st := if String.eqb job_id (job_id_of (job_counter (state w))) then state w
            else match lookup_old_state (old_states w) job_id with
                 | Some old_state => old_state
                 | None => state w
                 end in
  let r := handle_submit self verbose worker job_id nonce_hex header_hex
                         mixhash_hex reply w in
  fst r = Ok v ->
  exists nonce mix block height_bytes,
    build_block st nonce mix = Ok block /\
    fromhex (slice_str 152 160 block) = Ok height_bytes /\
    outbox (snd r) =
      outbox w ++
      [(self, client_show_message
                (String.append "Found block (may or may not be accepted by the chain): "
                               (digits 10 (Z.to_N (from_bytes_little height_bytes)))))].
Proof.
  intros st r. unfold r, handle_submit.
  assert (Hsel : exists w1, submit_state verbose job_id w = (Ok st, w1) /\
                            outbox w1 = outbox w).
  { unfold st, submit_state, bind, get, when, update, ret.
    destruct (String.eqb job_id _); simpl; [eauto |].
    destruct verbose, (lookup_old_state (old_states w) job_id); simpl; eauto. }
  destruct Hsel as (w1 & Hsel & Hout).
  unfold bind, lift, update, ret, raise, when. rewrite Hsel.
  destruct (reverse_hex nonce_hex) as [nonce|e]; simpl; [| discriminate].
  destruct (reverse_hex mixhash_hex) as [mix|e]; simpl; [| discriminate].
  destruct (build_block st nonce mix) as [block|e] eqn:Hblock; simpl; [| discriminate].
  rewrite <- Hout.
  destruct (repr_ok st); simpl; [| discriminate].
  destruct (reply_error reply) as [[code message]|],
           (reply_result reply) as [result|]; simpl;
    try destruct (bool_decide (result ∈ known_verdicts));
    try destruct verbose; simpl;
    destruct (fromhex (slice_str 152 160 block)) as [hb|] eqn:Hhb; simpl;
    intros Hv; try discriminate; exists nonce, mix, block, hb; auto.
Qed.

Lemma build_block_header (st : TemplateState) (nonce mix block : string) (hdr : bytes) :
  header st = Some hdr -> build_block st nonce mix = Ok block ->
  exists rest, block = String.append (hex hdr) rest.
Proof.
  unfold build_block. intros ->.
  destruct (var_int _); [| discriminate]. cbn [rbind].
  destruct (coinbase_tx st); [| discriminate]. intros [= <-]. eauto.
Qed.

(** X16: the block height a submit reports is the height of the header.
    A header the refresher builds from a previous hash and a Merkle root
    of 32 bytes and from bits of 4 bytes has 80 bytes, the last four
    being the state's height, little-endian.  A submit that answers after
    building its block from a state with an 80-byte header sends one
    [client.show_message]: the text "Found block (may or may not be
    accepted by the chain): " and the number those last four bytes give,
    in decimal. *)
Theorem found_block_height :
  (forall (st : TemplateState) (t : template) (merkle : bytes) (ts : Z)
          (prev bits4 hdr : bytes),
     prevHash st = Some prev -> length prev = 32%nat -> length merkle = 32%nat ->
     fromhex (bits_hex t) = Ok bits4 -> length bits4 = 4%nat ->
     make_header st t merkle ts = Ok hdr ->
     length hdr = 80%nat /\ from_bytes_little (skipn 76 hdr) = height st) /\
  (forall (self : session) (verbose : bool)
          (worker job_id nonce_hex header_hex mixhash_hex : string)
          (reply : submit_reply) (w : World) (hdr : bytes) (v : pyval),
     let st := if String.eqb job_id (job_id_of (job_counter (state w))) then state w
               else match lookup_old_state (old_states w) job_id with
                    | Some old_state => old_state
                    | None => state w
                    end in
     let r := handle_submit self verbose worker job_id nonce_hex header_hex
                            mixhash_hex reply w in
     header st = Some hdr -> length hdr = 80%nat -> fst r = Ok v ->
     outbox (snd r) =
       outbox w ++
       [(self, client_show_message
                 (String.append "Found block (may or may not be accepted by the chain): "
                    (digits 10 (Z.to_N (from_bytes_little (skipn 76 hdr))))))]).
Proof.
  split.
  - intros st t merkle ts prev bits4 hdr Hprev Hlp Hlm Hbits Hlb Hhdr.
    unfold make_header in Hhdr. rewrite Hprev, Hbits in Hhdr. cbn [attr rbind] in Hhdr.
    destruct (to_bytes_little 4 (version_int t)) as [v|] eqn:Hv; [| discriminate].
    cbn [rbind] in Hhdr.
    destruct (to_bytes_little 4 ts) as [time4|] eqn:Ht; [| discriminate].
    cbn [rbind] in Hhdr.
    destruct (to_bytes_little 4 (height st)) as [height4|] eqn:Hh; [| discriminate].
    cbn [rbind] in Hhdr. injection Hhdr as <-.
    apply to_bytes_little_inv in Hv as [-> _], Ht as [-> _], Hh as [-> Hrange].
    assert (Hpre : length (le_bytes 4 (version_int t) ++ prev ++ merkle ++
                           le_bytes 4 ts ++ reversed bits4) = 76%nat).
    { unfold reversed. rewrite !length_app, !length_le_bytes, length_rev. lia. }
    replace (le_bytes 4 (version_int t) ++ prev ++ merkle ++ le_bytes 4 ts ++
             reversed bits4 ++ le_bytes 4 (height st))
      with ((le_bytes 4 (version_int t) ++ prev ++ merkle ++ le_bytes 4 ts ++
             reversed bits4) ++ le_bytes 4 (height st))
      by (now rewrite <- !app_assoc).
    split.
    + rewrite length_app, Hpre, length_le_bytes. reflexivity.
    + rewrite skipn_app, Hpre, Nat.sub_diag, skipn_all2 by lia.
      cbn [app]. rewrite skipn_O, from_bytes_le_bytes. apply Z.mod_small. exact Hrange.
  - intros self verbose worker job_id nonce_hex header_hex mixhash_hex reply w hdr v
           st r Hhdr Hlen Hv.
    destruct (handle_submit_message self verbose worker job_id nonce_hex header_hex
                mixhash_hex reply w v Hv) as (nonce & mix & block & hb & Hb & Hs & Hout).
    fold st in Hb. fold r in Hout.
    destruct (build_block_header st nonce mix block hdr Hhdr Hb) as [rest ->].
    rewrite slice_header_height in Hs by exact Hlen. injection Hs as <-.
    exact Hout.
Qed.

Lemma found_block_height_witness :
  let st := set_coinbase_txid (Some (zeros 32)) (set_coinbase_tx (Some [x01])
              (set_header (Some (zeros 76 ++ [xe8; x03; x00; x00]))
              (set_seedHash (Some (zeros 32)) (set_prevHash (Some (zeros 32))
              (set_job_counter 5 initial_state))))) in
  let w := with_state (fun _ => st) initial_world in
  outbox (snd (handle_submit 1%nat true "rig" "5" "0x0102030405060708" "ab"
                             (hex (zeros 32)) (mkReply None None) w)) =
  [(1%nat, client_show_message
             "Found block (may or may not be accepted by the chain): 1000")].
Proof.
  intros st w.
  destruct found_block_height as [_ Hsubmit].
  apply (Hsubmit 1%nat true "rig" "5" "0x0102030405060708" "ab" (hex (zeros 32))
                 (mkReply None None) w (zeros 76 ++ [xe8; x03; x00; x00]) (PBool true));
    vm_compute; reflexivity.
Defined.

(** ** mining.authorize reads the address only *)

Lemma before_dot_app (address rest : string) :
  Forall (fun c => c <> "."%char) (list_ascii_of_string address) ->
  before_dot (String.append address (String "." rest)) = address /\
  before_dot address = address.
Proof.
  induction address as [|c address IH]; intros Hdot.
  - split; reflexivity.
  - cbn [list_ascii_of_string] in Hdot. apply Forall_cons in Hdot as [Hc Hdot].
    assert (Happ : String.append (String c address) (String "." rest) =
                   String c (String.append address (String "." rest))) by reflexivity.
    rewrite Happ. cbn [before_dot].
    destruct (Ascii.eqb_spec c "."); [contradiction |].
    destruct (IH Hdot) as [E1 E2]. split; f_equal; assumption.
Qed.

(** X17: [handle_authorize] looks at the text before the first dot of
    the username and at nothing else of its arguments: a worker name
    after the dot and the password change neither the answer nor the
    state it leaves. *)
Theorem authorize_reads_address_only (testnet : bool)
    (address worker password password' : string) (w : World) :
  Forall (fun c => c <> "."%char) (list_ascii_of_string address) ->
  handle_authorize testnet (String.append address (String "." worker)) password w =
  handle_authorize testnet address password' w.
Proof.
  intros Hdot. rewrite !handle_authorize_eq.
  destruct (before_dot_app address worker Hdot) as [-> ->]. reflexivity.
Qed.

Lemma authorize_reads_address_only_witness :
  handle_authorize false
    (String.append "M9TQAWC2R2sGUmWodGk6DH6TNvVxiqXnU6" (String "." "rig.1"))
    "x" initial_world =
  handle_authorize false "M9TQAWC2R2sGUmWodGk6DH6TNvVxiqXnU6" "secret" initial_world.
Proof.
  apply (authorize_reads_address_only false "M9TQAWC2R2sGUmWodGk6DH6TNvVxiqXnU6"
           "rig.1" "x" "secret" initial_world).
  cbn [list_ascii_of_string]. repeat (constructor; [discriminate |]). constructor.
Defined.

(** ** A tick that brings nothing new *)

Lemma read_template_eq (t : template) (w : World) :
  read_template t w =
  match fromhex (prev_hash_hex t) with
  | Ok prev =>
      (Ok (negb (bool_decide (Some (witness_hex t) = current_commitment (state w)))),
       with_state (fun st =>
         set_prevHash (Some (rev prev))
           (set_version (version_int t)
              (set_bits (Some (bits_hex t))
                 (set_target (Some (target_hex t))
                    (set_current_commitment (Some (witness_hex t)) st))))) w)
  | Raise e =>
      (Raise e,
       with_state (fun st =>
         set_version (version_int t)
           (set_bits (Some (bits_hex t))
              (set_target (Some (target_hex t))
                 (set_current_commitment (Some (witness_hex t)) st)))) w)
  end.
Proof.
  unfold read_template, bind, get, update, lift, ret.
  destruct (fromhex (prev_hash_hex t)); reflexivity.
Qed.

Lemma with_new_sessions_empty (w : World) :
  new_sessions w = ∅ -> with_new_sessions ∅ w = w.
Proof. destruct w. cbn. now intros ->. Qed.

(** X18: a tick that brings nothing new builds no job and sends
    nothing.  When the miner has authorized, the template has the height
    and the witness commitment of the state, the last rebuild is at most
    60 seconds old and no session is waiting in [new_sessions], the tick
    assigns the commitment, target, bits, version and previous hash of
    the template and does nothing else: the header, the job counter, the
    history queue, the notifications sent and the log are as before. *)
Theorem idle_tick (drop_after : Z) (show_jobs : bool) (t : template) (ts : Z)
    (w : World) (prev : bytes) :
  truthy (pub_h160 (state w)) = true ->
  fromhex (prev_hash_hex t) = Ok prev ->
  height (state w) = height_int t -> height_int t <> -1 ->
  current_commitment (state w) = Some (witness_hex t) ->
  ts <= timestamp (state w) + 60 ->
  new_sessions w = ∅ ->
  let w' := stateUpdater drop_after show_jobs (reply_template t) ts w in
  w' = with_state (fun st =>
         set_prevHash (Some (rev prev))
           (set_version (version_int t)
              (set_bits (Some (bits_hex t))
                 (set_target (Some (target_hex t))
                    (set_current_commitment (Some (witness_hex t)) st))))) w /\
  header (state w') = header (state w) /\
  job_counter (state w') = job_counter (state w) /\
  old_states w' = old_states w /\ outbox w' = outbox w /\ logs w' = logs w.
Proof.
  intros Hpub Hprev Hheight Hinit Hcommit Hts Hnew w'.
  assert (E : w' = with_state (fun st =>
         set_prevHash (Some (rev prev))
           (set_version (version_int t)
              (set_bits (Some (bits_hex t))
                 (set_target (Some (target_hex t))
                    (set_current_commitment (Some (witness_hex t)) st))))) w).
  { unfold w', stateUpdater. rewrite Hpub. cbn [negb].
    unfold refresh. unfold bind at 1. rewrite read_template_eq, Hprev, Hcommit.
    rewrite (bool_decide_eq_true_2 _ eq_refl). cbn [negb].
    rewrite new_block_update_bind.
    cbn [state with_state height set_prevHash set_version set_bits set_target
         set_current_commitment].
    rewrite Hheight, Z.eqb_refl.
    destruct (Z.eqb_spec (height_int t) (-1)); [contradiction |].
    cbn [orb negb]. rewrite bind_get.
    cbn [state with_state timestamp set_prevHash set_version set_bits set_target
         set_current_commitment].
    rewrite (bool_decide_eq_false_2 (is_Some None)) by (intros [? ?]; discriminate).
    destruct (Z.ltb_spec (timestamp (state w) + 60) ts); [lia |].
    cbn [orb when]. unfold bind at 1. unfold ret at 1.
    unfold welcome_new_sessions. rewrite bind_get.
    cbn [new_sessions with_state]. rewrite Hnew, elements_empty. cbn [for_each].
    unfold bind, ret, update.
    rewrite with_new_sessions_empty by exact Hnew. reflexivity. }
  split; [exact E |]. rewrite E. repeat split.
Qed.

Lemma idle_tick_witness :
  let w := run (mkConfig false false true store)
               [ev_authorize 1%nat "M9TQAWC2R2sGUmWodGk6DH6TNvVxiqXnU6" "x";
                ev_tick (reply_template (sample_template 7499)) 1700000000]
               initial_world in
  let w' := stateUpdater store true (reply_template (sample_template 7499))
                         1700000030 w in
  outbox w' = outbox w /\ job_counter (state w') = job_counter (state w).
Proof.
  intros w w'.
  destruct (idle_tick store true (sample_template 7499) 1700000030 w
              (zeros 31 ++ [xaa]))
    as (_ & _ & Hjc & _ & Hout & _);
    try (vm_compute; reflexivity).
  - vm_compute. discriminate.
  - vm_compute. discriminate.
  - split; [exact Hout | exact Hjc].
Defined.

(** ** Jobs reach the sessions *)

(** A loop whose body sends one job to its session and cannot raise. *)
Lemma job_loop (t : template) (body : session -> M unit) (seed : bytes)
    (xs : list session) (w : World) :
  (forall s w, seedHash (state w) = Some seed ->
     exists w1, body s w = (Ok tt, w1) /\ state w1 = state w /\
                outbox w1 = (outbox w ++ [(s, mining_set_target (target_hex t))]) ++
                            [(s, job_notification t (state w) seed)]) ->
  seedHash (state w) = Some seed ->
  exists w' more,
    for_each xs body w = (Ok tt, w') /\ state w' = state w /\
    outbox w' = outbox w ++ more /\
    forall s, s ∈ xs -> (s, job_notification t (state w) seed) ∈ more.
Proof.
  intros Hbody. revert w. induction xs as [|s xs IH]; intros w Hseed.
  - exists w, []. repeat split; [now rewrite app_nil_r |].
    intros s Hs. now apply elem_of_nil in Hs.
  - destruct (Hbody s w Hseed) as (w1 & Hrun1 & Hst1 & Hout1).
    destruct (IH w1) as (w' & more & Hrun & Hst & Hout & Hin); [congruence |].
    exists w', ([(s, mining_set_target (target_hex t));
                 (s, job_notification t (state w) seed)] ++ more).
    cbn [for_each]. unfold bind. rewrite Hrun1.
    split; [exact Hrun |]. split; [congruence |]. split.
    + rewrite Hout, Hout1, <- !app_assoc. reflexivity.
    + intros s' Hs'. apply elem_of_cons in Hs' as [-> | Hs'].
      * apply elem_of_app. left. apply elem_of_cons. right. apply elem_of_cons. now left.
      * apply elem_of_app. right. rewrite <- Hst1. now apply Hin.
Qed.

Lemma send_job_sends (t : template) (seed : bytes) (s : session) (w : World) :
  seedHash (state w) = Some seed ->
  exists w1, send_job t s w = (Ok tt, w1) /\ state w1 = state w /\
             outbox w1 = (outbox w ++ [(s, mining_set_target (target_hex t))]) ++
                         [(s, job_notification t (state w) seed)].
Proof.
  intros Hseed. rewrite (send_job_ok t s w seed Hseed). eexists.
  split; [reflexivity |]. split; reflexivity.
Qed.

Lemma welcome_sends (t : template) (w : World) (seed : bytes) :
  seedHash (state w) = Some seed ->
  exists w' more,
    welcome_new_sessions t w = (Ok tt, w') /\ state w' = state w /\
    outbox w' = outbox w ++ more /\
    forall s, s ∈ new_sessions w -> (s, job_notification t (state w) seed) ∈ more.
Proof.
  intros Hseed. unfold welcome_new_sessions. rewrite bind_get.
  destruct (job_loop t
              (fun s => bind (update (fun w => with_all_sessions
                                                 ({[ s ]} ∪ all_sessions w) w))
                             (fun _ => send_job t s))
              seed (elements (new_sessions w)) w) as (w1 & more & Hrun & Hst & Hout & Hin).
  { intros s w0 Hs. rewrite bind_update.
    destruct (send_job_sends t seed s
                (with_all_sessions ({[ s ]} ∪ all_sessions w0) w0) Hs)
      as (w1 & Hrun & Hst & Hout).
    exists w1. split; [exact Hrun |]. split; [exact Hst | exact Hout]. }
  { exact Hseed. }
  unfold bind at 1. rewrite Hrun. unfold update.
  eexists _, more. split; [reflexivity |].
  cbn [state outbox with_new_sessions]. split; [exact Hst |]. split; [exact Hout |].
  intros s Hs. apply Hin. now apply elem_of_elements.
Qed.

(** A rebuild that returns has sent the new job to every session. *)
Lemma rebuild_sends (drop_after : Z) (show_jobs : bool) (t : template) (ts : Z)
    (original : option TemplateState) (w w' : World) (seed : bytes) :
  rebuild drop_after show_jobs t ts original w = (Ok tt, w') ->
  seedHash (state w) = Some seed ->
  job_counter (state w') = job_counter (state w) + 1 /\
  seedHash (state w') = Some seed /\
  exists more,
    outbox w' = outbox w ++ more /\
    forall s, s ∈ all_sessions w -> (s, job_notification t (state w') seed) ∈ more.
Proof.
  intros Hr Hseed. unfold rebuild in Hr. rewrite bind_get in Hr. cbv zeta in Hr.
  rewrite bind_lift in Hr.
  destruct (generate_coinbase (state w) t) as [cb|]; [| discriminate].
  rewrite !bind_update, bind_lift in Hr.
  destruct (collect_txs (txs_list t)) as [txs|]; [| discriminate].
  rewrite bind_update, bind_lift in Hr.
  destruct (merkle_from_txids (dsha256 (snd cb) :: snd txs)) as [m|]; [| discriminate].
  rewrite bind_get, bind_lift in Hr.
  match type of Hr with
  | context [make_header ?st t m ts] => destruct (make_header st t m ts) as [hdr|]
  end; [| discriminate].
  rewrite !bind_update in Hr.
  match type of Hr with
  | bind (push_old_state _ ?orig) _ ?w7 = _ => set (w1 := w7) in Hr
  end.
  assert (Hjc : job_counter (state w1) = job_counter (state w) + 1) by reflexivity.
  assert (Hseed1 : seedHash (state w1) = Some seed) by exact Hseed.
  assert (Hout1 : outbox w1 = outbox w) by reflexivity.
  assert (Hall1 : all_sessions w1 = all_sessions w) by reflexivity.
  clearbody w1. unfold bind at 1 in Hr.
  match type of Hr with
  | context [push_old_state ?d ?o w1] =>
      pose proof (push_old_state_keeps
                    (fun w => (state w, outbox w, all_sessions w)) d o
                    ltac:(reflexivity) w1) as Hpush;
      destruct (push_old_state d o w1) as [[u|] w2]; [| discriminate]
  end.
  cbn [snd] in Hpush. injection Hpush as Hst2 Hout2 Hall2.
  unfold bind at 1 in Hr.
  match type of Hr with
  | context [when show_jobs ?c w2] =>
      assert (Hshow : keeps (fun w => (state w, outbox w, all_sessions w))
                            (when show_jobs c)) by keeps_tac;
      specialize (Hshow w2);
      destruct (when show_jobs c w2) as [[u'|] w3]; [| discriminate]
  end.
  cbn [snd] in Hshow. injection Hshow as Hst3 Hout3 Hall3.
  rewrite bind_get in Hr.
  destruct (job_loop t (send_job t) seed (elements (all_sessions w3)) w3)
    as (w4 & more & Hrun & Hst4 & Hout4 & Hin).
  { intros s w0. apply send_job_sends. }
  { congruence. }
  rewrite Hrun in Hr. injection Hr as <-.
  split; [congruence |]. split; [congruence |].
  exists more. split; [congruence |].
  intros s Hs. replace (state w4) with (state w3) by congruence.
  apply Hin, elem_of_elements. congruence.
Qed.

(** The [try] block that completes, and the jobs it has sent. *)
Lemma refresh_sends (drop_after : Z) (show_jobs : bool) (t : template) (ts : Z)
    (w w' : World) :
  seed_inv (state w) ->
  refresh drop_after show_jobs t ts w = (Ok tt, w') ->
  exists seed,
    seedHash (state w') = Some seed /\
    (forall s, s ∈ new_sessions w ->
       (s, job_notification t (state w') seed) ∈ outbox w') /\
    (job_counter (state w') <> job_counter (state w) ->
     forall s, s ∈ all_sessions w ->
       (s, job_notification t (state w') seed) ∈ outbox w').
Proof.
  intros Hinv Hr. unfold refresh in Hr.
  assert (Hread : keeps (fun w => (seedHash (state w), height (state w),
                                   job_counter (state w),
                                   new_sessions w, all_sessions w)) (read_template t))
    by (unfold read_template; keeps_tac).
  specialize (Hread w). unfold bind at 1 in Hr.
  destruct (read_template t w) as [[new_witness|] w1]; [| discriminate].
  cbn [snd] in Hread. injection Hread as Hseed Hheight Hjc Hnew Hall.
  assert (Hinv1 : seed_inv (state w1))
    by (apply (seed_inv_ext w); [congruence | exact Hinv]).
  destruct (new_block_update_seed t
              (fun original_state =>
                 bind get (fun w =>
                   bind (when (bool_decide (is_Some original_state) || new_witness
                               || (timestamp (state w) + 60 <? ts))
                              (rebuild drop_after show_jobs t ts original_state))
                        (fun _ => welcome_new_sessions t))) w1 Hinv1)
    as (original & w2 & Hrun & [n Hn] & Hnew2 & Hall2 & _ & Hjc2).
  rewrite Hrun in Hr. clear Hrun. rewrite bind_get in Hr.
  match type of Hr with
  | bind (when ?c _) _ _ = _ => set (b := c) in Hr; clearbody b
  end.
  set (seed := Nat.iter n Keccak.keccak_256 (zeros 32)) in *.
  exists seed. unfold bind in Hr. destruct b; cbn [when] in Hr.
  - destruct (rebuild drop_after show_jobs t ts original w2) as [[[]|] w3] eqn:Hreb;
      [| discriminate].
    destruct (rebuild_sends _ _ _ _ _ _ _ seed Hreb Hn)
      as (_ & Hseed3 & more3 & Hout3 & Hin3).
    destruct (welcome_sends t w3 seed Hseed3) as (w4 & more & Hw & Hst4 & Hout4 & Hin4).
    rewrite Hw in Hr. injection Hr as <-.
    split; [congruence |]. rewrite Hst4. split.
    + intros s Hs. rewrite Hout4. apply elem_of_app. right. apply Hin4.
      assert (K : keeps new_sessions (rebuild drop_after show_jobs t ts original)).
      { apply (keeps_compose
                 (fun w => (seedHash (state w), height (state w),
                            new_sessions w, all_sessions w))
                 (fun x => snd (fst x))), rebuild_keeps_sessions. }
      specialize (K w2). rewrite Hreb in K. cbn [snd] in K. congruence.
    + intros _ s Hs. rewrite Hout4, Hout3. apply elem_of_app. left.
      apply elem_of_app. right. apply Hin3. congruence.
  - unfold ret in Hr.
    destruct (welcome_sends t w2 seed Hn) as (w4 & more & Hw & Hst4 & Hout4 & Hin4).
    rewrite Hw in Hr. injection Hr as <-.
    split; [congruence |]. rewrite Hst4. split.
    + intros s Hs. rewrite Hout4. apply elem_of_app. right. apply Hin4. congruence.
    + intros Hne. exfalso. apply Hne. congruence.
Qed.

(** X19: jobs reach the sessions.  In any state a run of the proxy
    reaches, when the [try] block of a tick completes, every session that
    was waiting in [new_sessions] has been sent the [mining.notify] of
    the job the state then holds (its job id, header hash, seed hash,
    height, and the target and bits of the template); and if the tick has
    built a new job, so has every session of [all_sessions]. *)
Theorem jobs_reach_sessions (cfg : config) (events : list event) (t : template)
    (ts : Z) (w' : World) :
  let w := run cfg events initial_world in
  refresh (cfg_drop_after cfg) (cfg_show_jobs cfg) t ts w = (Ok tt, w') ->
  exists seed,
    seedHash (state w') = Some seed /\
    (forall s, s ∈ new_sessions w ->
       (s, mining_notify (job_id_of (job_counter (state w'))) (headerHash (state w'))
                         (hex seed) (target_hex t) true (height (state w'))
                         (bits_hex t)) ∈ outbox w') /\
    (job_counter (state w') <> job_counter (state w) ->
     forall s, s ∈ all_sessions w ->
       (s, mining_notify (job_id_of (job_counter (state w'))) (headerHash (state w'))
                         (hex seed) (target_hex t) true (height (state w'))
                         (bits_hex t)) ∈ outbox w').
Proof.
  intros w Hr. destruct (run_seed_sessions cfg events) as [Hinv _].
  exact (refresh_sends _ _ t ts w w' Hinv Hr).
Qed.

Lemma jobs_reach_sessions_witness :
  let cfg := mkConfig false false true store in
  let w := run cfg [ev_authorize 1%nat "M9TQAWC2R2sGUmWodGk6DH6TNvVxiqXnU6" "x";
                    ev_subscribe 1%nat] initial_world in
  let w' := snd (refresh store true (sample_template 7499) 1700000000 w) in
  exists seed,
    seedHash (state w') = Some seed /\
    (forall s, s ∈ new_sessions w ->
       (s, mining_notify (job_id_of (job_counter (state w'))) (headerHash (state w'))
                         (hex seed) (target_hex (sample_template 7499)) true
                         (height (state w')) (bits_hex (sample_template 7499)))
       ∈ outbox w') /\
    (job_counter (state w') <> job_counter (state w) ->
     forall s, s ∈ all_sessions w ->
       (s, mining_notify (job_id_of (job_counter (state w'))) (headerHash (state w'))
                         (hex seed) (target_hex (sample_template 7499)) true
                         (height (state w')) (bits_hex (sample_template 7499)))
       ∈ outbox w').
Proof.
  intros cfg w w'.
  apply (jobs_reach_sessions cfg
           [ev_authorize 1%nat "M9TQAWC2R2sGUmWodGk6DH6TNvVxiqXnU6" "x";
            ev_subscribe 1%nat] (sample_template 7499) 1700000000 w').
  pose proof (surjective_pairing
                (refresh store true (sample_template 7499) 1700000000 w)) as Hp.
  assert (Hok : fst (refresh store true (sample_template 7499) 1700000000 w) = Ok tt)
    by (vm_compute; reflexivity).
  rewrite Hok in Hp. exact Hp.
Defined.

(** ** The coinbase and its txid *)

Lemma generate_coinbase_stripped (st : TemplateState) (t : template)
    (cb : bytes * bytes) :
  generate_coinbase st t = Ok cb -> witness_stripped (fst cb) (snd cb).
Proof.
  unfold generate_coinbase. intros H.
  cbv beta zeta delta [rbind] in H.
  repeat match type of H with
         | match ?r with Ok _ => _ | Raise _ => _ end = Ok _ =>
             let x := fresh "x" in
             let E := fresh "E" in
             destruct r as [x|] eqn:E; [cbv beta iota in H | discriminate]
         end.
  apply (f_equal (fun r : res (bytes * bytes) =>
                    match r with Ok c => c | Raise _ => cb end)) in H.
  cbv beta iota in H. subst cb. cbv beta iota delta [fst snd].
  match goal with
  | E : to_bytes_little 4 1 = Ok ?one |- _ =>
      apply to_bytes_little_inv in E as [-> _]
  end.
  match goal with
  | |- witness_stripped (_ ++ _ ++ [x01] ++ ?txin ++ [x03] ++ ?outs ++ _) _ =>
      exists ([x01] ++ txin ++ [x03] ++ outs)
  end.
  split; rewrite <- !app_assoc; reflexivity.
Qed.

(** A step of the coinbase pair: unchanged, or a coinbase with the txid
    of its stripped serialization. *)
Lemma rebuild_coinbase (drop_after : Z) (show_jobs : bool) (t : template) (ts : Z)
    (original : option TemplateState) :
  moves (fun w => (coinbase_tx (state w), coinbase_txid (state w)))
        (fun x y => y = x \/ coinbase_ok y)
        (rebuild drop_after show_jobs t ts original).
Proof.
  intros w. unfold rebuild. rewrite bind_get. cbv zeta. rewrite bind_lift.
  destruct (generate_coinbase (state w) t) as [cb|] eqn:Hcb; [| now left].
  rewrite !bind_update.
  match goal with
  | |- context [bind (lift ?c) ?k ?w2] =>
      assert (K : keeps (fun w => (coinbase_tx (state w), coinbase_txid (state w)))
                        (bind (lift c) k))
  end.
  { unfold send_job. keeps_tac. apply push_old_state_keeps. reflexivity. }
  rewrite K. right. right. exists (fst cb), (snd cb).
  split; [reflexivity | now apply (generate_coinbase_stripped (state w) t)].
Qed.

Lemma refresh_coinbase (drop_after : Z) (show_jobs : bool) (t : template) (ts : Z) :
  moves (fun w => (coinbase_tx (state w), coinbase_txid (state w)))
        (fun x y => y = x \/ coinbase_ok y)
        (refresh drop_after show_jobs t ts).
Proof.
  unfold refresh.
  apply moves_bind_l; [| | now left].
  { unfold read_template. keeps_tac. }
  intros new_witness. apply moves_bind_l; [| | now left].
  { apply (new_block_update_keeps (fun st => (coinbase_tx st, coinbase_txid st)));
      reflexivity. }
  intros original. apply moves_bind_l; [apply keeps_get | | now left].
  intros w0. apply moves_bind_r.
  - apply moves_when; [apply rebuild_coinbase | now left].
  - intros _. apply (keeps_compose state (fun st => (coinbase_tx st, coinbase_txid st))).
    apply welcome_keeps_state.
Qed.

Lemma step_coinbase (cfg : config) (e : event) (w : World) :
  coinbase_ok (coinbase_tx (state w), coinbase_txid (state w)) ->
  coinbase_ok (coinbase_tx (state (snd (step cfg e w))),
               coinbase_txid (state (snd (step cfg e w)))).
Proof.
  intros Hw.
  assert (Hsame : forall w',
             (coinbase_tx (state w'), coinbase_txid (state w')) =
             (coinbase_tx (state w), coinbase_txid (state w)) ->
             coinbase_ok (coinbase_tx (state w'), coinbase_txid (state w')))
    by (intros w' ->; exact Hw).
  destruct e; cbn [step snd].
  - apply Hsame. rewrite handle_subscribe_eq. cbn [snd].
    destruct (bool_decide _); reflexivity.
  - apply Hsame. revert w Hw Hsame. intros w _ _. revert w.
    change (keeps (fun w => (coinbase_tx (state w), coinbase_txid (state w)))
                  (handle_authorize (cfg_testnet cfg) username password)).
    unfold handle_authorize. keeps_tac.
  - apply Hsame. now rewrite handle_submit_keeps_state.
  - unfold stateUpdater. destruct (negb _); [exact Hw |].
    destruct reply as [|t]; [exact Hw |].
    pose proof (refresh_coinbase (cfg_drop_after cfg) (cfg_show_jobs cfg) t ts w) as H.
    cbn beta in H.
    destruct (refresh _ _ t ts w) as [[u|err] w']; cbn [snd state log] in *;
      (destruct H as [H | H]; [apply Hsame; exact H | exact H]).
Qed.

(** X20: in every state a run of the proxy reaches from its start, the
    coinbase and its txid go together: both are absent, or
    [coinbase_txid] is the double SHA-256 of [coinbase_tx] serialized
    without its segregated-witness parts (the marker and flag bytes after
    the version, and the witness stack before the lock time). *)
Theorem coinbase_txid_of_coinbase_tx (cfg : config) (events : list event) :
  let w := run cfg events initial_world in
  (coinbase_tx (state w) = None /\ coinbase_txid (state w) = None) \/
  (exists full nowit body,
     coinbase_tx (state w) = Some full /\
     coinbase_txid (state w) = Some (dsha256 nowit) /\
     full = le_bytes 4 1 ++ [x00; x01] ++ body ++ [x01; x20] ++ zeros 32 ++ zeros 4 /\
     nowit = le_bytes 4 1 ++ body ++ zeros 4).
Proof.
  intros w.
  assert (H : coinbase_ok (coinbase_tx (state w), coinbase_txid (state w))).
  { unfold w. clear w.
    assert (Hinit : coinbase_ok (coinbase_tx (state initial_world),
                                 coinbase_txid (state initial_world)))
      by (left; reflexivity).
    revert Hinit. generalize initial_world.
    induction events as [|e events IH]; intros w Hw; [exact Hw |].
    cbn [run]. apply IH. now apply step_coinbase. }
  destruct H as [H | (full & nowit & H & body & Hfull & Hnowit)].
  - left. injection H as -> ->. auto.
  - right. injection H as -> ->. exists full, nowit, body. auto.
Qed.

(** ** The transactions of a template *)

(** X21: the loop over the template's transactions keeps their order:
    when every txid is hexadecimal text it returns the transactions' data
    and, in the same order, their txids byte-reversed; it raises
    otherwise. *)
Theorem collect_txs_in_order (txs : list tx) :
  (forall datas ids, collect_txs txs = Ok (datas, ids) ->
     datas = map tx_data txs /\
     Forall2 (fun x id => fromhex (tx_txid x) = Ok (rev id)) txs ids) /\
  (is_ok (collect_txs txs) = true <->
   Forall (fun x => is_ok (fromhex (tx_txid x)) = true) txs).
Proof.
  induction txs as [|x txs [IH1 IH2]].
  - split.
    + intros datas ids [= <- <-]. split; constructor.
    + split; [constructor | reflexivity].
  - cbn [collect_txs].
    destruct (fromhex (tx_txid x)) as [txid|] eqn:Hx; cbn [rbind].
    + destruct (collect_txs txs) as [[d i]|] eqn:Hrest; cbn [rbind].
      * split.
        -- intros datas ids [= <- <-]. destruct (IH1 d i eq_refl) as [-> Hall].
           split; [reflexivity |]. constructor; [| exact Hall].
           rewrite Hx. unfold reversed. now rewrite rev_involutive.
        -- split; [| reflexivity]. intros _. constructor; [now rewrite Hx |].
           now apply IH2.
      * split; [discriminate |]. split; [discriminate |].
        intros H. apply Forall_cons in H as [_ H]. now apply IH2 in H.
    + split; [discriminate |]. split; [discriminate |].
      intros H. apply Forall_cons in H as [H _]. rewrite Hx in H. discriminate.
Qed.
